(** * OpenAL output backend of OpenMW: streaming feeder and stream thread

    A shallow embedding of [apps/openmw/mwsound/openal_output.cpp]:
    the streaming sound object [OpenAL_SoundStream], the background
    [StreamThread] and the voice bookkeeping of [OpenAL_Output], followed
    by the properties of the backend that are stated about them.

    C++ integers are [Z] with their wrap-around written out, byte buffers
    are [list byte], single and double precision numbers are the
    [spec_float] of the standard library at the binary32 and binary64
    formats, and code that can throw runs in a state-and-exception monad. *)

From Stdlib Require Import ZArith List Bool String Lia.
From Stdlib Require Import Floats.SpecFloat Strings.Byte.
From stdpp Require Import base option list gmap.
Import ListNotations.

Local Open Scope Z_scope.

(* ===================================================================== *)
(** ** Machine integers *)

Definition ALuint_wrap (z : Z) : Z := z mod 2 ^ 32.
Definition size_t_wrap (z : Z) : Z := z mod 2 ^ 64.
(** Conversion to the signed 32-bit [ALint]. *)
Definition ALint_wrap (z : Z) : Z := (z + 2 ^ 31) mod 2 ^ 32 - 2 ^ 31.

(** [(unsigned char)c], as [memset] stores its fill value. *)
Definition byte_of_Z (c : Z) : byte :=
  match Byte.of_N (Z.to_N (c mod 256)) with
  | Some b => b
  | None => x00
  end.

(* ===================================================================== *)
(** ** Exceptions and the state-and-exception monad *)

(** Everything thrown in this file derives from [std::exception]; [fail]
    throws a [std::runtime_error]. *)
Inductive exn : Type :=
  | runtime_error (what : string)
  | std_exception (what : string).

Definition what (e : exn) : string :=
  match e with runtime_error w | std_exception w => w end.

Inductive Result (A : Type) : Type :=
  | Ok (a : A)
  | Throw (e : exn).
Arguments Ok {A} a.
Arguments Throw {A} e.

(** A computation over a mutable state [S]: the state reached is kept
    when an exception leaves the computation, as in C++. *)
Definition M (S A : Type) : Type := S -> Result A * S.

Definition ret {S A} (a : A) : M S A := fun s => (Ok a, s).
Definition bind {S A B} (m : M S A) (k : A -> M S B) : M S B :=
  fun s => match m s with
           | (Ok a, s') => k a s'
           | (Throw e, s') => (Throw e, s')
           end.
Definition throw {S A} (e : exn) : M S A := fun s => (Throw e, s).
Definition gets {S A} (f : S -> A) : M S A := fun s => (Ok (f s), s).
Definition modify {S} (f : S -> S) : M S unit := fun s => (Ok tt, f s).

(** [try { body } catch(std::exception &e) { handler e }] *)
Definition try_catch {S A} (body : M S A) (handler : exn -> M S A) : M S A :=
  fun s => match body s with
           | (Ok a, s') => (Ok a, s')
           | (Throw e, s') => handler e s'
           end.

Declare Scope cpp_scope.
Delimit Scope cpp_scope with cpp.
Notation "x <- c1 ;; c2" := (bind c1 (fun x => c2))
  (at level 100, c1 at next level, right associativity) : cpp_scope.
Notation "c1 ;;; c2" := (bind c1 (fun _ => c2))
  (at level 100, right associativity) : cpp_scope.
Local Open Scope cpp_scope.

(** [when c m] is [if(c) m;]. *)
Definition when {S} (c : bool) (m : M S unit) : M S unit :=
  if c then m else ret tt.

(* ===================================================================== *)
(** ** Single and double precision arithmetic *)

Module F32.
Definition prec : Z := 24.
Definition emax : Z := 128.
(** [(float)z] for an integer [z]: rounding to nearest even. *)
Definition of_int (z : Z) : spec_float := binary_normalize prec emax z 0 false.
Definition mul : spec_float -> spec_float -> spec_float := SFmul prec emax.
Definition add : spec_float -> spec_float -> spec_float := SFadd prec emax.
Definition sub : spec_float -> spec_float -> spec_float := SFsub prec emax.
Definition div : spec_float -> spec_float -> spec_float := SFdiv prec emax.
Definition ltb : spec_float -> spec_float -> bool := SFltb.
Definition zero : spec_float := S754_zero false.
End F32.

Module F64.
Definition prec : Z := 53.
Definition emax : Z := 1024.
(** [(double)z] for an integer [z]. *)
Definition of_int (z : Z) : spec_float := binary_normalize prec emax z 0 false.
Definition div : spec_float -> spec_float -> spec_float := SFdiv prec emax.
(** The literal [0.0]. *)
Definition zero : spec_float := S754_zero false.
End F64.

(** The integer part of a finite number, rounding toward zero. *)
Definition float_trunc (f : spec_float) : Z :=
  match f with
  | S754_finite s m e =>
      let mag := match e with
                 | Z0 => Zpos m
                 | Zpos _ => Zpos m * 2 ^ e
                 | Zneg _ => Zpos m / 2 ^ (- e)
                 end in
      if s then - mag else mag
  | _ => 0
  end.

(** [static_cast<ALuint>(f)]: the fractional part is discarded.  (C++
    leaves the conversion undefined when the integer part does not fit;
    the model reduces it modulo 2^32 there.) *)
Definition static_cast_ALuint (f : spec_float) : Z := ALuint_wrap (float_trunc f).

(* ===================================================================== *)
(** ** Decoder interface ([sound_decoder.hpp]) *)

Inductive ChannelConfig : Type :=
  | ChannelConfig_Mono
  | ChannelConfig_Stereo
  | ChannelConfig_Quad
  | ChannelConfig_5point1
  | ChannelConfig_7point1.

Inductive SampleType : Type :=
  | SampleType_UInt8
  | SampleType_Int16
  | SampleType_Float32.

Global Instance ChannelConfig_eq_dec : EqDecision ChannelConfig.
Proof. solve_decision. Defined.
Global Instance SampleType_eq_dec : EqDecision SampleType.
Proof. solve_decision. Defined.

Inductive ReadOutcome : Type :=
  | ReadBytes (bytes : list byte)
  | ReadThrows (e : exn).

(** A decoder is an external collaborator; it is modelled by what its
    calls deliver.  [dReadScript] lists the outcomes of the successive
    [read] calls (a [read] of [n] bytes receives at most the first [n]
    bytes of the entry; once the script is used up every [read] returns
    0 bytes), [dReads] counts the [read] calls made so far. *)
Record Decoder : Type := mkDecoder {
  dName : string;
  dInfo : Result (Z * ChannelConfig * SampleType);
  dReadScript : list ReadOutcome;
  dReads : nat;
  dSampleOffset : nat -> Z;
  dReadAll : list byte * option exn
}.

Definition Decoder_read (size : Z) (d : Decoder) : Result (list byte) * Decoder :=
  let served rest :=
    mkDecoder (dName d) (dInfo d) rest (S (dReads d)) (dSampleOffset d) (dReadAll d) in
  match dReadScript d with
  | [] => (Ok [], served [])
  | ReadBytes bytes :: rest => (Ok (firstn (Z.to_nat size) bytes), served rest)
  | ReadThrows e :: rest => (Throw e, served rest)
  end.

(** [getSampleOffset()], a [size_t]. *)
Definition Decoder_getSampleOffset (d : Decoder) : Z :=
  size_t_wrap (dSampleOffset d (dReads d)).

(* ===================================================================== *)
(** ** The OpenAL device, as far as this file drives it *)

Definition AL_NO_ERROR : Z := 0.
Definition AL_INVALID_NAME : Z := 0xA001.
Definition AL_INVALID_VALUE : Z := 0xA003.
Definition AL_INVALID_OPERATION : Z := 0xA004.
Definition AL_NONE : Z := 0.
Definition AL_FORMAT_MONO8 : Z := 0x1100.
Definition AL_FORMAT_MONO16 : Z := 0x1101.
Definition AL_FORMAT_STEREO8 : Z := 0x1102.
Definition AL_FORMAT_STEREO16 : Z := 0x1103.

Inductive SourceState : Type := AL_INITIAL | AL_PLAYING | AL_PAUSED | AL_STOPPED.

Global Instance SourceState_eq_dec : EqDecision SourceState.
Proof. solve_decision. Defined.

(** A voice: its play state, the buffer names queued on it (oldest
    first), how many of them it has played to the end, and its play
    cursor in sample frames. *)
Record Source : Type := mkSource {
  sState : SourceState;
  sQueue : list Z;
  sProcessed : Z;
  sSampleOffset : Z
}.

Definition newSource : Source := mkSource AL_INITIAL [] 0 0.

(** Gain, pitch, position and the other attributes of a voice do not
    act on what this file observes of it; setting one only needs the
    voice to exist. *)
Inductive SourceAttr : Type :=
  | AL_REFERENCE_DISTANCE | AL_MAX_DISTANCE | AL_ROLLOFF_FACTOR
  | AL_SOURCE_RELATIVE | AL_LOOPING | AL_GAIN | AL_PITCH
  | AL_POSITION | AL_DIRECTION | AL_VELOCITY | AL_SEC_OFFSET.

(** The AL context and the standard streams of the process. *)
Record Env : Type := mkEnv {
  alSources : gmap Z Source;
  alBuffers : gmap Z (list byte);
  alError : Z;
  alNextName : Z;
  alExtensions : list string;
  alEnumValues : list (string * Z);
  alStrings : list (Z * string);
  console : list string
}.

Definition with_sources (f : gmap Z Source -> gmap Z Source) (e : Env) : Env :=
  mkEnv (f (alSources e)) (alBuffers e) (alError e) (alNextName e)
        (alExtensions e) (alEnumValues e) (alStrings e) (console e).
Definition with_buffers (f : gmap Z (list byte) -> gmap Z (list byte)) (e : Env) : Env :=
  mkEnv (alSources e) (f (alBuffers e)) (alError e) (alNextName e)
        (alExtensions e) (alEnumValues e) (alStrings e) (console e).
Definition with_error (err : Z) (e : Env) : Env :=
  mkEnv (alSources e) (alBuffers e) err (alNextName e)
        (alExtensions e) (alEnumValues e) (alStrings e) (console e).
Definition with_next (n : Z) (e : Env) : Env :=
  mkEnv (alSources e) (alBuffers e) (alError e) n
        (alExtensions e) (alEnumValues e) (alStrings e) (console e).
(** [std::cout << line << std::endl] (and [std::cerr]). *)
Definition print (line : string) (e : Env) : Env :=
  mkEnv (alSources e) (alBuffers e) (alError e) (alNextName e)
        (alExtensions e) (alEnumValues e) (alStrings e) (console e ++ [line]).

(** AL keeps the first error until [alGetError] fetches it. *)
Definition al_record_error (err : Z) (e : Env) : Env :=
  if alError e =? AL_NO_ERROR then with_error err e else e.

Definition alGetError (e : Env) : Z * Env := (alError e, with_error AL_NO_ERROR e).

Definition al_source (src : Z) (e : Env) : Source :=
  default newSource (alSources e !! src).

Definition al_update_source (src : Z) (f : Source -> Source) (e : Env) : Env :=
  match alSources e !! src with
  | Some s => with_sources (insert src (f s)) e
  | None => al_record_error AL_INVALID_NAME e
  end.

(** [alSourcef], [alSource3f], [alSourcefv] and [alSourcei] on one of
    the attributes above. *)
Definition alSource_attr {V} (src : Z) (attr : SourceAttr) (value : V) (e : Env) : Env :=
  match alSources e !! src with
  | Some _ => e
  | None => al_record_error AL_INVALID_NAME e
  end.

Definition is_active (st : SourceState) : bool :=
  match st with AL_PLAYING | AL_PAUSED => true | _ => false end.

(** [alGetSourcei(src, AL_SOURCE_STATE, &state)] *)
Definition alGetSource_STATE (src : Z) (e : Env) : SourceState := sState (al_source src e).

(** [alGetSourcei(src, AL_BUFFERS_QUEUED, &queued)] *)
Definition alGetSource_BUFFERS_QUEUED (src : Z) (e : Env) : Z :=
  Z.of_nat (length (sQueue (al_source src e))).

(** [alGetSourcei(src, AL_BUFFERS_PROCESSED, &processed)]: nothing is
    processed before the first play, everything is once the voice has
    stopped. *)
Definition alGetSource_BUFFERS_PROCESSED (src : Z) (e : Env) : Z :=
  let s := al_source src e in
  match sState s with
  | AL_INITIAL => 0
  | AL_STOPPED => Z.of_nat (length (sQueue s))
  | _ => Z.min (Z.max 0 (sProcessed s)) (Z.of_nat (length (sQueue s)))
  end.

(** [alGetSourcei(src, AL_SAMPLE_OFFSET, &offset)] *)
Definition alGetSource_SAMPLE_OFFSET (src : Z) (e : Env) : Z :=
  sSampleOffset (al_source src e).

(** [alSourceUnqueueBuffers(src, 1, &buf)]: takes the oldest buffer off
    the queue when it has been processed. *)
Definition alSourceUnqueueBuffers1 (src : Z) (e : Env) : Env :=
  if 0 <? alGetSource_BUFFERS_PROCESSED src e
  then al_update_source src
         (fun s => mkSource (sState s) (tail (sQueue s)) (sProcessed s - 1) (sSampleOffset s)) e
  else al_record_error AL_INVALID_VALUE e.

(** [alSourceQueueBuffers(src, 1, &bufid)] *)
Definition alSourceQueueBuffers1 (src bufid : Z) (e : Env) : Env :=
  al_update_source src
    (fun s => mkSource (sState s) (sQueue s ++ [bufid]) (sProcessed s) (sSampleOffset s)) e.

(** [alBufferData(bufid, format, data, size, srate)] *)
Definition alBufferData (bufid : Z) (data : list byte) (e : Env) : Env :=
  match alBuffers e !! bufid with
  | Some _ => with_buffers (insert bufid data) e
  | None => al_record_error AL_INVALID_NAME e
  end.

(** [alSourcePlay(src)]: a paused voice resumes, any other starts at the
    head of its queue. *)
Definition alSourcePlay (src : Z) (e : Env) : Env :=
  al_update_source src
    (fun s => match sState s with
              | AL_PAUSED => mkSource AL_PLAYING (sQueue s) (sProcessed s) (sSampleOffset s)
              | _ => mkSource AL_PLAYING (sQueue s) 0 0
              end) e.

(** [alSourcePause(src)] acts on a playing voice only. *)
Definition alSourcePause (src : Z) (e : Env) : Env :=
  al_update_source src
    (fun s => match sState s with
              | AL_PLAYING => mkSource AL_PAUSED (sQueue s) (sProcessed s) (sSampleOffset s)
              | _ => s
              end) e.

(** [alSourceStop(src)] *)
Definition alSourceStop (src : Z) (e : Env) : Env :=
  al_update_source src
    (fun s => match sState s with
              | AL_INITIAL => s
              | _ => mkSource AL_STOPPED (sQueue s) (sProcessed s) (sSampleOffset s)
              end) e.

(** [alSourcei(src, AL_BUFFER, buf)]: replaces the queue of a voice that
    is not playing by the one buffer, or by nothing for [buf = 0]. *)
Definition alSource_BUFFER (src buf : Z) (e : Env) : Env :=
  if is_active (alGetSource_STATE src e) then al_record_error AL_INVALID_OPERATION e
  else if (buf =? 0) || bool_decide (is_Some (alBuffers e !! buf))
  then al_update_source src
         (fun s => mkSource (sState s) (if buf =? 0 then [] else [buf]) 0 0) e
  else al_record_error AL_INVALID_VALUE e.

(** [alGenBuffers(n, out)]: [n] fresh names. *)
Definition alGenBuffers (n : nat) (e : Env) : list Z * Env :=
  let names := map (fun i => alNextName e + Z.of_nat i) (seq 0 n) in
  (names,
   with_next (alNextName e + Z.of_nat n)
     (with_buffers (fun bs => fold_right (fun b m => <[b := []]> m) bs names) e)).

(** [alDeleteBuffers(n, names)] *)
Definition alDeleteBuffers (names : list Z) (e : Env) : Env :=
  with_buffers (fun bs => fold_right (fun b m => delete b m) bs names) e.

Definition alIsExtensionPresent (name : string) (e : Env) : bool :=
  bool_decide (name ∈ alExtensions e).

(** [alGetEnumValue(name)], 0 for a name the implementation ignores. *)
Definition alGetEnumValue (name : string) (e : Env) : Z :=
  match find (fun p => bool_decide (fst p = name)) (alEnumValues e) with
  | Some p => snd p
  | None => 0
  end.

(** [alGetString(err)], the empty string where the implementation gives
    no text. *)
Definition alGetString (err : Z) (e : Env) : string :=
  match find (fun p => fst p =? err) (alStrings e) with
  | Some p => snd p
  | None => EmptyString
  end.

(** What the hardware does on its own: a playing voice finishes the
    buffer it is on, and stops when that was the last one. *)
Definition hw_finish_buffer (src : Z) (e : Env) : Env :=
  match alSources e !! src with
  | Some s =>
      match sState s with
      | AL_PLAYING =>
          let p := Z.min (Z.max 0 (sProcessed s) + 1) (Z.of_nat (length (sQueue s))) in
          with_sources
            (insert src (mkSource (if p <? Z.of_nat (length (sQueue s)) then AL_PLAYING else AL_STOPPED)
                                  (sQueue s) p (sSampleOffset s))) e
      | _ => e
      end
  | None => e
  end.

(** States that hold the AL context. *)
Class HasEnv (S : Type) : Type := {
  env_of : S -> Env;
  env_set : Env -> S -> S
}.

Global Instance Env_HasEnv : HasEnv Env := {| env_of := id; env_set := fun e _ => e |}.
Global Instance pair_HasEnv {T S} `{HasEnv S} : HasEnv (T * S) :=
  {| env_of := fun s => env_of (snd s); env_set := fun e s => (fst s, env_set e (snd s)) |}.

(** An AL call that changes the context, and one that only queries it. *)
Definition al {S} `{HasEnv S} (f : Env -> Env) : M S unit :=
  modify (fun s => env_set (f (env_of s)) s).
Definition al_get {S A} `{HasEnv S} (f : Env -> A) : M S A :=
  gets (fun s => f (env_of s)).

Definition dquote : string :=
  String (Ascii.Ascii false true false false false true false false) EmptyString.

Definition fail {S A} (msg : string) : M S A :=
  throw (runtime_error ("OpenAL exception: " ++ msg)).

Definition throwALerror {S} `{HasEnv S} : M S unit :=
  fun s =>
    let '(err, e') := alGetError (env_of s) in
    if err =? AL_NO_ERROR then (Ok tt, env_set e' s)
    else fail (alGetString err e') (env_set e' s).

(** [decoder->getInfo(&srate, &chans, &type)] *)
Definition Decoder_getInfo {S} (d : Decoder) : M S (Z * ChannelConfig * SampleType) :=
  fun s => (dInfo d, s).

(* ===================================================================== *)
(** ** [OpenAL_SoundStream]: a streaming OpenAL sound *)

Record OpenAL_SoundStream : Type := mkStream {
  mSource : Z;
  mBuffers : list Z;
  mCurrentBufIdx : Z;
  mFormat : Z;
  mSampleRate : Z;
  mBufferSize : Z;
  mFrameSize : Z;
  mSilence : Z;
  mDecoder : Decoder;
  mIsFinished : bool
}.

Definition set_mIsFinished (b : bool) (s : OpenAL_SoundStream) : OpenAL_SoundStream :=
  mkStream (mSource s) (mBuffers s) (mCurrentBufIdx s) (mFormat s) (mSampleRate s)
           (mBufferSize s) (mFrameSize s) (mSilence s) (mDecoder s) b.
Definition set_mCurrentBufIdx (i : Z) (s : OpenAL_SoundStream) : OpenAL_SoundStream :=
  mkStream (mSource s) (mBuffers s) i (mFormat s) (mSampleRate s)
           (mBufferSize s) (mFrameSize s) (mSilence s) (mDecoder s) (mIsFinished s).
Definition set_mDecoder (d : Decoder) (s : OpenAL_SoundStream) : OpenAL_SoundStream :=
  mkStream (mSource s) (mBuffers s) (mCurrentBufIdx s) (mFormat s) (mSampleRate s)
           (mBufferSize s) (mFrameSize s) (mSilence s) d (mIsFinished s).

Definition sNumBuffers : Z := 6.
(** [sBufferLength = 0.125f], that is 2^23 * 2^-26. *)
Definition sBufferLength : spec_float := S754_finite false 8388608 (-26).

(** [getALFormat]: the AL format of a channel layout and sample type. *)
Definition fmtlist : list (Z * ChannelConfig * SampleType) :=
  [ (AL_FORMAT_MONO16,   ChannelConfig_Mono,   SampleType_Int16);
    (AL_FORMAT_MONO8,    ChannelConfig_Mono,   SampleType_UInt8);
    (AL_FORMAT_STEREO16, ChannelConfig_Stereo, SampleType_Int16);
    (AL_FORMAT_STEREO8,  ChannelConfig_Stereo, SampleType_UInt8) ].

Definition mcfmtlist : list (string * ChannelConfig * SampleType) :=
  [ ("AL_FORMAT_QUAD16"%string,  ChannelConfig_Quad,    SampleType_Int16);
    ("AL_FORMAT_QUAD8"%string,   ChannelConfig_Quad,    SampleType_UInt8);
    ("AL_FORMAT_51CHN16"%string, ChannelConfig_5point1, SampleType_Int16);
    ("AL_FORMAT_51CHN8"%string,  ChannelConfig_5point1, SampleType_UInt8);
    ("AL_FORMAT_71CHN16"%string, ChannelConfig_7point1, SampleType_Int16);
    ("AL_FORMAT_71CHN8"%string,  ChannelConfig_7point1, SampleType_UInt8) ].

Definition fltfmtlist : list (string * ChannelConfig * SampleType) :=
  [ ("AL_FORMAT_MONO_FLOAT32"%string,   ChannelConfig_Mono,   SampleType_Float32);
    ("AL_FORMAT_STEREO_FLOAT32"%string, ChannelConfig_Stereo, SampleType_Float32) ].

Definition fltmcfmtlist : list (string * ChannelConfig * SampleType) :=
  [ ("AL_FORMAT_QUAD32"%string,  ChannelConfig_Quad,    SampleType_Float32);
    ("AL_FORMAT_51CHN32"%string, ChannelConfig_5point1, SampleType_Float32);
    ("AL_FORMAT_71CHN32"%string, ChannelConfig_7point1, SampleType_Float32) ].

Definition same_format (chans chans' : ChannelConfig) (type type' : SampleType) : bool :=
  bool_decide (chans' = chans) && bool_decide (type' = type).

(** The first loop: the first matching entry is returned. *)
Fixpoint lookup_fmtlist (l : list (Z * ChannelConfig * SampleType))
    (chans : ChannelConfig) (type : SampleType) : option Z :=
  match l with
  | [] => None
  | (format, chans', type') :: rest =>
      if same_format chans chans' type type' then Some format
      else lookup_fmtlist rest chans type
  end.

(** The loops over named formats: a matching entry is returned when the
    implementation knows its name. *)
Fixpoint lookup_named (l : list (string * ChannelConfig * SampleType))
    (chans : ChannelConfig) (type : SampleType) (e : Env) : option Z :=
  match l with
  | [] => None
  | (name, chans', type') :: rest =>
      if same_format chans chans' type type' then
        let format := alGetEnumValue name e in
        if negb (format =? 0) && negb (format =? -1) then Some format
        else lookup_named rest chans type e
      else lookup_named rest chans type e
  end.

Definition or_else {A} (o : option A) (k : option A) : option A :=
  match o with Some a => Some a | None => k end.

Section SoundDecoderHpp.
(** Declared in [sound_decoder.hpp] and defined outside this file. *)
Variable framesToBytes : Z -> ChannelConfig -> SampleType -> Z.
Variable getChannelConfigName : ChannelConfig -> string.
Variable getSampleTypeName : SampleType -> string.

Definition getALFormat {S} `{HasEnv S} (chans : ChannelConfig) (type : SampleType) : M S Z :=
  e <- gets env_of ;;
  let found :=
    or_else (lookup_fmtlist fmtlist chans type)
   (or_else (if alIsExtensionPresent "AL_EXT_MCFORMATS" e
             then lookup_named mcfmtlist chans type e else None)
            (if alIsExtensionPresent "AL_EXT_FLOAT32" e
             then or_else (lookup_named fltfmtlist chans type e)
                          (if alIsExtensionPresent "AL_EXT_MCFORMATS" e
                           then lookup_named fltmcfmtlist chans type e else None)
             else None)) in
  match found with
  | Some format => ret format
  | None =>
      fail ("Unsupported sound format (" ++ getChannelConfigName chans ++ ", "
            ++ getSampleTypeName type ++ ")")%string
  end.

(** The [switch(type)] of the constructor.  None of its cases ends in
    [break], so control entering at the matching label runs every
    assignment below it as well. *)
Definition silence_cases : list (SampleType * Z) :=
  [ (SampleType_UInt8, 0x80); (SampleType_Int16, 0x00); (SampleType_Float32, 0x00) ].

Fixpoint switch_fallthrough (cases : list (SampleType * Z)) (entered : bool)
    (type : SampleType) (silence : Z) : Z :=
  match cases with
  | [] => silence
  | (label, value) :: rest =>
      if entered || bool_decide (label = type)
      then switch_fallthrough rest true type value
      else switch_fallthrough rest false type silence
  end.

(** [OpenAL_SoundStream::OpenAL_SoundStream(src, decoder)] *)
Definition OpenAL_SoundStream_new (src : Z) (decoder : Decoder) : M Env OpenAL_SoundStream :=
  buffers <- (fun e => let '(names, e') := alGenBuffers (Z.to_nat sNumBuffers) e in
                       (Ok names, e')) ;;
  throwALerror ;;;
  try_catch
    (info <- Decoder_getInfo decoder ;;
     let '(srate, chans, type) := info in
     format <- getALFormat chans type ;;
     let sampleRate := srate in
     let silence := switch_fallthrough silence_cases false type 0 in
     let frameSize := ALuint_wrap (framesToBytes 1 chans type) in
     let bufferSize := static_cast_ALuint (F32.mul sBufferLength (F32.of_int srate)) in
     let bufferSize := ALuint_wrap (bufferSize * frameSize) in
     ret (mkStream src buffers 0 format sampleRate bufferSize frameSize silence
                   decoder false))
    (fun ex =>
       al (alDeleteBuffers buffers) ;;;
       al (fun e => snd (alGetError e)) ;;;
       throw ex).
End SoundDecoderHpp.

Module SoundStream.
(** The methods run on the object and the AL context. *)
Definition St : Type := OpenAL_SoundStream * Env.

Definition this {A} (f : OpenAL_SoundStream -> A) : M St A := gets (fun s => f (fst s)).
Definition this_set (f : OpenAL_SoundStream -> OpenAL_SoundStream) : M St unit :=
  modify (fun s => (f (fst s), snd s)).

(** [mDecoder->read(&data[0], size)] *)
Definition read (size : Z) : M St (list byte) :=
  fun s =>
    let '(r, d) := Decoder_read size (mDecoder (fst s)) in
    (r, (set_mDecoder d (fst s), snd s)).

Definition isPlaying : M St bool :=
  src <- this mSource ;;
  state <- al_get (alGetSource_STATE src) ;;
  throwALerror ;;;
  if is_active state then ret true
  else finished <- this mIsFinished ;; ret (negb finished).

(** [mBufferSize/mFrameSize*queued - offset], computed on [ALuint] and
    stored in an [ALint]. *)
Definition inqueue (s : OpenAL_SoundStream) (queued offset : Z) : Z :=
  ALint_wrap (ALuint_wrap (ALuint_wrap (mBufferSize s / mFrameSize s * queued) - offset)).

Definition getStreamDelay : M St spec_float :=
  src <- this mSource ;;
  offset <- al_get (alGetSource_SAMPLE_OFFSET src) ;;
  state <- al_get (alGetSource_STATE src) ;;
  d <- (if is_active state then
          queued <- al_get (alGetSource_BUFFERS_QUEUED src) ;;
          s <- this id ;;
          ret (F64.div (F64.of_int (inqueue s queued offset))
                       (F64.of_int (mSampleRate s)))
        else ret F64.zero) ;;
  throwALerror ;;;
  ret d.

Definition getStreamOffset : M St spec_float :=
  src <- this mSource ;;
  offset <- al_get (alGetSource_SAMPLE_OFFSET src) ;;
  state <- al_get (alGetSource_STATE src) ;;
  s <- this id ;;
  t <- (if is_active state then
          queued <- al_get (alGetSource_BUFFERS_QUEUED src) ;;
          ret (F64.div (F64.of_int (size_t_wrap (Decoder_getSampleOffset (mDecoder s)
                                                 - inqueue s queued offset)))
                       (F64.of_int (mSampleRate s)))
        else
          ret (F64.div (F64.of_int (Decoder_getSampleOffset (mDecoder s)))
                       (F64.of_int (mSampleRate s)))) ;;
  throwALerror ;;;
  ret t.

(** [while(processed > 0) { alSourceUnqueueBuffers(mSource, 1, &buf); --processed; }] *)
Fixpoint unqueueLoop (processed : nat) : M St unit :=
  match processed with
  | O => ret tt
  | S processed' =>
      src <- this mSource ;;
      al (alSourceUnqueueBuffers1 src) ;;;
      unqueueLoop processed'
  end.

(** [memset(&data[got], silence, data.size()-got)] *)
Definition memset_tail (data : list byte) (got : nat) (silence : Z) : list byte :=
  firstn got data ++ repeat (byte_of_Z silence) (length data - got).

(** The [for] loop of [refillQueue]: [data] is the local vector, which
    [read] fills from its start.  Every round increments [queued], so
    [sNumBuffers] rounds of fuel are never used up (see
    [refillLoop_fuel]). *)
Fixpoint refillLoop (fuel : nat) (data : list byte) (queued : Z) : M St Z :=
  match fuel with
  | O => ret queued
  | S fuel' =>
      finished <- this mIsFinished ;;
      if negb finished && (ALuint_wrap queued <? sNumBuffers) then
        bytes <- read (Z.of_nat (length data)) ;;
        let got := length bytes in
        let data := bytes ++ skipn got data in
        data <- (if (got <? length data)%nat then
                   this_set (set_mIsFinished true) ;;;
                   silence <- this mSilence ;;
                   ret (memset_tail data got silence)
                 else ret data) ;;
        when (0 <? got)%nat
          (s <- this id ;;
           let bufid := nth (Z.to_nat (mCurrentBufIdx s)) (mBuffers s) 0 in
           al (alBufferData bufid data) ;;;
           al (alSourceQueueBuffers1 (mSource s) bufid) ;;;
           this_set (set_mCurrentBufIdx
                       (ALint_wrap (ALuint_wrap (mCurrentBufIdx s + 1) mod sNumBuffers)))) ;;;
        refillLoop fuel' data (queued + 1)
      else ret queued
  end.

Definition refillQueue : M St Z :=
  src <- this mSource ;;
  processed <- al_get (alGetSource_BUFFERS_PROCESSED src) ;;
  unqueueLoop (Z.to_nat processed) ;;;
  queued <- al_get (alGetSource_BUFFERS_QUEUED src) ;;
  finished <- this mIsFinished ;;
  if negb finished && (ALuint_wrap queued <? sNumBuffers) then
    size <- this mBufferSize ;;
    refillLoop (Z.to_nat sNumBuffers) (repeat x00 (Z.to_nat size)) queued
  else ret queued.

Definition process : M St bool :=
  try_catch
    (queued <- refillQueue ;;
     when (0 <? queued)
       (src <- this mSource ;;
        state <- al_get (alGetSource_STATE src) ;;
        when (negb (is_active state))
          (refillQueue ;;;
           al (alSourcePlay src))))
    (fun _ =>
       name <- this (fun s => dName (mDecoder s)) ;;
       al (print ("Error updating stream " ++ dquote ++ name ++ dquote)%string) ;;;
       this_set (set_mIsFinished true)) ;;;
  finished <- this mIsFinished ;;
  ret (negb finished).
End SoundStream.

(* ===================================================================== *)
(** ** The objects of the backend *)

Definition Vec3f : Type := spec_float * spec_float * spec_float.

(** [osg::Vec3f::operator-] and [length2]. *)
Definition Vec3f_sub (a b : Vec3f) : Vec3f :=
  let '(ax, ay, az) := a in
  let '(bx, by_, bz) := b in
  (F32.sub ax bx, F32.sub ay by_, F32.sub az bz).
Definition Vec3f_length2 (v : Vec3f) : spec_float :=
  let '(x, y, z) := v in
  F32.add (F32.add (F32.mul x x) (F32.mul y y)) (F32.mul z z).

(** [MWBase::Sound] (and its subclass for streams): the playback
    parameters and the handle the output keeps in it, null once
    stopped.  For a sound the handle is the voice name, for a stream the
    address of its [OpenAL_SoundStream]. *)
Record Sound : Type := mkSound {
  mPos : Vec3f;
  mVolume : spec_float;
  mBaseVolume : spec_float;
  mPitch : spec_float;
  mMinDistance : spec_float;
  mMaxDistance : spec_float;
  mFlags : Z;
  mHandle : Z
}.

Definition set_mHandle (h : Z) (s : Sound) : Sound :=
  mkSound (mPos s) (mVolume s) (mBaseVolume s) (mPitch s) (mMinDistance s)
          (mMaxDistance s) (mFlags s) h.

Inductive Environment : Type := Env_Normal | Env_Underwater.

(** One call of [Sound_Loudness::analyzeLoudness]. *)
Record LoudnessCall : Type := mkLoudnessCall {
  lcSink : Z;
  lcData : list byte;
  lcSampleRate : Z;
  lcChans : ChannelConfig;
  lcType : SampleType;
  lcValuesPerSec : spec_float
}.

(** [OpenAL_Output::StreamThread], without its synchronisation objects. *)
Record StreamThread : Type := mkStreamThread {
  mStreams : list Z;
  mDecoderLoudness : list (Decoder * Z);
  mQuitNow : bool
}.

(** The members of [OpenAL_Output] next to [mStreamThread]. *)
Record OpenAL_Output : Type := mkOutput {
  mFreeSources : list Z;
  mActiveSounds : list Z;
  mActiveStreams : list Z;
  mListenerPos : Vec3f;
  mListenerEnv : Environment
}.

(** The whole state: the AL context, the heap of stream and sound
    objects, the calls the loudness sinks have received, the stream
    thread and the output. *)
Record World : Type := mkWorld {
  wEnv : Env;
  wStreams : gmap Z OpenAL_SoundStream;
  wSounds : gmap Z Sound;
  wNextAddr : Z;
  wLoudness : list LoudnessCall;
  wThread : StreamThread;
  wOutput : OpenAL_Output
}.

Definition with_env (f : Env -> Env) (w : World) : World :=
  mkWorld (f (wEnv w)) (wStreams w) (wSounds w) (wNextAddr w) (wLoudness w)
          (wThread w) (wOutput w).
Definition with_streams (f : gmap Z OpenAL_SoundStream -> gmap Z OpenAL_SoundStream)
    (w : World) : World :=
  mkWorld (wEnv w) (f (wStreams w)) (wSounds w) (wNextAddr w) (wLoudness w)
          (wThread w) (wOutput w).
Definition with_sounds (f : gmap Z Sound -> gmap Z Sound) (w : World) : World :=
  mkWorld (wEnv w) (wStreams w) (f (wSounds w)) (wNextAddr w) (wLoudness w)
          (wThread w) (wOutput w).
Definition with_next_addr (a : Z) (w : World) : World :=
  mkWorld (wEnv w) (wStreams w) (wSounds w) a (wLoudness w) (wThread w) (wOutput w).
Definition with_loudness (f : list LoudnessCall -> list LoudnessCall) (w : World) : World :=
  mkWorld (wEnv w) (wStreams w) (wSounds w) (wNextAddr w) (f (wLoudness w))
          (wThread w) (wOutput w).
Definition with_thread (f : StreamThread -> StreamThread) (w : World) : World :=
  mkWorld (wEnv w) (wStreams w) (wSounds w) (wNextAddr w) (wLoudness w)
          (f (wThread w)) (wOutput w).
Definition with_output (f : OpenAL_Output -> OpenAL_Output) (w : World) : World :=
  mkWorld (wEnv w) (wStreams w) (wSounds w) (wNextAddr w) (wLoudness w)
          (wThread w) (f (wOutput w)).

Global Instance World_HasEnv : HasEnv World :=
  {| env_of := wEnv; env_set := fun e w => with_env (fun _ => e) w |}.

(** A method call through a pointer to a stream object.  The pointers
    the backend keeps designate live objects; a call through a dangling
    one, undefined in C++, does nothing here and yields [dflt]. *)
Definition on_stream {A} (p : Z) (dflt : A) (m : M SoundStream.St A) : M World A :=
  fun w =>
    match wStreams w !! p with
    | Some s =>
        let '(r, (s', e')) := m (s, wEnv w) in
        (r, with_streams (insert p s') (with_env (fun _ => e') w))
    | None => (Ok dflt, w)
    end.

(** [new T(...)]: the object is stored at a fresh address. *)
Definition new_addr : M World Z :=
  fun w => (Ok (wNextAddr w), with_next_addr (wNextAddr w + 1) w).

(** [std::find] followed by [erase] of the position found. *)
Fixpoint erase_first (x : Z) (l : list Z) : list Z :=
  match l with
  | [] => []
  | y :: rest => if bool_decide (y = x) then rest else y :: erase_first x rest
  end.

Module Thread.
Definition set_mStreams (f : list Z -> list Z) (t : StreamThread) : StreamThread :=
  mkStreamThread (f (mStreams t)) (mDecoderLoudness t) (mQuitNow t).
Definition set_mDecoderLoudness (f : list (Decoder * Z) -> list (Decoder * Z))
    (t : StreamThread) : StreamThread :=
  mkStreamThread (mStreams t) (f (mDecoderLoudness t)) (mQuitNow t).

(** [add(OpenAL_SoundStream *stream)] *)
Definition add (stream : Z) (t : StreamThread) : StreamThread :=
  if bool_decide (stream ∈ mStreams t) then t
  else set_mStreams (fun l => l ++ [stream]) t.

(** [remove(OpenAL_SoundStream *stream)] *)
Definition remove (stream : Z) (t : StreamThread) : StreamThread :=
  set_mStreams (erase_first stream) t.

Definition removeAll (t : StreamThread) : StreamThread :=
  mkStreamThread [] [] (mQuitNow t).

(** [add(DecoderPtr decoder, Sound_Loudness *loudness)] *)
Definition add_loudness (decoder : Decoder) (loudness : Z) (t : StreamThread) : StreamThread :=
  set_mDecoderLoudness (fun l => l ++ [(decoder, loudness)]) t.

Definition sLoudnessFPS : Z := 20.

(** The first loop of [operator()]: every registered stream is
    processed once, in order, and erased when [process] returns false.
    The result is what remains of [mStreams]. *)
Fixpoint processStreams (streams : list Z) : M World (list Z) :=
  match streams with
  | [] => ret []
  | p :: rest =>
      alive <- on_stream p true SoundStream.process ;;
      kept <- processStreams rest ;;
      ret (if alive then p :: kept else kept)
  end.

(** The locals of the loudness block. *)
Record JobLocals : Type := mkJobLocals {
  data : list byte;
  chans : ChannelConfig;
  type : SampleType;
  srate : Z
}.

(** [decoder->readAll(data)]: what was decoded is in [data] even when
    the call ends in an exception. *)
Definition Decoder_readAll (d : Decoder) : M (JobLocals * World) unit :=
  fun s =>
    let l := fst s in
    let s' := (mkJobLocals (data l ++ fst (dReadAll d)) (chans l) (type l) (srate l), snd s) in
    match snd (dReadAll d) with
    | None => (Ok tt, s')
    | Some e => (Throw e, s')
    end.

(** The [try] block with its [catch]. *)
Definition decodeJob (decoder : Decoder) : M (JobLocals * World) unit :=
  try_catch
    (info <- Decoder_getInfo decoder ;;
     let '(srate', chans', type') := info in
     modify (fun s => (mkJobLocals (data (fst s)) chans' type' srate', snd s)) ;;;
     Decoder_readAll decoder)
    (fun e => al (print ("Failed to decode audio: " ++ what e)%string)).

Inductive LoopStep : Type :=
  | Continue   (**r a loudness job was served: [continue] *)
  | Waited.    (**r no job: [mCondVar.timed_wait] *)

(** One round of the [while(!mQuitNow)] loop of [operator()]. *)
Definition iteration : M World LoopStep :=
  streams <- gets (fun w => mStreams (wThread w)) ;;
  kept <- processStreams streams ;;
  modify (with_thread (set_mStreams (fun _ => kept))) ;;;
  jobs <- gets (fun w => mDecoderLoudness (wThread w)) ;;
  match jobs with
  | (decoder, loudness) :: _ =>
      modify (with_thread (set_mDecoderLoudness (drop 1))) ;;;
      (fun w =>
         let init := mkJobLocals [] ChannelConfig_Mono SampleType_Int16 48000 in
         let '(r, (l, w')) := decodeJob decoder (init, w) in
         match r with
         | Ok _ =>
             (Ok tt, with_loudness
                       (fun calls => calls ++ [mkLoudnessCall loudness (data l) (srate l)
                                                 (chans l) (type l) (F32.of_int sLoudnessFPS)])
                       w')
         | Throw e => (Throw e, w')
         end) ;;;
      ret Continue
  | [] => ret Waited
  end.

(** [n] rounds of the loop, stopping early when an exception leaves a
    round or [mQuitNow] is set. *)
Fixpoint rounds (n : nat) : M World unit :=
  match n with
  | O => ret tt
  | S n' =>
      quit <- gets (fun w => mQuitNow (wThread w)) ;;
      if quit then ret tt
      else iteration ;;; rounds n'
  end.
End Thread.

(* ===================================================================== *)
(** ** [OpenAL_Output]: playing, stopping and querying *)

Module Output.
Definition set_mFreeSources (f : list Z -> list Z) (o : OpenAL_Output) : OpenAL_Output :=
  mkOutput (f (mFreeSources o)) (mActiveSounds o) (mActiveStreams o)
           (mListenerPos o) (mListenerEnv o).
Definition set_mActiveSounds (f : list Z -> list Z) (o : OpenAL_Output) : OpenAL_Output :=
  mkOutput (mFreeSources o) (f (mActiveSounds o)) (mActiveStreams o)
           (mListenerPos o) (mListenerEnv o).
Definition set_mActiveStreams (f : list Z -> list Z) (o : OpenAL_Output) : OpenAL_Output :=
  mkOutput (mFreeSources o) (mActiveSounds o) (f (mActiveStreams o))
           (mListenerPos o) (mListenerEnv o).

(** [GET_PTRID(ptr)] and [MAKE_PTRID(id)] *)
Definition GET_PTRID (ptr : Z) : Z := ALuint_wrap ptr.
Definition MAKE_PTRID (id : Z) : Z := id.

(** The constants [1.0f], [1000.0f], [0.9f] and [0.7f]. *)
Definition f1 : spec_float := S754_finite false 8388608 (-23).
Definition f1000 : spec_float := S754_finite false 16384000 (-14).
Definition f0_9 : spec_float := S754_finite false 15099494 (-24).
Definition f0_7 : spec_float := S754_finite false 11744051 (-24).
Definition origin : Vec3f := (F32.zero, F32.zero, F32.zero).

(** The handle stored in a sound object ([sound->mHandle]). *)
Definition handle_of (sound : Z) (w : World) : Z :=
  default 0 (mHandle <$> wSounds w !! sound).

(** [new Sound(...)] held by the local [shared_ptr]. *)
Definition new_sound (s : Sound) : M World Z :=
  p <- new_addr ;;
  modify (with_sounds (insert p s)) ;;;
  ret p.

(** Taking the voice at the front of the free list, as every play
    request starts. *)
Definition takeFreeSource : M World Z :=
  free <- gets (fun w => mFreeSources (wOutput w)) ;;
  match free with
  | [] => fail "No free sources"
  | source :: _ =>
      modify (with_output (set_mFreeSources (drop 1))) ;;;
      ret source
  end.

(** The [catch(std::exception&)] of the two [playSound] functions. *)
Definition giveBack (source : Z) (ex : exn) : M World Z :=
  modify (with_output (set_mFreeSources (fun l => l ++ [source]))) ;;;
  throw ex.

Section SoundManagerHpp.
Variable framesToBytes : Z -> ChannelConfig -> SampleType -> Z.
Variable getChannelConfigName : ChannelConfig -> string.
Variable getSampleTypeName : SampleType -> string.
(** [MWBase::SoundManager::Play_Loop] and [Play_NoEnv]. *)
Variable Play_Loop Play_NoEnv : Z.
(** [Sound_Decoder::getName()], pure virtual in [sound_decoder.hpp]: a
    call returns the name of what is decoded, or throws. *)
Variable Decoder_getName : Decoder -> Result string.

Definition has_flag (flags flag : Z) : bool := negb (Z.land flags flag =? 0).

(** The underwater correction of gain and pitch. *)
Definition underwater (flags : Z) (env : Environment) (gain pitch : spec_float)
    : spec_float * spec_float :=
  match env with
  | Env_Underwater =>
      if negb (has_flag flags Play_NoEnv)
      then (F32.mul gain f0_9, F32.mul pitch f0_7)
      else (gain, pitch)
  | Env_Normal => (gain, pitch)
  end.

Definition playSound (data : Z) (vol basevol pitch : spec_float) (flags : Z)
    (offset : spec_float) : M World Z :=
  source <- takeFreeSource ;;
  try_catch
    (al (alSource_attr source AL_REFERENCE_DISTANCE f1) ;;;
     al (alSource_attr source AL_MAX_DISTANCE f1000) ;;;
     al (alSource_attr source AL_ROLLOFF_FACTOR F32.zero) ;;;
     al (alSource_attr source AL_SOURCE_RELATIVE true) ;;;
     al (alSource_attr source AL_LOOPING (has_flag flags Play_Loop)) ;;;
     env <- gets (fun w => mListenerEnv (wOutput w)) ;;
     let '(gain, pitch) := underwater flags env (F32.mul vol basevol) pitch in
     al (alSource_attr source AL_GAIN gain) ;;;
     al (alSource_attr source AL_PITCH pitch) ;;;
     al (alSource_attr source AL_POSITION origin) ;;;
     al (alSource_attr source AL_DIRECTION origin) ;;;
     al (alSource_attr source AL_VELOCITY origin) ;;;
     al (alSource_attr source AL_SEC_OFFSET (F32.div offset pitch)) ;;;
     al (alSource_BUFFER source (GET_PTRID data)) ;;;
     al (alSourcePlay source) ;;;
     throwALerror ;;;
     sound <- new_sound (mkSound origin vol basevol pitch f1 f1000 flags
                                 (MAKE_PTRID source)) ;;
     modify (with_output (set_mActiveSounds (fun l => l ++ [sound]))) ;;;
     ret sound)
    (giveBack source).

Definition playSound3D (data : Z) (pos : Vec3f) (vol basevol pitch mindist maxdist : spec_float)
    (flags : Z) (offset : spec_float) : M World Z :=
  source <- takeFreeSource ;;
  try_catch
    (al (alSource_attr source AL_REFERENCE_DISTANCE mindist) ;;;
     al (alSource_attr source AL_MAX_DISTANCE maxdist) ;;;
     al (alSource_attr source AL_ROLLOFF_FACTOR f1) ;;;
     al (alSource_attr source AL_SOURCE_RELATIVE false) ;;;
     al (alSource_attr source AL_LOOPING (has_flag flags Play_Loop)) ;;;
     listener <- gets (fun w => mListenerPos (wOutput w)) ;;
     env <- gets (fun w => mListenerEnv (wOutput w)) ;;
     let gain := F32.mul vol basevol in
     let gain := if F32.ltb (F32.mul maxdist maxdist)
                            (Vec3f_length2 (Vec3f_sub pos listener))
                 then F32.zero else gain in
     let '(gain, pitch) := underwater flags env gain pitch in
     al (alSource_attr source AL_GAIN gain) ;;;
     al (alSource_attr source AL_PITCH pitch) ;;;
     al (alSource_attr source AL_POSITION pos) ;;;
     al (alSource_attr source AL_DIRECTION origin) ;;;
     al (alSource_attr source AL_VELOCITY origin) ;;;
     al (alSource_attr source AL_SEC_OFFSET (F32.div offset pitch)) ;;;
     al (alSource_BUFFER source (GET_PTRID data)) ;;;
     al (alSourcePlay source) ;;;
     throwALerror ;;;
     sound <- new_sound (mkSound pos vol basevol pitch mindist maxdist flags
                                 (MAKE_PTRID source)) ;;
     modify (with_output (set_mActiveSounds (fun l => l ++ [sound]))) ;;;
     ret sound)
    (giveBack source).

(** The locals [sound] and [stream] of the two [streamSound]
    functions, both null at first. *)
Record StreamLocals : Type := mkStreamLocals { sound : Z; stream : Z }.

Definition world {A} (m : M World A) : M (StreamLocals * World) A :=
  fun s => let '(r, w') := m (snd s) in (r, (fst s, w')).

(** [new OpenAL_SoundStream(source, decoder)] *)
Definition new_stream (source : Z) (decoder : Decoder) : M World Z :=
  s <- (fun w =>
          let '(r, e') := OpenAL_SoundStream_new framesToBytes getChannelConfigName
                            getSampleTypeName source decoder (wEnv w) in
          (r, with_env (fun _ => e') w)) ;;
  p <- new_addr ;;
  modify (with_streams (insert p s)) ;;;
  ret p.

(** [delete stream]: the destructor gives the buffers back; deleting
    a null pointer does nothing. *)
Definition delete_stream (stream : Z) : M World unit :=
  if stream =? 0 then ret tt
  else
    on_stream stream tt
      (buffers <- SoundStream.this mBuffers ;;
       al (alDeleteBuffers buffers) ;;;
       al (fun e => snd (alGetError e))) ;;;
    modify (with_streams (delete stream)).

(** The end of both [try] blocks, from [sound.reset(...)] on. *)
Definition registerStream (source : Z) (decoder : Decoder) (s : Sound)
    : M (StreamLocals * World) unit :=
  p <- world (new_sound s) ;;
  modify (fun st => (mkStreamLocals p (stream (fst st)), snd st)) ;;;
  q <- world (new_stream source decoder) ;;
  modify (fun st => (mkStreamLocals (sound (fst st)) q, snd st)) ;;;
  world (modify (with_thread (Thread.add q))) ;;;
  world (modify (with_sounds (alter (set_mHandle q) p))) ;;;
  world (modify (with_output (set_mActiveStreams (fun l => l ++ [p])))).

(** The [catch(std::exception&)] of both functions. *)
Definition unregisterStream (source : Z) (ex : exn) : M (StreamLocals * World) unit :=
  q <- gets (fun st => stream (fst st)) ;;
  world (modify (with_thread (Thread.remove q))) ;;;
  world (delete_stream q) ;;;
  world (modify (with_output (set_mFreeSources (fun l => l ++ [source])))) ;;;
  throw ex.

(** Running a body that owns the locals.  When an exception leaves
    it, the local [shared_ptr] gives up the only reference to the
    sound object, which is destroyed. *)
Definition with_stream_locals (body : M (StreamLocals * World) unit) : M World Z :=
  fun w =>
    let '(r, (l, w')) := body (mkStreamLocals 0 0, w) in
    match r with
    | Ok _ => (Ok (sound l), w')
    | Throw ex => (Throw ex, with_sounds (delete (sound l)) w')
    end.

(** The loop warning of both stream requests.  It stands after
    [pop_front] and before [try]: an exception of [getName()] leaves
    the request from here, past its [catch].  The console holds whole
    lines, so what was written before [getName()] threw is not in it. *)
Definition warnLoop (decoder : Decoder) (flags : Z) : M World unit :=
  when (has_flag flags Play_Loop)
    (name <- (fun w => (Decoder_getName decoder, w)) ;;
     al (print ("Warning: cannot loop stream " ++ dquote ++ name ++ dquote)%string)).

Definition streamSound (decoder : Decoder) (basevol pitch : spec_float) (flags : Z)
    : M World Z :=
  source <- takeFreeSource ;;
  warnLoop decoder flags ;;;
  with_stream_locals
    (try_catch
       (al (alSource_attr source AL_REFERENCE_DISTANCE f1) ;;;
        al (alSource_attr source AL_MAX_DISTANCE f1000) ;;;
        al (alSource_attr source AL_ROLLOFF_FACTOR F32.zero) ;;;
        al (alSource_attr source AL_SOURCE_RELATIVE true) ;;;
        al (alSource_attr source AL_LOOPING false) ;;;
        env <- gets (fun st => mListenerEnv (wOutput (snd st))) ;;
        let '(gain, pitch) := underwater flags env basevol pitch in
        al (alSource_attr source AL_GAIN gain) ;;;
        al (alSource_attr source AL_PITCH pitch) ;;;
        al (alSource_attr source AL_POSITION origin) ;;;
        al (alSource_attr source AL_DIRECTION origin) ;;;
        al (alSource_attr source AL_VELOCITY origin) ;;;
        throwALerror ;;;
        registerStream source decoder
          (mkSound origin f1 basevol pitch f1 f1000 flags 0))
       (unregisterStream source)).

Definition streamSound3D (decoder : Decoder) (pos : Vec3f)
    (volume basevol pitch mindist maxdist : spec_float) (flags : Z) : M World Z :=
  source <- takeFreeSource ;;
  warnLoop decoder flags ;;;
  with_stream_locals
    (try_catch
       (al (alSource_attr source AL_REFERENCE_DISTANCE mindist) ;;;
        al (alSource_attr source AL_MAX_DISTANCE maxdist) ;;;
        al (alSource_attr source AL_ROLLOFF_FACTOR f1) ;;;
        al (alSource_attr source AL_SOURCE_RELATIVE false) ;;;
        al (alSource_attr source AL_LOOPING false) ;;;
        listener <- gets (fun st => mListenerPos (wOutput (snd st))) ;;
        env <- gets (fun st => mListenerEnv (wOutput (snd st))) ;;
        let gain := F32.mul volume basevol in
        let gain := if F32.ltb (F32.mul maxdist maxdist)
                               (Vec3f_length2 (Vec3f_sub pos listener))
                    then F32.zero else gain in
        let '(gain, pitch) := underwater flags env gain pitch in
        al (alSource_attr source AL_GAIN gain) ;;;
        al (alSource_attr source AL_PITCH pitch) ;;;
        al (alSource_attr source AL_POSITION pos) ;;;
        al (alSource_attr source AL_DIRECTION origin) ;;;
        al (alSource_attr source AL_VELOCITY origin) ;;;
        throwALerror ;;;
        registerStream source decoder
          (mkSound pos volume basevol pitch mindist maxdist flags 0))
       (unregisterStream source)).
End SoundManagerHpp.

Definition stopSound (sound : Z) : M World unit :=
  handle <- gets (handle_of sound) ;;
  if handle =? 0 then ret tt
  else
    let source := GET_PTRID handle in
    modify (with_sounds (alter (set_mHandle 0) sound)) ;;;
    al (alSourceStop source) ;;;
    al (alSource_BUFFER source 0) ;;;
    modify (with_output (set_mFreeSources (fun l => l ++ [source]))) ;;;
    modify (with_output (set_mActiveSounds (erase_first sound))).

Definition isSoundPlaying (sound : Z) : M World bool :=
  handle <- gets (handle_of sound) ;;
  if handle =? 0 then ret false
  else
    let source := GET_PTRID handle in
    state <- al_get (alGetSource_STATE source) ;;
    throwALerror ;;;
    ret (is_active state).

Definition stopStream (sound : Z) : M World unit :=
  handle <- gets (handle_of sound) ;;
  if handle =? 0 then ret tt
  else
    let stream := handle in
    source <- on_stream stream 0 (SoundStream.this mSource) ;;
    modify (with_sounds (alter (set_mHandle 0) sound)) ;;;
    modify (with_thread (Thread.remove stream)) ;;;
    al (alSourceStop source) ;;;
    al (alSource_BUFFER source 0) ;;;
    modify (with_output (set_mFreeSources (fun l => l ++ [source]))) ;;;
    modify (with_output (set_mActiveStreams (erase_first sound))) ;;;
    on_stream stream tt
      (buffers <- SoundStream.this mBuffers ;;
       al (alDeleteBuffers buffers) ;;;
       al (fun e => snd (alGetError e))) ;;;
    modify (with_streams (delete stream)).

Definition getStreamDelay (sound : Z) : M World spec_float :=
  handle <- gets (handle_of sound) ;;
  if handle =? 0 then ret F64.zero
  else on_stream handle F64.zero SoundStream.getStreamDelay.

Definition getStreamOffset (sound : Z) : M World spec_float :=
  handle <- gets (handle_of sound) ;;
  if handle =? 0 then ret F64.zero
  else on_stream handle F64.zero SoundStream.getStreamOffset.

Definition isStreamPlaying (sound : Z) : M World bool :=
  handle <- gets (handle_of sound) ;;
  if handle =? 0 then ret false
  else on_stream handle false SoundStream.isPlaying.

Definition loadLoudnessAsync (decoder : Decoder) (loudness : Z) : M World unit :=
  modify (with_thread (Thread.add_loudness decoder loudness)).
End Output.

(* ===================================================================== *)
(** ** Histories *)

(** What happens to one feeder and its voice over time: the calls the
    stream thread makes on the feeder, the hardware finishing a buffer,
    and the voice being paused or resumed with the other voices of its
    type ([pauseSounds] and [resumeSounds]). *)
Inductive FeederEvent : Type :=
  | CallRefillQueue
  | CallProcess
  | HwFinishBuffer
  | VoicePaused
  | VoiceResumed.

Definition feeder_event (ev : FeederEvent) (st : SoundStream.St) : SoundStream.St :=
  match ev with
  | CallRefillQueue => snd (SoundStream.refillQueue st)
  | CallProcess => snd (SoundStream.process st)
  | HwFinishBuffer => (fst st, hw_finish_buffer (mSource (fst st)) (snd st))
  | VoicePaused => (fst st, alSourcePause (mSource (fst st)) (snd st))
  | VoiceResumed => (fst st, alSourcePlay (mSource (fst st)) (snd st))
  end.

Definition feeder_run (evs : list FeederEvent) (st : SoundStream.St) : SoundStream.St :=
  fold_left (fun st ev => feeder_event ev st) evs st.

(** The number of buffers queued on the feeder's voice. *)
Definition queued_buffers (st : SoundStream.St) : Z :=
  alGetSource_BUFFERS_QUEUED (mSource (fst st)) (snd st).

(** What happens to the stream thread: the calls of the output on it,
    which all take its mutex, and the rounds of its own loop. *)
Inductive ThreadEvent : Type :=
  | CallAdd (stream : Z)
  | CallRemove (stream : Z)
  | CallRemoveAll
  | CallAddLoudness (decoder : Decoder) (loudness : Z)
  | LoopRound.

Definition thread_event (ev : ThreadEvent) (w : World) : World :=
  match ev with
  | CallAdd stream => with_thread (Thread.add stream) w
  | CallRemove stream => with_thread (Thread.remove stream) w
  | CallRemoveAll => with_thread Thread.removeAll w
  | CallAddLoudness decoder loudness => with_thread (Thread.add_loudness decoder loudness) w
  | LoopRound => snd (Thread.iteration w)
  end.

Definition thread_run (evs : list ThreadEvent) (w : World) : World :=
  fold_left (fun w ev => thread_event ev w) evs w.

(** The stream thread as its constructor leaves it. *)
Definition StreamThread_new : StreamThread := mkStreamThread [] [] false.

(* ===================================================================== *)
(** ** Notions used in the statements *)

(** The decoder after serving one [read], and after [n] of them. *)
Definition served (d : Decoder) : Decoder :=
  mkDecoder (dName d) (dInfo d) (tail (dReadScript d)) (S (dReads d)) (dSampleOffset d)
            (dReadAll d).

Fixpoint served_n (n : nat) (d : Decoder) : Decoder :=
  match n with O => d | S n' => served_n n' (served d) end.

(** The name the ring cursor of a feeder points at. *)
Definition ring_buffer (s : OpenAL_SoundStream) : Z :=
  nth (Z.to_nat (mCurrentBufIdx s)) (mBuffers s) 0.

(** The body of [if(got > 0)] in the loop of [refillQueue]: uploading
    [data] into the buffer under the ring cursor, queueing it and moving
    the cursor. *)
Definition queue_buffer (data : list byte) (st : SoundStream.St) : SoundStream.St :=
  let s := fst st in
  let bufid := nth (Z.to_nat (mCurrentBufIdx s)) (mBuffers s) 0 in
  (set_mCurrentBufIdx (ALint_wrap (ALuint_wrap (mCurrentBufIdx s + 1) mod sNumBuffers)) s,
   alSourceQueueBuffers1 (mSource s) bufid (alBufferData bufid data (snd st))).

(** The length of the queue of a voice. *)
Definition qlen (src : Z) (e : Env) : nat := length (sQueue (al_source src e)).

(** The [catch] block of [process], its [alSourcePlay] and its [return]. *)
Definition stop_feeding (st : SoundStream.St) : SoundStream.St :=
  (set_mIsFinished true (fst st),
   print ("Error updating stream " ++ dquote ++ dName (mDecoder (fst st)) ++ dquote)%string
         (snd st)).

Definition start_voice (st : SoundStream.St) : SoundStream.St :=
  (fst st, alSourcePlay (mSource (fst st)) (snd st)).

Definition alive (st : SoundStream.St) : Result bool * SoundStream.St :=
  (Ok (negb (mIsFinished (fst st))), st).

(** The buffer of a short read: what was read, then silence up to the
    buffer size. *)
Definition padded (short : list byte) (size : nat) (silence : Z) : list byte :=
  short ++ repeat (byte_of_Z silence) (size - length short).

(** What the loop of [refillQueue] leaves when its reads return [k] full
    buffers and then the short one: the feeder is finished, its decoder
    has served [k + 1] reads, the voice holds [k] more buffers and the
    padded one when the short read was not empty. *)
Definition after_short_read (short : list byte) (size : nat) (k : nat)
    (s : OpenAL_SoundStream) (e : Env) (st' : SoundStream.St) : Prop :=
  mIsFinished (fst st') = true
  /\ mDecoder (fst st') = served_n (S k) (mDecoder s)
  /\ mSource (fst st') = mSource s
  /\ length (sQueue (al_source (mSource s) (snd st')))
     = (length (sQueue (al_source (mSource s) e)) + k
        + (if (0 <? length short)%nat then 1 else 0))%nat
  /\ (forall b, is_Some (alBuffers e !! b) -> is_Some (alBuffers (snd st') !! b))
  /\ ((0 < length short)%nat ->
      exists bufid,
        last (sQueue (al_source (mSource s) (snd st'))) = Some bufid
        /\ (is_Some (alBuffers e !! bufid) ->
            alBuffers (snd st') !! bufid = Some (padded short size (mSilence s)))).


(** "round(0.125 x sampleRate) x frameSize", with halves rounded up. *)
Definition spec_buffer_size (srate frameSize : Z) : Z := (srate + 4) / 8 * frameSize.

Definition buffer_size_is_rounded (s : OpenAL_SoundStream) : Prop :=
  mBufferSize s = spec_buffer_size (mSampleRate s) (mFrameSize s).

(** Two worlds that differ in the stream objects and the AL context
    only. *)
Definition same_frame (w w' : World) : Prop :=
  wThread w' = wThread w /\ wLoudness w' = wLoudness w /\ wOutput w' = wOutput w
  /\ wSounds w' = wSounds w /\ wNextAddr w' = wNextAddr w.

(** The books of the output and of the stream thread, alone and next to
    the locals of a stream request. *)
Definition books (w : World) : OpenAL_Output * StreamThread := (wOutput w, wThread w).

Definition books2 (s : Output.StreamLocals * World)
  : Output.StreamLocals * (OpenAL_Output * StreamThread) := (fst s, books (snd s)).

(** The locals of the loudness block when its [try] is over, and the
    call the analyser then receives: the defaults stay when [getInfo]
    throws, and [data] holds what [readAll] decoded. *)
Definition job_locals (decoder : Decoder) : Thread.JobLocals :=
  match dInfo decoder with
  | Ok (srate, chans, type) =>
      Thread.mkJobLocals (fst (dReadAll decoder)) chans type srate
  | Throw _ => Thread.mkJobLocals [] ChannelConfig_Mono SampleType_Int16 48000
  end.

Definition job_call (job : Decoder * Z) : LoudnessCall :=
  let l := job_locals (fst job) in
  mkLoudnessCall (snd job) (Thread.data l) (Thread.srate l) (Thread.chans l) (Thread.type l)
                 (F32.of_int Thread.sLoudnessFPS).

(** What [fail("No free sources")] throws. *)
Definition no_free_sources : exn := runtime_error "OpenAL exception: No free sources".

(** The loop warning of a stream request returns: the flag is not set,
    or [getName()] returns. *)
Definition warning_returns (getName : Decoder -> Result string) (Play_Loop : Z)
    (decoder : Decoder) (flags : Z) : Prop :=
  Output.has_flag flags Play_Loop = false \/ exists name, getName decoder = Ok name.

(** What is asked of a play request: without a free voice it throws
    [no_free_sources] and changes nothing; when it throws after taking
    the voice at the front of the free list, that voice is at the back
    of the list again, the active sounds and streams are as before and
    the stream thread has gained no feeder. *)
Definition play_request_contract (request : M World Z) : Prop :=
  forall w : World,
    (mFreeSources (wOutput w) = [] -> request w = (Throw no_free_sources, w))
    /\ forall source rest ex w',
         mFreeSources (wOutput w) = source :: rest ->
         request w = (Throw ex, w') ->
         mFreeSources (wOutput w') = rest ++ [source]
         /\ mActiveSounds (wOutput w') = mActiveSounds (wOutput w)
         /\ mActiveStreams (wOutput w') = mActiveStreams (wOutput w)
         /\ mStreams (wThread w') `sublist_of` mStreams (wThread w).

(* ===================================================================== *)
(** ** A concrete configuration *)

Module Demo.
(** Modelled from the spec: [framesToBytes] of [sound_decoder.cpp], the
    bytes per sample frame given channel layout and sample encoding,
    times the number of frames. *)
Definition framesToBytes (frames : Z) (chans : ChannelConfig) (type : SampleType) : Z :=
  frames
  * match chans with
    | ChannelConfig_Mono => 1 | ChannelConfig_Stereo => 2 | ChannelConfig_Quad => 4
    | ChannelConfig_5point1 => 6 | ChannelConfig_7point1 => 8
    end
  * match type with
    | SampleType_UInt8 => 1 | SampleType_Int16 => 2 | SampleType_Float32 => 4
    end.

Definition channelName (chans : ChannelConfig) : string :=
  match chans with
  | ChannelConfig_Mono => "Mono" | ChannelConfig_Stereo => "Stereo"
  | ChannelConfig_Quad => "Quad" | ChannelConfig_5point1 => "5.1 Surround"
  | ChannelConfig_7point1 => "7.1 Surround"
  end.

Definition sampleName (type : SampleType) : string :=
  match type with
  | SampleType_UInt8 => "U8" | SampleType_Int16 => "S16" | SampleType_Float32 => "Float32"
  end.

(** A mono decoder and a decoder whose file cannot be opened. *)
Definition decoder (srate : Z) (type : SampleType) (script : list ReadOutcome) : Decoder :=
  mkDecoder "demo" (Ok (srate, ChannelConfig_Mono, type)) script 0 (fun _ => 0) ([], None).

Definition job (info : Result (Z * ChannelConfig * SampleType)) (all : list byte * option exn)
    : Decoder :=
  mkDecoder "job" info [] 0 (fun _ => 0) all.

Definition broken : Decoder := job (Throw (std_exception "no such file")) ([], None).

(** A [getName()] that returns the name, and one that throws. *)
Definition getName (d : Decoder) : Result string := Ok (dName d).
Definition nameless (d : Decoder) : Result string := Throw (runtime_error "getName").

(** A context with the voice 1 and the buffers 100 to 105. *)
Definition env : Env :=
  mkEnv {[ 1 := newSource ]}
        (list_to_map [(100, []); (101, []); (102, []); (103, []); (104, []); (105, [])])
        AL_NO_ERROR 106 [] [] [] [].

(** A feeder of 8-bit mono audio at 32 Hz: buffers of four bytes. *)
Definition feeder (script : list ReadOutcome) : OpenAL_SoundStream :=
  mkStream 1 [100; 101; 102; 103; 104; 105] 0 AL_FORMAT_MONO8 32 4 1 0
           (decoder 32 SampleType_UInt8 script) false.

(** The feeder the constructor builds on voice 1. *)
Definition built (srate : Z) (type : SampleType) : Result OpenAL_SoundStream * Env :=
  OpenAL_SoundStream_new framesToBytes channelName sampleName 1 (decoder srate type []) env.

Definition built_stream (srate : Z) (type : SampleType) : OpenAL_SoundStream :=
  match fst (built srate type) with
  | Ok s => s
  | Throw _ => feeder []
  end.

(** A world with one free voice, a stopped sound at address 7 and the
    given loudness jobs. *)
Definition world (jobs : list (Decoder * Z)) : World :=
  mkWorld env ∅ {[ 7 := mkSound Output.origin Output.f1 Output.f1 Output.f1 Output.f1
                           Output.f1000 0 0 ]}
          1000 [] (mkStreamThread [] jobs false)
          (mkOutput [1] [] [] Output.origin Env_Normal).
End Demo.

(* ===================================================================== *)
(** ** Further parts of the backend: pausing, unloading, loading, [init] *)

(** [alSourcePausev(n, sources)] and [alSourcePlayv(n, sources)]: a name
    that is no source makes the call fail as a whole. *)
Definition al_each (f : Z -> Env -> Env) (sources : list Z) (e : Env) : Env :=
  if forallb (fun src => bool_decide (is_Some (alSources e !! src))) sources
  then fold_left (fun e src => f src e) sources e
  else al_record_error AL_INVALID_NAME e.
Definition alSourcePausev : list Z -> Env -> Env := al_each alSourcePause.
Definition alSourcePlayv : list Z -> Env -> Env := al_each alSourcePlay.


Module Voices.
Section SoundHpp.
(** [Sound::getPlayType()], defined in [sound.hpp]. *)
Variable getPlayType : Sound -> Z.

(** The condition of both loops: the pointer is not null, the sound has
    a handle and its play type is one of [types]. *)
Definition selected (types : Z) (w : World) (p : Z) : option Sound :=
  match wSounds w !! p with
  | Some s =>
      if negb (mHandle s =? 0) && negb (Z.land (getPlayType s) types =? 0)
      then Some s else None
  | None => None
  end.

(** The two loops that fill [sources]. *)
Definition sound_sources (types : Z) (w : World) : list Z :=
  omap (fun p => s ← selected types w p; Some (Output.GET_PTRID (mHandle s)))
       (mActiveSounds (wOutput w)).
Definition stream_sources (types : Z) (w : World) : list Z :=
  omap (fun p => s ← selected types w p;
                 Some (default 0 (mSource <$> wStreams w !! mHandle s)))
       (mActiveStreams (wOutput w)).
Definition collect (types : Z) (w : World) : list Z :=
  sound_sources types w ++ stream_sources types w.

Definition is_nil {A} (l : list A) : bool := match l with [] => true | _ => false end.

Definition pauseSounds (types : Z) : M World unit :=
  sources <- gets (collect types) ;;
  when (negb (is_nil sources))
    (al (alSourcePausev sources) ;;;
     throwALerror).

Definition resumeSounds (types : Z) : M World unit :=
  sources <- gets (collect types) ;;
  when (negb (is_nil sources))
    (al (alSourcePlayv sources) ;;;
     throwALerror).
End SoundHpp.


End Voices.

(** The character ['.']. *)
Definition dot : Ascii.ascii := Ascii.Ascii false true true true false true false false.

(** [file.rfind(c)]: the position of the last [c], if there is one. *)
Fixpoint rfind (c : Ascii.ascii) (s : string) : option nat :=
  match s with
  | EmptyString => None
  | String a rest =>
      match rfind c rest with
      | Some pos => Some (S pos)
      | None => if Ascii.eqb a c then Some 0%nat else None
      end
  end.

(** The name [loadSound] opens for a file that does not exist:
    [file.substr(0, pos)+".mp3"] for the last dot at [pos]. *)
Definition mp3_name (fname : string) : string :=
  match rfind dot fname with
  | Some pos => (substring 0 pos fname ++ ".mp3")%string
  | None => fname
  end.

Module Loading.
Section Resources.
Variable getChannelConfigName : ChannelConfig -> string.
Variable getSampleTypeName : SampleType -> string.
(** [decoder->mResourceMgr->exists(name)], which answers or throws, and
    the decoder that [mManager.getDecoder()] gives once [open(name)]
    has returned, or what was thrown on the way. *)
Variable resource_exists : string -> Result bool.
Variable open : string -> Result Decoder.

Definition Decoder_open (file : string) : M World Decoder := fun w => (open file, w).

(** [decoder->readAll(data)] on the empty [data]. *)
Definition Decoder_readAll (d : Decoder) : M World (list byte) :=
  fun w => match snd (dReadAll d) with
           | None => (Ok (fst (dReadAll d)), w)
           | Some ex => (Throw ex, w)
           end.

Definition alGenBuffers1 : M World Z :=
  fun w => let '(names, e') := alGenBuffers 1 (wEnv w) in
           (Ok (hd 0 names), with_env (fun _ => e') w).

(** [alIsBuffer(buf)] *)
Definition alIsBuffer (buf : Z) (e : Env) : bool := bool_decide (is_Some (alBuffers e !! buf)).

(** The [try] block with its [catch(...)]; [buf] is declared before it
    and is 0 until [alGenBuffers] has set it. *)
Definition upload (data : list byte) : M World Z :=
  fun w =>
    match alGenBuffers1 w with
    | (Throw ex, w1) => (Throw ex, w1)
    | (Ok buf, w1) =>
        match (al (alBufferData buf data) ;;; throwALerror) w1 with
        | (Ok _, w2) => (Ok buf, w2)
        | (Throw ex, w2) =>
            ((when (negb (buf =? 0) && alIsBuffer buf (wEnv w2))
                (al (alDeleteBuffers [buf])) ;;;
              throw ex) w2)
        end
    end.

(** [loadSound]; [decoder->close()] acts on nothing that is observed
    here. *)
Definition loadSound (fname : string) : M World Z :=
  throwALerror ;;;
  found <- (fun w => (resource_exists fname, w)) ;;
  decoder <- Decoder_open (if found : bool then fname else mp3_name fname) ;;
  info <- Decoder_getInfo decoder ;;
  let '(srate, chans, type) := info in
  format <- getALFormat getChannelConfigName getSampleTypeName chans type ;;
  data <- Decoder_readAll decoder ;;
  buf <- upload data ;;
  ret (Output.MAKE_PTRID buf).
End Resources.
End Loading.

Definition AL_OUT_OF_MEMORY : Z := 0xA005.

Module Init.
(** [std::min<ALCuint>(maxmono+maxstereo, 256)], with the workaround for
    implementations that report no sources. *)
Definition maxtotal (maxmono maxstereo : Z) : Z :=
  let total := Z.min (ALuint_wrap (maxmono + maxstereo)) 256 in
  if total =? 0 then 256 else total.

Section Device.
(** The number of voices the device can give. *)
Variable capacity : nat.

(** [alGenSources(1, &src)]; [src] stays 0 when the call fails. *)
Definition alGenSources1 : M World Z :=
  fun w =>
    let e := wEnv w in
    if (size (alSources e) <? capacity)%nat
    then (Ok (alNextName e),
          with_env (fun _ => with_next (alNextName e + 1)
                               (with_sources (insert (alNextName e) newSource) e)) w)
    else (Ok 0, with_env (al_record_error AL_OUT_OF_MEMORY) w).

(** The loop of the [try] block. *)
Fixpoint genLoop (n : nat) : M World unit :=
  match n with
  | O => ret tt
  | S n' =>
      src <- alGenSources1 ;;
      throwALerror ;;;
      modify (with_output (Output.set_mFreeSources (fun l => l ++ [src]))) ;;;
      genLoop n'
  end.

Definition is_nil {A} (l : list A) : bool := match l with [] => true | _ => false end.

(** [init] from the [try] block on. *)
Definition allocate (maxmono maxstereo : Z) : M World unit :=
  try_catch (genLoop (Z.to_nat (maxtotal maxmono maxstereo)))
    (fun ex => al (print ("Error: " ++ what ex ++ ", trying to continue")%string)) ;;;
  free <- gets (fun w => mFreeSources (wOutput w)) ;;
  when (is_nil free) (fail "Could not allocate any sources").
End Device.
End Init.

(* ===================================================================== *)
(** ** Notions used in the further statements *)

(** Everything in the world but the AL context. *)
Definition ledger (w : World) :=
  (wOutput w, wThread w, wSounds w, wStreams w, wNextAddr w, wLoudness w).

(** The number of voices the output knows of: free ones, and the ones
    lent to active sounds and streams. *)
Definition voices (w : World) : nat :=
  (length (mFreeSources (wOutput w)) + length (mActiveSounds (wOutput w))
   + length (mActiveStreams (wOutput w)))%nat.

(** What a successful [playSound] or [playSound3D] leaves. *)
Definition sound_started (w : World) (source : Z) (sound : Z) (w' : World) : Prop :=
  sound = wNextAddr w
  /\ mFreeSources (wOutput w') = drop 1 (mFreeSources (wOutput w))
  /\ mActiveSounds (wOutput w') = mActiveSounds (wOutput w) ++ [sound]
  /\ mActiveStreams (wOutput w') = mActiveStreams (wOutput w)
  /\ Output.handle_of sound w' = source
  /\ (forall other, other <> sound -> wSounds w' !! other = wSounds w !! other)
  /\ wThread w' = wThread w /\ wStreams w' = wStreams w.

Definition ledger2 (s : Output.StreamLocals * World) := (fst s, ledger (snd s)).

(** What a successful [streamSound] or [streamSound3D] leaves. *)
Definition stream_started (w : World) (source : Z) (sound : Z) (w' : World) : Prop :=
  let stream := wNextAddr w + 1 in
  sound = wNextAddr w
  /\ mFreeSources (wOutput w') = drop 1 (mFreeSources (wOutput w))
  /\ mActiveStreams (wOutput w') = mActiveStreams (wOutput w) ++ [sound]
  /\ mActiveSounds (wOutput w') = mActiveSounds (wOutput w)
  /\ Output.handle_of sound w' = stream
  /\ wThread w' = Thread.add stream (wThread w)
  /\ (exists feeder, wStreams w' !! stream = Some feeder
                     /\ mSource feeder = source /\ mIsFinished feeder = false)
  /\ (forall other, other <> stream -> wStreams w' !! other = wStreams w !! other).

(** A voice as [alSourceStop] and [alSourcei(AL_BUFFER, 0)] leave it:
    not playing and with nothing queued. *)
Definition voice_idle (src : Z) (e : Env) : Prop :=
  is_active (alGetSource_STATE src e) = false /\ alGetSource_BUFFERS_QUEUED src e = 0.


Definition ring_ok (s0 s : OpenAL_SoundStream) : Prop :=
  mBuffers s = mBuffers s0 /\ 0 <= mCurrentBufIdx s < 6.

Definition unsupported_format (chanName typeName : string) : exn :=
  runtime_error ("OpenAL exception: " ++
                 ("Unsupported sound format (" ++ chanName ++ ", " ++ typeName ++ ")"))%string.

(** What [alSourcePause] and [alSourcePlay] make of a voice. *)
Definition paused (s : Source) : Source :=
  match sState s with
  | AL_PLAYING => mkSource AL_PAUSED (sQueue s) (sProcessed s) (sSampleOffset s)
  | _ => s
  end.
Definition played (s : Source) : Source :=
  match sState s with
  | AL_PAUSED => mkSource AL_PLAYING (sQueue s) (sProcessed s) (sSampleOffset s)
  | _ => mkSource AL_PLAYING (sQueue s) 0 0
  end.

(** A voice named twice in [sources] is acted on twice: either that
    makes no difference, or no voice is named twice. *)
Definition once (g : Source -> Source) (sources : list Z) : Prop :=
  (forall s, g (g s) = g s) \/ NoDup sources.

(** The voices of [sources] changed by [f], every other voice and
    everything outside the AL context as it was. *)
Definition voices_changed (f : Source -> Source) (sources : list Z) (w w' : World) : Prop :=
  ledger w' = ledger w
  /\ alBuffers (wEnv w') = alBuffers (wEnv w)
  /\ console (wEnv w') = console (wEnv w)
  /\ forall src,
       alSources (wEnv w') !! src
       = if bool_decide (src ∈ sources) then f <$> alSources (wEnv w) !! src
         else alSources (wEnv w) !! src.


(** A name without the character [c]. *)
Definition free_of (c : Ascii.ascii) (s : string) : Prop := rfind c s = None.

(** The names a context hands out are new. *)
Definition names_are_new (e : Env) : Prop :=
  forall k, alNextName e <= k -> alSources e !! k = None.

(** [n] names from [first] on. *)
Definition names_from (first : Z) (n : nat) : list Z :=
  map (fun i => first + Z.of_nat i) (seq 0 n).

(** The voice exists, is in [state] and has [n] buffers queued. *)
Definition voice_is (state : SourceState) (n : nat) (src : Z) (e : Env) : Prop :=
  is_Some (alSources e !! src)
  /\ sState (al_source src e) = state
  /\ length (sQueue (al_source src e)) = n.

(* ===================================================================== *)
(** ** More of the concrete configuration *)

Module Scene.
(** The play type of a sound, for the examples: its flags word. *)
Definition playType (s : Sound) : Z := mFlags s.

(** The demo world once [playSound] has started buffer 100 for a sound
    of type 16. *)
Definition playing : World :=
  snd (Output.playSound 1 2 100 Output.f1 Output.f1 Output.f1 16 F32.zero (Demo.world [])).

(** The demo world once [streamSound] has set up a stream on the given
    decoder script. *)
Definition streaming (script : list ReadOutcome) : World :=
  snd (Output.streamSound Demo.framesToBytes Demo.channelName Demo.sampleName 1 2
         Demo.getName (Demo.decoder 32 SampleType_UInt8 script) Output.f1 Output.f1 16
         (Demo.world [])).

(** The demo context after voice 1 has played to the end of an empty
    queue. *)
Definition dry : Env := alSourceStop 1 (alSourcePlay 1 Demo.env).

(** Twelve reads of four bytes each. *)
Definition chunk : list byte := [x01; x02; x03; x04].
Definition batch : list (list byte) := repeat chunk 6.

(** A resource manager without the file asked for, and a decoder that
    opens [door.mp3] only. *)
Definition no_file (name : string) : Result bool := Ok false.
Definition open_mp3 (name : string) : Result Decoder :=
  if String.eqb name "door.mp3"
  then Ok (Demo.job (Ok (32, ChannelConfig_Mono, SampleType_UInt8)) (chunk, None))
  else Throw (std_exception "no such file").

(** The demo world before [init] has allocated a voice. *)
Definition bare : World := with_output (Output.set_mFreeSources (fun _ => [])) (Demo.world []).
End Scene.

(* ===================================================================== *)
(** * Properties *)

Lemma digits2_pos_bounds (p : positive) :
  2 ^ (Zpos (digits2_pos p) - 1) <= Zpos p < 2 ^ Zpos (digits2_pos p).
Proof.
  induction p as [p IH | p IH |]; cbn [digits2_pos].
  - rewrite Pos2Z.inj_succ, (Pos2Z.inj_xI p).
    replace (Z.succ (Zpos (digits2_pos p)) - 1) with (Zpos (digits2_pos p)) by lia.
    rewrite Z.pow_succ_r by lia.
    assert (2 ^ Zpos (digits2_pos p) = 2 * 2 ^ (Zpos (digits2_pos p) - 1))
      by (rewrite <- Z.pow_succ_r by lia; f_equal; lia).
    revert IH H. generalize (2 ^ (Zpos (digits2_pos p) - 1)) (2 ^ Zpos (digits2_pos p)).
    lia.
  - rewrite Pos2Z.inj_succ, (Pos2Z.inj_xO p).
    replace (Z.succ (Zpos (digits2_pos p)) - 1) with (Zpos (digits2_pos p)) by lia.
    rewrite Z.pow_succ_r by lia.
    assert (2 ^ Zpos (digits2_pos p) = 2 * 2 ^ (Zpos (digits2_pos p) - 1))
      by (rewrite <- Z.pow_succ_r by lia; f_equal; lia).
    revert IH H. generalize (2 ^ (Zpos (digits2_pos p) - 1)) (2 ^ Zpos (digits2_pos p)).
    lia.
  - simpl. lia.
Qed.

Lemma digits2_pos_le (p : positive) (n : Z) :
  0 <= n -> Zpos p < 2 ^ n -> Zpos (digits2_pos p) <= n.
Proof.
  intros Hn Hp. destruct (digits2_pos_bounds p) as [Hlo _].
  destruct (Z_le_gt_dec (Zpos (digits2_pos p)) n) as [|Hgt]; [done|].
  assert (2 ^ n <= 2 ^ (Zpos (digits2_pos p) - 1)) by (apply Z.pow_le_mono_r; lia).
  lia.
Qed.

Lemma iter_xO_spec (k p : positive) :
  Zpos (Pos.iter xO p k) = Zpos p * 2 ^ Zpos k
  /\ digits2_pos (Pos.iter xO p k) = (digits2_pos p + k)%positive.
Proof.
  induction k as [|k IH] using Pos.peano_ind.
  - cbn. split; [lia|]. lia.
  - rewrite Pos.iter_succ. destruct IH as [IH1 IH2]. split.
    + rewrite Pos2Z.inj_xO, IH1, Pos2Z.inj_succ, Z.pow_succ_r by lia. lia.
    + cbn [digits2_pos]. rewrite IH2. lia.
Qed.

(** A mantissa of 24 digits at an exponent that needs no rounding. *)
Lemma binary_round_aux_exact (m : positive) (e : Z) :
  Zpos (digits2_pos m) = 24 -> -149 <= e <= 104 ->
  binary_round_aux 24 128 false (Zpos m) e loc_Exact = S754_finite false m e.
Proof.
  intros Hd He.
  unfold binary_round_aux, shr_fexp, fexp, emin. cbn [Zdigits2 shr_record_of_loc].
  rewrite Hd.
  replace (Z.max (24 + e - 24) (3 - 128 - 24) - e) with 0 by lia.
  cbn [shr round_nearest_even loc_of_shr_record shr_m shr_r shr_s Zdigits2].
  rewrite Hd.
  replace (Z.max (24 + e - 24) (3 - 128 - 24) - e) with 0 by lia.
  cbn [shr shr_m].
  destruct (Z.leb_spec e (128 - 24)); [done | lia].
Qed.

Lemma F32_of_int_small (p : positive) :
  Zpos p < 2 ^ 24 ->
  exists m e, F32.of_int (Zpos p) = S754_finite false m e
              /\ Zpos (digits2_pos m) = 24 /\ -23 <= e <= 0
              /\ Zpos m = Zpos p * 2 ^ (- e).
Proof.
  intros Hp. pose proof (digits2_pos_le p 24 ltac:(lia) Hp) as Hd.
  unfold F32.of_int, binary_normalize, binary_round, F32.prec, F32.emax.
  unfold fexp at 1, emin, shl_align.
  replace (Z.max (Zpos (digits2_pos p) + 0 - 24) (3 - 128 - 24) - 0)
    with (Zpos (digits2_pos p) - 24) by lia.
  destruct (Zpos (digits2_pos p) - 24) as [|k|k] eqn:Hk; [| lia |].
  - exists p, 0. rewrite binary_round_aux_exact by lia.
    repeat split; try lia.
  - destruct (iter_xO_spec k p) as [Hv Hdig].
    assert (Hdig' : Zpos (digits2_pos (Pos.iter xO p k)) = 24) by (rewrite Hdig; lia).
    exists (Pos.iter xO p k), (Z.max (Zpos (digits2_pos p) + 0 - 24) (3 - 128 - 24)).
    rewrite binary_round_aux_exact by lia.
    split; [reflexivity|]. split; [exact Hdig'|]. split; [lia|].
    rewrite Hv. f_equal. f_equal. lia.
Qed.

Lemma shr_23 (m : positive) :
  SpecFloat.iter_pos shr_1 23 (Build_shr_record (Zpos (8388608 * m)) false false)
  = Build_shr_record (Zpos m) false false.
Proof. reflexivity. Qed.

Lemma F32_mul_eighth (m : positive) (e : Z) :
  Zpos (digits2_pos m) = 24 -> -23 <= e <= 0 ->
  F32.mul sBufferLength (S754_finite false m e) = S754_finite false m (e - 3).
Proof.
  intros Hd He.
  unfold F32.mul, sBufferLength, SFmul, F32.prec, F32.emax. cbn [xorb].
  assert (Hd2 : Zpos (digits2_pos (8388608 * m)) = 47).
  { change (8388608 * m)%positive with (Pos.iter xO m 23).
    destruct (iter_xO_spec 23 m) as [_ ->]. lia. }
  unfold binary_round_aux at 1, shr_fexp, fexp, emin. cbn [Zdigits2 shr_record_of_loc].
  rewrite Hd2.
  replace (Z.max (47 + (-26 + e) - 24) (3 - 128 - 24) - (-26 + e)) with 23 by lia.
  cbn [shr]. rewrite shr_23.
  cbn [round_nearest_even loc_of_shr_record shr_m shr_r shr_s Zdigits2 shr_record_of_loc].
  rewrite Hd.
  replace (Z.max (24 + (-26 + e + 23) - 24) (3 - 128 - 24) - (-26 + e + 23)) with 0 by lia.
  cbn [shr shr_m].
  destruct (Z.leb_spec (-26 + e + 23) (128 - 24)); [|lia].
  f_equal. lia.
Qed.

Lemma static_cast_eighth (srate : Z) :
  0 <= srate < 2 ^ 24 ->
  static_cast_ALuint (F32.mul sBufferLength (F32.of_int srate)) = srate / 8.
Proof.
  intros [H0 H1]. destruct srate as [|p|p]; [reflexivity | | lia].
  destruct (F32_of_int_small p H1) as (m & e & -> & Hd & He & Hm).
  rewrite F32_mul_eighth by done.
  unfold static_cast_ALuint, float_trunc.
  assert (Hq : Zpos m / 2 ^ (- (e - 3)) = Zpos p / 8).
  { rewrite Hm. replace (- (e - 3)) with (- e + 3) by lia.
    rewrite Z.pow_add_r by lia. change (2 ^ 3) with 8.
    rewrite Z.mul_comm, Z.div_mul_cancel_l by lia. reflexivity. }
  destruct (e - 3) as [|k|k] eqn:Hk; [lia | lia |].
  rewrite Hq. unfold ALuint_wrap. apply Z.mod_small.
  split; [apply Z.div_pos; lia|].
  apply Z.div_lt_upper_bound; lia.
Qed.

(** Unfolding the monad. *)
Ltac unfold_monad :=
  unfold bind, ret, gets, modify, throw, try_catch, when, al, al_get, fail,
    SoundStream.this, SoundStream.this_set in *.

Lemma process_returns st :
  exists st', SoundStream.process st = (Ok (negb (mIsFinished (fst st'))), st').
Proof.
  unfold SoundStream.process.
  set (tc := try_catch _ _).
  assert (Htc : exists s1, tc st = (Ok tt, s1)).
  { subst tc. unfold try_catch.
    match goal with |- context [match ?body st with _ => _ end] =>
      destruct (body st) as [[[]|ex] s1] end; [by eexists|].
    unfold_monad. cbn. by eexists. }
  destruct Htc as [s1 H1]. unfold bind at 1. rewrite H1.
  exists s1. reflexivity.
Qed.

Lemma same_frame_refl w : same_frame w w.
Proof. repeat split. Qed.

Lemma same_frame_trans w1 w2 w3 : same_frame w1 w2 -> same_frame w2 w3 -> same_frame w1 w3.
Proof. unfold same_frame. intuition congruence. Qed.

Lemma on_stream_frame {A} p (d : A) m w r w' :
  on_stream p d m w = (r, w') -> same_frame w w'.
Proof.
  unfold on_stream. destruct (wStreams w !! p) as [s|].
  - destruct (m (s, wEnv w)) as [r' [s' e']]. intros [= <- <-]. repeat split.
  - intros [= <- <-]. apply same_frame_refl.
Qed.

Lemma on_stream_process_ok p w :
  exists alive w', on_stream p true SoundStream.process w = (Ok alive, w').
Proof.
  unfold on_stream. destruct (wStreams w !! p) as [s|]; [|eauto].
  destruct (process_returns (s, wEnv w)) as [[s' e'] ->]. eauto.
Qed.

Lemma processStreams_spec streams w :
  exists kept w',
    Thread.processStreams streams w = (Ok kept, w')
    /\ kept `sublist_of` streams /\ same_frame w w'.
Proof.
  revert w. induction streams as [|p rest IH]; intros w; cbn [Thread.processStreams].
  - exists [], w. split; [reflexivity|]. split; [constructor | apply same_frame_refl].
  - unfold bind at 1.
    destruct (on_stream_process_ok p w) as (alive & w1 & H1). rewrite H1.
    unfold bind at 1. destruct (IH w1) as (kept & w2 & H2 & Hsub & Hfr). rewrite H2.
    unfold ret. eexists _, w2. split; [reflexivity|]. split.
    + destruct alive; [by apply sublist_skip | by apply sublist_cons].
    + eapply same_frame_trans; [eapply on_stream_frame, H1 | exact Hfr].
Qed.

Lemma decodeJob_locals decoder w :
  exists w', Thread.decodeJob decoder
      (Thread.mkJobLocals [] ChannelConfig_Mono SampleType_Int16 48000, w)
    = (Ok tt, (job_locals decoder, w'))
    /\ wThread w' = wThread w /\ wLoudness w' = wLoudness w
    /\ wOutput w' = wOutput w /\ wStreams w' = wStreams w.
Proof.
  unfold Thread.decodeJob, try_catch, bind at 1, Decoder_getInfo, job_locals.
  destruct (dInfo decoder) as [[[srate chans] type]|ex].
  - unfold bind, modify, Thread.Decoder_readAll. cbn.
    destruct (snd (dReadAll decoder)); cbn; eauto 10.
  - cbn. eauto 10.
Qed.

Lemma iteration_spec w :
  exists w',
    Thread.iteration w
    = (Ok (match mDecoderLoudness (wThread w) with
           | [] => Thread.Waited | _ :: _ => Thread.Continue end), w')
    /\ mStreams (wThread w') `sublist_of` mStreams (wThread w)
    /\ mQuitNow (wThread w') = mQuitNow (wThread w)
    /\ wOutput w' = wOutput w
    /\ mDecoderLoudness (wThread w') = drop 1 (mDecoderLoudness (wThread w))
    /\ wLoudness w' = wLoudness w ++ map job_call (take 1 (mDecoderLoudness (wThread w))).
Proof.
  destruct (processStreams_spec (mStreams (wThread w)) w) as (kept & w1 & H1 & Hsub & Hfr).
  unfold Thread.iteration. unfold bind at 1. unfold gets at 1. unfold bind at 1. rewrite H1.
  destruct Hfr as (Ht & Hl & Ho & Hs & Hn).
  unfold bind at 1, modify at 1. unfold bind at 1, gets at 1.
  cbn [wThread with_thread Thread.set_mStreams mDecoderLoudness].
  rewrite Ht.
  destruct (mDecoderLoudness (wThread w)) as [|[decoder loudness] rest] eqn:Hjobs.
  - unfold ret. eexists. split; [reflexivity|]. cbn.
    rewrite Ht, Hl, Ho, Hjobs, app_nil_r. done.
  - unfold bind at 1, modify at 1. unfold bind at 1.
    match goal with |- context [Thread.decodeJob decoder (?l, ?w0)] =>
      destruct (decodeJob_locals decoder w0) as (w2 & -> & Ht2 & Hl2 & Ho2 & Hs2) end.
    unfold ret. eexists. split; [reflexivity|]. cbn.
    rewrite Ht2, Hl2, Ho2. cbn. rewrite Ht, Hl, Ho, Hjobs. done.
Qed.

Lemma rounds_spec n : forall w,
  mQuitNow (wThread w) = false ->
  exists w',
    Thread.rounds n w = (Ok tt, w')
    /\ mQuitNow (wThread w') = false
    /\ mDecoderLoudness (wThread w') = drop n (mDecoderLoudness (wThread w))
    /\ wLoudness w' = wLoudness w ++ map job_call (take n (mDecoderLoudness (wThread w))).
Proof.
  induction n as [|n IH]; intros w Hq; cbn [Thread.rounds].
  - exists w. unfold ret. rewrite drop_0, take_0, app_nil_r. done.
  - unfold bind at 1, gets at 1. rewrite Hq.
    destruct (iteration_spec w) as (w1 & Hit & _ & Hq1 & _ & Hj1 & Hl1).
    unfold bind at 1. rewrite Hit.
    destruct (IH w1) as (w2 & Hr & Hq2 & Hj2 & Hl2); [congruence|].
    exists w2. split; [exact Hr|]. split; [exact Hq2|].
    rewrite Hj2, Hl2, Hj1, Hl1, drop_drop. split; [f_equal; lia|].
    rewrite <- app_assoc, <- map_app. do 2 f_equal.
    destruct (mDecoderLoudness (wThread w)) as [|j rest]; [by destruct n|].
    cbn. rewrite drop_0. reflexivity.
Qed.

(** C5: one round of the loop removes at most one loudness job, the
    one at the front, and hands it to its sink; [n] rounds on a queue
    nobody adds to drain its first [min n (length queue)] jobs, in
    order. *)
Theorem one_job_per_round_fifo (w : World) :
  (exists step w' calls,
     Thread.iteration w = (Ok step, w')
     /\ mDecoderLoudness (wThread w') = drop 1 (mDecoderLoudness (wThread w))
     /\ wLoudness w' = wLoudness w ++ calls
     /\ map lcSink calls = map snd (take 1 (mDecoderLoudness (wThread w)))
     /\ (length calls <= 1)%nat)
  /\ forall n : nat,
       mQuitNow (wThread w) = false ->
       exists w' calls,
         Thread.rounds n w = (Ok tt, w')
         /\ mDecoderLoudness (wThread w') = drop n (mDecoderLoudness (wThread w))
         /\ wLoudness w' = wLoudness w ++ calls
         /\ map lcSink calls = map snd (take n (mDecoderLoudness (wThread w)))
         /\ length calls = Nat.min n (length (mDecoderLoudness (wThread w))).
Proof.
  split.
  - destruct (iteration_spec w) as (w' & Hit & _ & _ & _ & Hj & Hl).
    eexists _, w', _. split; [exact Hit|]. split; [exact Hj|]. split; [exact Hl|].
    rewrite <- list_fmap_compose, length_map, length_take. split; [reflexivity | lia].
  - intros n Hq. destruct (rounds_spec n w Hq) as (w' & Hr & _ & Hj & Hl).
    eexists w', _. split; [exact Hr|]. split; [exact Hj|]. split; [exact Hl|].
    rewrite <- list_fmap_compose, length_map, length_take. split; reflexivity.
Qed.

(** What the failed decode of a job prints. *)
Lemma decodeJob_throwing decoder ex w :
  (dInfo decoder = Throw ex
   \/ (exists info, dInfo decoder = Ok info) /\ snd (dReadAll decoder) = Some ex) ->
  exists l, Thread.decodeJob decoder
      (Thread.mkJobLocals [] ChannelConfig_Mono SampleType_Int16 48000, w)
    = (Ok tt, (l, with_env (print ("Failed to decode audio: " ++ what ex)%string) w)).
Proof.
  unfold Thread.decodeJob, try_catch, bind at 1, Decoder_getInfo.
  intros [Hi | [[[[srate chans] type] Hi] Hr]]; rewrite Hi.
  - cbn. eexists. reflexivity.
  - unfold bind, modify, Thread.Decoder_readAll. cbn. rewrite Hr. cbn.
    eexists. reflexivity.
Qed.

(** C6: when [getInfo] or [readAll] of the job at the front throws, the
    round still ends normally with [continue]: the job is off the queue,
    the message is printed, the analyser is called on what was decoded
    (with the default format when [getInfo] threw), and the following
    rounds go on with the rest of the queue. *)
Theorem failed_loudness_job_is_completed (w : World) (decoder : Decoder) (loudness : Z)
    (rest : list (Decoder * Z)) (ex : exn) :
  mDecoderLoudness (wThread w) = (decoder, loudness) :: rest ->
  (dInfo decoder = Throw ex
   \/ (exists info, dInfo decoder = Ok info) /\ snd (dReadAll decoder) = Some ex) ->
  exists w',
    Thread.iteration w = (Ok Thread.Continue, w')
    /\ mDecoderLoudness (wThread w') = rest
    /\ wLoudness w' = wLoudness w ++
         [match dInfo decoder with
          | Throw _ =>
              mkLoudnessCall loudness [] 48000 ChannelConfig_Mono SampleType_Int16
                             (F32.of_int 20)
          | Ok (srate, chans, type) =>
              mkLoudnessCall loudness (fst (dReadAll decoder)) srate chans type
                             (F32.of_int 20)
          end]
    /\ last (console (wEnv w')) = Some ("Failed to decode audio: " ++ what ex)%string
    /\ (mQuitNow (wThread w) = false ->
        forall n : nat,
          Thread.rounds (S n) w = Thread.rounds n w'
          /\ exists w'', Thread.rounds n w' = (Ok tt, w'')
                         /\ mDecoderLoudness (wThread w'') = drop n rest).
Proof.
  intros Hjobs Hthrow.
  destruct (iteration_spec w) as (w' & Hit & _ & Hq & _ & Hj & Hl).
  rewrite Hjobs in Hit, Hj, Hl. exists w'.
  split; [exact Hit|]. split; [exact Hj|]. split.
  { rewrite Hl. cbn. unfold job_call, job_locals. cbn.
    destruct (dInfo decoder) as [[[srate chans] type]|]; reflexivity. }
  split.
  { revert Hit. unfold Thread.iteration. unfold bind at 1. unfold gets at 1. unfold bind at 1.
    destruct (processStreams_spec (mStreams (wThread w)) w) as (kept & w1 & -> & _ & Hfr).
    destruct Hfr as (Ht & _).
    unfold bind at 1, modify at 1. unfold bind at 1, gets at 1.
    cbn [wThread with_thread Thread.set_mStreams mDecoderLoudness].
    rewrite Ht, Hjobs.
    unfold bind at 1, modify at 1. unfold bind at 1.
    match goal with |- context [Thread.decodeJob decoder (_, ?w0)] =>
      destruct (decodeJob_throwing decoder ex w0 Hthrow) as (locals & ->) end.
    unfold ret. intros [= <-]. cbn. apply last_snoc. }
  intros Hquit n. split.
  - cbn [Thread.rounds]. unfold bind at 1, gets at 1. rewrite Hquit.
    unfold bind at 1. rewrite Hit. reflexivity.
  - destruct (rounds_spec n w') as (w'' & Hr & _ & Hj' & _); [congruence|].
    exists w''. split; [exact Hr|]. rewrite Hj', Hj. reflexivity.
Qed.

(** Registration *)
Lemma erase_first_sublist x l : erase_first x l `sublist_of` l.
Proof.
  induction l as [|y l IH]; cbn; [constructor|].
  case_bool_decide; [by apply sublist_cons | by apply sublist_skip].
Qed.

Lemma add_NoDup stream t : NoDup (mStreams t) -> NoDup (mStreams (Thread.add stream t)).
Proof.
  intros H. unfold Thread.add. case_bool_decide as Hin; [done|]. cbn.
  apply NoDup_app. split; [done|]. split; [|apply NoDup_singleton].
  intros x Hx ->%list_elem_of_singleton. done.
Qed.

Lemma thread_event_NoDup ev w :
  NoDup (mStreams (wThread w)) -> NoDup (mStreams (wThread (thread_event ev w))).
Proof.
  intros H. destruct ev; cbn [thread_event].
  - by apply add_NoDup.
  - eapply sublist_NoDup; [exact H | apply erase_first_sublist].
  - constructor.
  - done.
  - destruct (iteration_spec w) as (w' & Hit & Hsub & _). rewrite Hit. cbn.
    eapply sublist_NoDup; [exact H | exact Hsub].
Qed.

Lemma thread_run_NoDup evs : forall w,
  NoDup (mStreams (wThread w)) -> NoDup (mStreams (wThread (thread_run evs w))).
Proof.
  induction evs as [|ev evs IH]; intros w H; cbn; [done|].
  apply IH, thread_event_NoDup, H.
Qed.

(** C9: adding a feeder twice is adding it once, and whatever calls and
    rounds follow the construction of the stream thread, no feeder is
    registered twice. *)
Theorem register_idempotent (stream : Z) (t : StreamThread) :
  Thread.add stream (Thread.add stream t) = Thread.add stream t
  /\ forall (evs : list ThreadEvent) env streams sounds next calls out,
       NoDup (mStreams (wThread (thread_run evs
                (mkWorld env streams sounds next calls StreamThread_new out)))).
Proof.
  split.
  - unfold Thread.add. destruct (bool_decide (stream ∈ mStreams t)) eqn:Hin.
    + rewrite Hin. reflexivity.
    + cbn. rewrite bool_decide_eq_true_2; [reflexivity|].
      apply elem_of_app. right. by apply list_elem_of_singleton.
  - intros. apply thread_run_NoDup. cbn. constructor.
Qed.

(** Running the monad one statement at a time. *)
Lemma bind_al {S A} `{HasEnv S} (f : Env -> Env) (k : unit -> M S A) (s : S) :
  bind (al f) k s = k tt (env_set (f (env_of s)) s).
Proof. reflexivity. Qed.
Lemma bind_gets {S A B} (f : S -> A) (k : A -> M S B) (s : S) :
  bind (gets f) k s = k (f s) s.
Proof. reflexivity. Qed.
Lemma bind_modify {S B} (f : S -> S) (k : unit -> M S B) (s : S) :
  bind (modify f) k s = k tt (f s).
Proof. reflexivity. Qed.
Lemma bind_throwALerror {S A} `{HasEnv S} (k : unit -> M S A) (s : S) :
  bind throwALerror k s
  = if alError (env_of s) =? AL_NO_ERROR
    then k tt (env_set (with_error AL_NO_ERROR (env_of s)) s)
    else (Throw (runtime_error ("OpenAL exception: "
                                ++ alGetString (alError (env_of s))
                                     (with_error AL_NO_ERROR (env_of s)))),
          env_set (with_error AL_NO_ERROR (env_of s)) s).
Proof.
  unfold bind, throwALerror, alGetError, fail, throw.
  destruct (alError (env_of s) =? AL_NO_ERROR); reflexivity.
Qed.

Lemma books_env_set e w : books (env_set e w) = books w.
Proof. reflexivity. Qed.
Lemma books_with_env f w : books (with_env f w) = books w.
Proof. reflexivity. Qed.

(** One AL call: the state it leaves is named, and only its books are
    remembered. *)
Ltac al_step :=
  rewrite bind_al; cbv beta;
  match goal with
  | |- context [@env_set World _ ?e ?s] =>
      let H := fresh "Hbooks" in
      let s' := fresh "w" in
      pose proof (books_env_set e s) as H;
      remember (@env_set World _ e s) as s' eqn:E in *; clear E
  end.

Ltac run_al := repeat first [al_step | rewrite bind_gets; cbv beta].

Lemma takeFreeSource_empty w :
  mFreeSources (wOutput w) = [] -> Output.takeFreeSource w = (Throw no_free_sources, w).
Proof. intros H. unfold Output.takeFreeSource, bind, gets. rewrite H. reflexivity. Qed.

Lemma takeFreeSource_cons w source rest :
  mFreeSources (wOutput w) = source :: rest ->
  Output.takeFreeSource w
  = (Ok source, with_output (Output.set_mFreeSources (drop 1)) w).
Proof. intros H. unfold Output.takeFreeSource, bind, gets. rewrite H. reflexivity. Qed.

Lemma books_chain_giveBack w w1 source rest :
  mFreeSources (wOutput w) = source :: rest ->
  books w1 = books (with_output (Output.set_mFreeSources (drop 1)) w) ->
  let w' := with_output (Output.set_mFreeSources (fun l => l ++ [source])) w1 in
  mFreeSources (wOutput w') = rest ++ [source]
  /\ mActiveSounds (wOutput w') = mActiveSounds (wOutput w)
  /\ mActiveStreams (wOutput w') = mActiveStreams (wOutput w)
  /\ mStreams (wThread w') `sublist_of` mStreams (wThread w).
Proof.
  unfold books. intros H [= Ho Ht]. cbn. rewrite Ho, Ht. cbn. rewrite H. cbn.
  rewrite drop_0. done.
Qed.

Section PlayRequests.
Variable Play_Loop Play_NoEnv : Z.

Lemma playSound_contract data vol basevol pitch flags offset :
  play_request_contract (Output.playSound Play_Loop Play_NoEnv data vol basevol pitch flags offset).
Proof.
  intros w. split.
  - intros H. unfold Output.playSound. unfold bind at 1.
    rewrite takeFreeSource_empty by done. reflexivity.
  - intros source rest ex w' H. unfold Output.playSound. unfold bind at 1.
    rewrite (takeFreeSource_cons _ _ _ H). unfold try_catch.
    run_al. destruct (Output.underwater _ _ _ _ _) as [gain pitch'].
    run_al. rewrite bind_throwALerror.
    match goal with |- context [if ?c then _ else _] => destruct c end.
    + cbv beta iota delta [bind Output.new_sound new_addr modify ret]. discriminate.
    + unfold Output.giveBack. rewrite bind_modify. cbv beta. unfold throw.
      intros [= <- <-]. apply books_chain_giveBack; [exact H|].
      rewrite books_with_env. congruence.
Qed.

Lemma playSound3D_contract data pos vol basevol pitch mindist maxdist flags offset :
  play_request_contract
    (Output.playSound3D Play_Loop Play_NoEnv data pos vol basevol pitch mindist maxdist flags offset).
Proof.
  intros w. split.
  - intros H. unfold Output.playSound3D. unfold bind at 1.
    rewrite takeFreeSource_empty by done. reflexivity.
  - intros source rest ex w' H. unfold Output.playSound3D. unfold bind at 1.
    rewrite (takeFreeSource_cons _ _ _ H). unfold try_catch.
    run_al. cbv zeta. destruct (Output.underwater _ _ _ _ _) as [gain pitch'].
    run_al. rewrite bind_throwALerror.
    match goal with |- context [if ?c then _ else _] => destruct c end.
    + cbv beta iota delta [bind Output.new_sound new_addr modify ret]. discriminate.
    + unfold Output.giveBack. rewrite bind_modify. cbv beta. unfold throw.
      intros [= <- <-]. apply books_chain_giveBack; [exact H|].
      rewrite books_with_env. congruence.
Qed.
End PlayRequests.

Lemma books2_env_set e (s : Output.StreamLocals * World) : books2 (env_set e s) = books2 s.
Proof. reflexivity. Qed.

Ltac al_step2 :=
  rewrite bind_al; cbv beta;
  match goal with
  | |- context [@env_set (Output.StreamLocals * World) ?I ?e ?s] =>
      let H := fresh "Hbooks" in
      let s' := fresh "st" in
      pose proof (books2_env_set e s) as H;
      remember (@env_set (Output.StreamLocals * World) I e s) as s' eqn:E in *; clear E
  end.

Ltac run_al2 := repeat first [al_step2 | rewrite bind_gets; cbv beta].

Lemma same_frame_books w w' : same_frame w w' -> books w' = books w.
Proof. unfold same_frame, books. intros (-> & _ & -> & _). reflexivity. Qed.

Lemma delete_stream_books q w :
  exists w', Output.delete_stream q w = (Ok tt, w') /\ books w' = books w.
Proof.
  unfold Output.delete_stream. destruct (q =? 0); [by exists w|].
  unfold bind at 1.
  match goal with |- context [on_stream q tt ?m w] =>
    destruct (on_stream q tt m w) as [r w1] eqn:Hon end.
  pose proof (same_frame_books _ _ (on_stream_frame _ _ _ _ _ _ Hon)) as Hb.
  assert (r = Ok tt) as ->.
  { revert Hon. unfold on_stream. destruct (wStreams w !! q) as [s|]; [|by intros [= <- _]].
    unfold bind, SoundStream.this, gets, al, modify. cbn. by intros [= <- _]. }
  unfold modify. eexists. split; [reflexivity|]. exact Hb.
Qed.

Section StreamRequests.
Variable framesToBytes : Z -> ChannelConfig -> SampleType -> Z.
Variable getChannelConfigName : ChannelConfig -> string.
Variable getSampleTypeName : SampleType -> string.
Variable Play_Loop Play_NoEnv : Z.
Variable getName : Decoder -> Result string.

Lemma warnLoop_books decoder flags w :
  warning_returns getName Play_Loop decoder flags ->
  exists w', Output.warnLoop Play_Loop getName decoder flags w = (Ok tt, w')
             /\ books w' = books w.
Proof.
  unfold Output.warnLoop, when, warning_returns.
  destruct (Output.has_flag flags Play_Loop).
  - intros [H | [name H]]; [discriminate|].
    unfold bind at 1. rewrite H. eexists. split; reflexivity.
  - intros _. exists w. split; reflexivity.
Qed.

(** The warning whose [getName()] throws: the exception leaves it and
    nothing is changed. *)
Lemma warnLoop_throws decoder flags ex w :
  Output.has_flag flags Play_Loop = true -> getName decoder = Throw ex ->
  Output.warnLoop Play_Loop getName decoder flags w = (Throw ex, w).
Proof.
  intros Hflag Hname. unfold Output.warnLoop, when. rewrite Hflag.
  unfold bind at 1. rewrite Hname. reflexivity.
Qed.

Lemma registerStream_throw source decoder snd0 st ex st' :
  Output.registerStream framesToBytes getChannelConfigName getSampleTypeName
    source decoder snd0 st = (Throw ex, st') ->
  Output.stream (fst st') = Output.stream (fst st) /\ books (snd st') = books (snd st).
Proof.
  destruct st as [l w]. unfold Output.registerStream.
  unfold bind at 1. unfold Output.world at 1.
  cbv beta iota delta [Output.new_sound bind new_addr modify ret fst snd].
  unfold Output.world at 1. unfold Output.new_stream.
  cbv beta iota delta [bind fst snd].
  destruct (OpenAL_SoundStream_new _ _ _ _ _ _) as [[s|ex'] e'].
  - cbv beta iota delta [new_addr modify ret Output.world bind fst snd]. discriminate.
  - intros [= <- <-]. split; reflexivity.
Qed.

Lemma unregisterStream_spec source ex st :
  exists w',
    Output.unregisterStream source ex st = (Throw ex, (fst st, w'))
    /\ wOutput w' = Output.set_mFreeSources (fun l => l ++ [source]) (wOutput (snd st))
    /\ wThread w' = Thread.remove (Output.stream (fst st)) (wThread (snd st)).
Proof.
  destruct st as [l w]. unfold Output.unregisterStream.
  rewrite bind_gets. cbv beta. unfold bind at 1. unfold Output.world at 1.
  cbv beta iota delta [modify fst snd].
  unfold bind at 1. unfold Output.world at 1. cbv beta iota delta [fst snd].
  match goal with |- context [Output.delete_stream ?q ?w0] =>
    destruct (delete_stream_books q w0) as (w1 & -> & Hb) end.
  unfold bind, Output.world, modify, throw. cbn [fst snd].
  eexists. split; [reflexivity|].
  unfold books in Hb. injection Hb as Ho Ht. cbn. rewrite Ho, Ht. split; reflexivity.
Qed.

Lemma stream_request_books source rest ex w w1 st st' w' :
  mFreeSources (wOutput w) = source :: rest ->
  books w1 = books (with_output (Output.set_mFreeSources (drop 1)) w) ->
  Output.stream (fst st) = 0 -> books (snd st) = books w1 ->
  Output.unregisterStream source ex st = (Throw ex, st') ->
  w' = with_sounds (delete (Output.sound (fst st'))) (snd st') ->
  mFreeSources (wOutput w') = rest ++ [source]
  /\ mActiveSounds (wOutput w') = mActiveSounds (wOutput w)
  /\ mActiveStreams (wOutput w') = mActiveStreams (wOutput w)
  /\ mStreams (wThread w') `sublist_of` mStreams (wThread w).
Proof.
  intros H Hb1 Hs Hb Hu ->.
  destruct (unregisterStream_spec source ex st) as (w2 & Hu' & Ho & Ht).
  rewrite Hu' in Hu. injection Hu as <-. cbn [fst snd].
  unfold books in Hb, Hb1. injection Hb as Hbo Hbt. injection Hb1 as Hb1o Hb1t.
  cbn [wOutput wThread with_sounds]. rewrite Ho, Ht, Hbo, Hbt, Hb1o, Hb1t. cbn.
  rewrite H. cbn. rewrite drop_0. repeat split; try done.
  apply erase_first_sublist.
Qed.

Lemma streamSound_contract decoder basevol pitch flags :
  warning_returns getName Play_Loop decoder flags ->
  play_request_contract
    (Output.streamSound framesToBytes getChannelConfigName getSampleTypeName
       Play_Loop Play_NoEnv getName decoder basevol pitch flags).
Proof.
  intros Hwarn w. split.
  - intros H. unfold Output.streamSound. unfold bind at 1.
    rewrite takeFreeSource_empty by done. reflexivity.
  - intros source rest ex w' H. unfold Output.streamSound. unfold bind at 1.
    rewrite (takeFreeSource_cons _ _ _ H). unfold bind at 1.
    destruct (warnLoop_books decoder flags
                (with_output (Output.set_mFreeSources (drop 1)) w) Hwarn) as (w1 & -> & Hw1).
    unfold Output.with_stream_locals, try_catch.
    set (st0 := (Output.mkStreamLocals 0 0, w1)).
    assert (Hst0 : books2 st0 = (Output.mkStreamLocals 0 0, books w1)) by reflexivity.
    clearbody st0.
    run_al2. destruct (Output.underwater _ _ _ _ _) as [gain pitch'].
    run_al2. rewrite bind_throwALerror.
    match goal with
    | |- context [@env_set (Output.StreamLocals * World) _ _ ?s] =>
        assert (Hfin1 : fst s = Output.mkStreamLocals 0 0)
          by (unfold books2 in *; congruence);
        assert (Hfin2 : books (snd s) = books w1) by (unfold books2 in *; congruence)
    end.
    match goal with |- context [if ?c then _ else _] => destruct c end.
    + match goal with |- context [Output.registerStream ?a ?b ?c ?d ?e ?f ?st] =>
        destruct (Output.registerStream a b c d e f st) as [[[]|ex'] stR] eqn:Hreg end.
      * destruct stR. discriminate.
      * apply registerStream_throw in Hreg. destruct Hreg as [Hs Hb].
        cbn [fst snd env_set pair_HasEnv] in Hs, Hb. rewrite books_env_set in Hb.
        match goal with |- context [Output.unregisterStream source ex' stR] =>
          destruct (Output.unregisterStream source ex' stR) as [r [l2 w2]] eqn:Hu end.
        pose proof (unregisterStream_spec source ex' stR) as (w3 & Hu' & _).
        rewrite Hu' in Hu. injection Hu as <- <- <-.
        intros [= <- <-].
        eapply (stream_request_books source rest ex' w w1 stR _ _ H Hw1);
          [ | | exact Hu' | reflexivity].
        -- rewrite Hs, Hfin1. reflexivity.
        -- congruence.
    + match goal with |- context [Output.unregisterStream source ?e ?st] =>
        destruct (Output.unregisterStream source e st) as [r [l2 w2]] eqn:Hu;
        pose proof (unregisterStream_spec source e st) as (w3 & Hu' & _) end.
      rewrite Hu' in Hu. injection Hu as <- <- <-.
      intros [= <- <-].
      match type of Hu' with
      | Output.unregisterStream _ ?e ?st = _ =>
          eapply (stream_request_books source rest e w w1 st _ _ H Hw1);
            [ | | exact Hu' | reflexivity]
      end.
      -- cbn [fst snd env_set pair_HasEnv]. rewrite Hfin1. reflexivity.
      -- cbn [fst snd env_set pair_HasEnv]. rewrite books_env_set. congruence.
Qed.

Lemma streamSound3D_contract decoder pos volume basevol pitch mindist maxdist flags :
  warning_returns getName Play_Loop decoder flags ->
  play_request_contract
    (Output.streamSound3D framesToBytes getChannelConfigName getSampleTypeName
       Play_Loop Play_NoEnv getName decoder pos volume basevol pitch mindist maxdist flags).
Proof.
  intros Hwarn w. split.
  - intros H. unfold Output.streamSound3D. unfold bind at 1.
    rewrite takeFreeSource_empty by done. reflexivity.
  - intros source rest ex w' H. unfold Output.streamSound3D. unfold bind at 1.
    rewrite (takeFreeSource_cons _ _ _ H). unfold bind at 1.
    destruct (warnLoop_books decoder flags
                (with_output (Output.set_mFreeSources (drop 1)) w) Hwarn) as (w1 & -> & Hw1).
    unfold Output.with_stream_locals, try_catch.
    set (st0 := (Output.mkStreamLocals 0 0, w1)).
    assert (Hst0 : books2 st0 = (Output.mkStreamLocals 0 0, books w1)) by reflexivity.
    clearbody st0.
    run_al2. cbv zeta. destruct (Output.underwater _ _ _ _ _) as [gain pitch'].
    run_al2. rewrite bind_throwALerror.
    match goal with
    | |- context [@env_set (Output.StreamLocals * World) _ _ ?s] =>
        assert (Hfin1 : fst s = Output.mkStreamLocals 0 0)
          by (unfold books2 in *; congruence);
        assert (Hfin2 : books (snd s) = books w1) by (unfold books2 in *; congruence)
    end.
    match goal with |- context [if ?c then _ else _] => destruct c end.
    + match goal with |- context [Output.registerStream ?a ?b ?c ?d ?e ?f ?st] =>
        destruct (Output.registerStream a b c d e f st) as [[[]|ex'] stR] eqn:Hreg end.
      * destruct stR. discriminate.
      * apply registerStream_throw in Hreg. destruct Hreg as [Hs Hb].
        cbn [fst snd env_set pair_HasEnv] in Hs, Hb. rewrite books_env_set in Hb.
        match goal with |- context [Output.unregisterStream source ex' stR] =>
          destruct (Output.unregisterStream source ex' stR) as [r [l2 w2]] eqn:Hu end.
        pose proof (unregisterStream_spec source ex' stR) as (w3 & Hu' & _).
        rewrite Hu' in Hu. injection Hu as <- <- <-.
        intros [= <- <-].
        eapply (stream_request_books source rest ex' w w1 stR _ _ H Hw1);
          [ | | exact Hu' | reflexivity].
        -- rewrite Hs, Hfin1. reflexivity.
        -- congruence.
    + match goal with |- context [Output.unregisterStream source ?e ?st] =>
        destruct (Output.unregisterStream source e st) as [r [l2 w2]] eqn:Hu;
        pose proof (unregisterStream_spec source e st) as (w3 & Hu' & _) end.
      rewrite Hu' in Hu. injection Hu as <- <- <-.
      intros [= <- <-].
      match type of Hu' with
      | Output.unregisterStream _ ?e ?st = _ =>
          eapply (stream_request_books source rest e w w1 st _ _ H Hw1);
            [ | | exact Hu' | reflexivity]
      end.
      -- cbn [fst snd env_set pair_HasEnv]. rewrite Hfin1. reflexivity.
      -- cbn [fst snd env_set pair_HasEnv]. rewrite books_env_set. congruence.
Qed.

(** A stream request whose loop warning throws has taken the voice and
    changed nothing else: the exception passes the [catch], and the
    voice is on no list any more. *)
Lemma stream_requests_lose_the_voice decoder flags ex w source rest :
  mFreeSources (wOutput w) = source :: rest ->
  Output.has_flag flags Play_Loop = true -> getName decoder = Throw ex ->
  let lost := with_output (Output.set_mFreeSources (drop 1)) w in
  (forall basevol pitch,
      Output.streamSound framesToBytes getChannelConfigName getSampleTypeName
        Play_Loop Play_NoEnv getName decoder basevol pitch flags w = (Throw ex, lost))
  /\ (forall pos volume basevol pitch mindist maxdist,
      Output.streamSound3D framesToBytes getChannelConfigName getSampleTypeName
        Play_Loop Play_NoEnv getName decoder pos volume basevol pitch mindist maxdist flags w
      = (Throw ex, lost)).
Proof.
  intros H Hflag Hname lost. split; intros.
  - unfold Output.streamSound. unfold bind at 1.
    rewrite (takeFreeSource_cons _ _ _ H). unfold bind at 1.
    rewrite (warnLoop_throws decoder flags ex _ Hflag Hname). reflexivity.
  - unfold Output.streamSound3D. unfold bind at 1.
    rewrite (takeFreeSource_cons _ _ _ H). unfold bind at 1.
    rewrite (warnLoop_throws decoder flags ex _ Hflag Hname). reflexivity.
Qed.

End StreamRequests.

(** C10: on a handle that is null the stream queries return 0.0, the
    playing queries return false and the stop functions return, all of
    them leaving the world as it is. *)
Theorem stopped_handles_are_inert (w : World) (sound : Z) :
  Output.handle_of sound w = 0 ->
  Output.getStreamDelay sound w = (Ok F64.zero, w)
  /\ Output.getStreamOffset sound w = (Ok F64.zero, w)
  /\ Output.isSoundPlaying sound w = (Ok false, w)
  /\ Output.isStreamPlaying sound w = (Ok false, w)
  /\ Output.stopSound sound w = (Ok tt, w)
  /\ Output.stopStream sound w = (Ok tt, w).
Proof.
  intros H.
  unfold Output.getStreamDelay, Output.getStreamOffset, Output.isSoundPlaying,
    Output.isStreamPlaying, Output.stopSound, Output.stopStream.
  rewrite !bind_gets, H. cbv beta. repeat split.
Qed.

Lemma Decoder_read_served size d : snd (Decoder_read size d) = served d.
Proof.
  unfold Decoder_read, served. destruct (dReadScript d) as [|[bytes|ex] rest]; reflexivity.
Qed.

(** One round of the loop whose [read] returns normally. *)
Lemma refillLoop_round fuel data queued s e bytes :
  mIsFinished s = false -> 0 <= queued < 6 ->
  fst (Decoder_read (Z.of_nat (length data)) (mDecoder s)) = Ok bytes ->
  let got := length bytes in
  let data1 := bytes ++ skipn got data in
  let short := (got <? length data1)%nat in
  let data2 := if short then SoundStream.memset_tail data1 got (mSilence s) else data1 in
  let s1 := set_mDecoder (served (mDecoder s)) s in
  let s2 := if short then set_mIsFinished true s1 else s1 in
  SoundStream.refillLoop (S fuel) data queued (s, e)
  = SoundStream.refillLoop fuel data2 (queued + 1)
      (if (0 <? got)%nat then queue_buffer data2 (s2, e) else (s2, e)).
Proof.
  intros Hf Hq Hs. cbn zeta.
  cbn [SoundStream.refillLoop]. unfold SoundStream.this at 1. rewrite bind_gets. cbv beta.
  cbn [fst].
  rewrite Hf. replace (ALuint_wrap queued <? sNumBuffers) with true
    by (symmetry; apply Z.ltb_lt; unfold ALuint_wrap, sNumBuffers; rewrite Z.mod_small; lia).
  cbn [negb andb]. unfold bind at 1. unfold SoundStream.read at 1. cbn [fst snd].
  pose proof (Decoder_read_served (Z.of_nat (length data)) (mDecoder s)) as Hserved.
  destruct (Decoder_read (Z.of_nat (length data)) (mDecoder s)) as [r d'].
  cbn [fst snd] in Hs, Hserved. subst r d'.
  destruct (length bytes <? length _)%nat eqn:Hshort;
    destruct (0 <? length bytes)%nat eqn:Hpos.
  all: unfold bind, SoundStream.this_set, SoundStream.this, modify, gets, ret, when, al.
  all: cbn [fst snd env_of env_set pair_HasEnv Env_HasEnv id].
  all: try rewrite Hpos.
  all: reflexivity.
Qed.

(** The round whose [read] throws. *)
Lemma refillLoop_throw fuel data queued s e ex :
  mIsFinished s = false -> 0 <= queued < 6 ->
  fst (Decoder_read (Z.of_nat (length data)) (mDecoder s)) = Throw ex ->
  SoundStream.refillLoop (S fuel) data queued (s, e)
  = (Throw ex, (set_mDecoder (served (mDecoder s)) s, e)).
Proof.
  intros Hf Hq Hs.
  cbn [SoundStream.refillLoop]. unfold SoundStream.this at 1. rewrite bind_gets. cbv beta.
  cbn [fst].
  rewrite Hf. replace (ALuint_wrap queued <? sNumBuffers) with true
    by (symmetry; apply Z.ltb_lt; unfold ALuint_wrap, sNumBuffers; rewrite Z.mod_small; lia).
  cbn [negb andb]. unfold bind at 1. unfold SoundStream.read at 1. cbn [fst snd].
  pose proof (Decoder_read_served (Z.of_nat (length data)) (mDecoder s)) as Hserved.
  destruct (Decoder_read (Z.of_nat (length data)) (mDecoder s)) as [r d'].
  cbn [fst snd] in Hs, Hserved. subst r d'. reflexivity.
Qed.

(** The loop does nothing once the feeder is finished or the voice has
    its six buffers. *)
Lemma refillLoop_stop fuel data queued s e :
  mIsFinished s = true \/ 6 <= queued < 2 ^ 32 ->
  SoundStream.refillLoop fuel data queued (s, e) = (Ok queued, (s, e)).
Proof.
  intros H. destruct fuel; [reflexivity|].
  cbn [SoundStream.refillLoop]. unfold SoundStream.this at 1. rewrite bind_gets. cbv beta.
  cbn [fst]. destruct H as [-> | H]; [reflexivity|].
  replace (ALuint_wrap queued <? sNumBuffers) with false.
  - rewrite andb_false_r. reflexivity.
  - symmetry. apply Z.ltb_ge. unfold ALuint_wrap, sNumBuffers. rewrite Z.mod_small; lia.
Qed.

(** *** The voice of a feeder under the AL calls *)

Lemma al_source_record_error src err e : al_source src (al_record_error err e) = al_source src e.
Proof. unfold al_record_error. destruct (alError e =? AL_NO_ERROR); reflexivity. Qed.

Lemma al_source_update src f e :
  al_source src (al_update_source src f e)
  = match alSources e !! src with Some s => f s | None => newSource end.
Proof.
  unfold al_update_source, al_source. destruct (alSources e !! src) as [s|] eqn:H.
  - cbn. rewrite lookup_insert_eq. reflexivity.
  - unfold al_record_error. destruct (alError e =? AL_NO_ERROR); cbn; rewrite H; reflexivity.
Qed.

Lemma al_source_alBufferData src b data e : al_source src (alBufferData b data e) = al_source src e.
Proof.
  unfold alBufferData. destruct (alBuffers e !! b); [reflexivity | apply al_source_record_error].
Qed.

Lemma al_source_print src line e : al_source src (print line e) = al_source src e.
Proof. reflexivity. Qed.

Lemma qlen_queue src b e :
  (qlen src (alSourceQueueBuffers1 src b e) <= S (qlen src e))%nat.
Proof.
  unfold qlen, alSourceQueueBuffers1. rewrite al_source_update. unfold al_source.
  destruct (alSources e !! src); cbn; [rewrite length_app; cbn; lia | lia].
Qed.

Lemma qlen_unqueue src e : (qlen src (alSourceUnqueueBuffers1 src e) <= qlen src e)%nat.
Proof.
  unfold qlen, alSourceUnqueueBuffers1. destruct (0 <? _).
  - rewrite al_source_update. unfold al_source.
    destruct (alSources e !! src) as [s|]; cbn; [|lia]. destruct (sQueue s); cbn; lia.
  - rewrite al_source_record_error. lia.
Qed.

Lemma qlen_play src e : qlen src (alSourcePlay src e) = qlen src e.
Proof.
  unfold qlen, alSourcePlay. rewrite al_source_update. unfold al_source.
  destruct (alSources e !! src) as [s|]; cbn; [|reflexivity]. destruct (sState s); reflexivity.
Qed.

Lemma qlen_pause src e : qlen src (alSourcePause src e) = qlen src e.
Proof.
  unfold qlen, alSourcePause. rewrite al_source_update. unfold al_source.
  destruct (alSources e !! src) as [s|]; cbn; [|reflexivity]. destruct (sState s); reflexivity.
Qed.

Lemma qlen_hw src e : qlen src (hw_finish_buffer src e) = qlen src e.
Proof.
  unfold qlen, hw_finish_buffer, al_source.
  destruct (alSources e !! src) as [s|] eqn:H; [|by rewrite H].
  destruct (sState s); try by rewrite H. cbn. rewrite lookup_insert_eq. reflexivity.
Qed.

Lemma mSource_queue_buffer data st : mSource (fst (queue_buffer data st)) = mSource (fst st).
Proof. reflexivity. Qed.

Lemma qlen_queue_buffer data st :
  (qlen (mSource (fst st)) (snd (queue_buffer data st)) <= S (qlen (mSource (fst st)) (snd st)))%nat.
Proof.
  unfold queue_buffer. cbn [fst snd]. etransitivity; [apply qlen_queue|].
  unfold qlen. rewrite al_source_alBufferData. reflexivity.
Qed.

(** What the loop keeps: the voice of the feeder, and at most six
    buffers on it. *)
Lemma refillLoop_keeps fuel : forall data queued st r st',
  SoundStream.refillLoop fuel data queued st = (r, st') ->
  0 <= queued <= 6 ->
  Z.of_nat (qlen (mSource (fst st)) (snd st)) <= queued ->
  mSource (fst st') = mSource (fst st)
  /\ Z.of_nat (qlen (mSource (fst st)) (snd st')) <= 6.
Proof.
  induction fuel as [|fuel IH]; intros data queued [s e] r st' Hrun Hq Hlen.
  - injection Hrun as <- <-. cbn [fst snd] in *. split; [reflexivity | lia].
  - cbn [fst snd] in *.
    destruct (mIsFinished s) eqn:Hf.
    { rewrite refillLoop_stop in Hrun by auto. injection Hrun as <- <-.
      cbn [fst snd]. split; [reflexivity | lia]. }
    destruct (Z.eq_dec queued 6) as [-> | Hne].
    { rewrite refillLoop_stop in Hrun by (right; lia). injection Hrun as <- <-.
      cbn [fst snd]. split; [reflexivity | lia]. }
    destruct (fst (Decoder_read (Z.of_nat (length data)) (mDecoder s))) as [bytes|ex] eqn:Hread.
    + rewrite (refillLoop_round fuel data queued s e bytes Hf ltac:(lia) Hread) in Hrun.
      cbn zeta in Hrun.
      destruct (length bytes <? _)%nat; destruct (0 <? length bytes)%nat.
      all: apply IH in Hrun; [ | lia | ].
      all: rewrite ?mSource_queue_buffer in *.
      all: try (match goal with |- context [queue_buffer ?d ?st] =>
                  pose proof (qlen_queue_buffer d st) end).
      all: cbn [fst snd mSource set_mIsFinished set_mDecoder] in *.
      all: first [exact Hrun | lia].
    + rewrite (refillLoop_throw fuel data queued s e ex Hf ltac:(lia) Hread) in Hrun.
      injection Hrun as <- <-. cbn [fst snd]. split; [reflexivity | lia].
Qed.

Lemma unqueueLoop_spec n : forall s e,
  exists e', SoundStream.unqueueLoop n (s, e) = (Ok tt, (s, e'))
             /\ (qlen (mSource s) e' <= qlen (mSource s) e)%nat.
Proof.
  induction n as [|n IH]; intros s e; cbn [SoundStream.unqueueLoop].
  - exists e. split; [reflexivity | lia].
  - unfold SoundStream.this at 1. rewrite bind_gets. cbv beta. rewrite bind_al. cbv beta.
    cbn [fst snd env_of env_set pair_HasEnv Env_HasEnv id].
    destruct (IH s (alSourceUnqueueBuffers1 (mSource s) e)) as (e' & -> & Hle).
    exists e'. split; [reflexivity|]. pose proof (qlen_unqueue (mSource s) e). lia.
Qed.

Lemma refillQueue_unfold s e :
  exists e1,
    (qlen (mSource s) e1 <= qlen (mSource s) e)%nat
    /\ SoundStream.unqueueLoop
         (Z.to_nat (alGetSource_BUFFERS_PROCESSED (mSource s) e)) (s, e) = (Ok tt, (s, e1))
    /\ SoundStream.refillQueue (s, e)
       = if negb (mIsFinished s) && (ALuint_wrap (Z.of_nat (qlen (mSource s) e1)) <? sNumBuffers)
         then SoundStream.refillLoop (Z.to_nat sNumBuffers)
                (repeat x00 (Z.to_nat (mBufferSize s))) (Z.of_nat (qlen (mSource s) e1)) (s, e1)
         else (Ok (Z.of_nat (qlen (mSource s) e1)), (s, e1)).
Proof.
  destruct (unqueueLoop_spec (Z.to_nat (alGetSource_BUFFERS_PROCESSED (mSource s) e)) s e)
    as (e1 & Hun & Hle).
  exists e1. split; [exact Hle|]. split; [exact Hun|].
  unfold SoundStream.refillQueue.
  unfold SoundStream.this at 1. rewrite bind_gets. cbv beta. cbn [fst].
  unfold al_get at 1. rewrite bind_gets. cbv beta.
  cbn [fst snd env_of env_set pair_HasEnv Env_HasEnv id].
  unfold bind at 1. rewrite Hun.
  unfold al_get at 1. rewrite bind_gets. cbv beta.
  unfold SoundStream.this at 1. rewrite bind_gets. cbv beta.
  cbn [fst snd env_of env_set pair_HasEnv Env_HasEnv id].
  unfold alGetSource_BUFFERS_QUEUED. fold (qlen (mSource s) e1).
  destruct (negb (mIsFinished s) && _); [|reflexivity].
  unfold SoundStream.this at 1. rewrite bind_gets. reflexivity.
Qed.

Lemma refillQueue_keeps st :
  mSource (fst (snd (SoundStream.refillQueue st))) = mSource (fst st)
  /\ (queued_buffers st <= 6 -> queued_buffers (snd (SoundStream.refillQueue st)) <= 6).
Proof.
  destruct st as [s e].
  destruct (refillQueue_unfold s e) as (e1 & Hle & _ & ->).
  unfold queued_buffers, alGetSource_BUFFERS_QUEUED. cbn [fst snd].
  fold (qlen (mSource s) e).
  destruct (negb (mIsFinished s) && _) eqn:Hc.
  - apply andb_prop in Hc as [_ Hlt%Z.ltb_lt].
    destruct (SoundStream.refillLoop _ _ _ _) as [r st'] eqn:Hrun. cbn [snd].
    assert (Hsmall : Z.of_nat (qlen (mSource s) e1) < 2 ^ 32 ->
                     Z.of_nat (qlen (mSource s) e1) <= 6).
    { intros Hs. unfold ALuint_wrap, sNumBuffers in Hlt. rewrite Z.mod_small in Hlt; lia. }
    destruct (Z_lt_dec (Z.of_nat (qlen (mSource s) e1)) (2 ^ 32)) as [Hs|Hbig].
    + apply refillLoop_keeps in Hrun; cbn [fst snd]; [|lia|lia].
      cbn [fst snd] in Hrun. destruct Hrun as [Hsrc Hq]. split; [exact Hsrc|].
      intros _. rewrite Hsrc. fold (qlen (mSource s) (snd st')). exact Hq.
    + (* a queue this long is ruled out by the hypothesis of the second part *)
      assert (Hsrc : mSource (fst st') = mSource s).
      { clear -Hrun. revert Hrun. generalize (repeat x00 (Z.to_nat (mBufferSize s))).
        generalize (Z.of_nat (qlen (mSource s) e1)). generalize (Z.to_nat sNumBuffers).
        intros fuel. revert s e1. induction fuel as [|fuel IH]; intros s e1 queued data.
        - intros [= _ <-]. reflexivity.
        - cbn [SoundStream.refillLoop]. unfold SoundStream.this at 1.
          rewrite bind_gets. cbv beta. cbn [fst].
          destruct (negb (mIsFinished s) && _); [|by intros [= _ <-]].
          unfold bind at 1, SoundStream.read at 1. cbn [fst snd].
          destruct (Decoder_read _ _) as [[bytes|ex] d']; [|by intros [= _ <-]].
          unfold bind at 1.
          match goal with |- context [if ?c then _ else _] => destruct c end.
          all: unfold bind at 1, SoundStream.this_set at 1, modify at 1; cbn [fst snd].
          all: try (unfold bind at 1, SoundStream.this at 1, gets at 1; cbn [fst snd];
                    unfold ret at 1).
          all: try unfold ret at 1.
          all: unfold bind at 1, when at 1.
          all: match goal with |- context [if ?c then _ else _] => destruct c end.
          all: unfold bind, SoundStream.this, SoundStream.this_set, gets, modify, al, ret;
            cbn [fst snd env_of env_set pair_HasEnv Env_HasEnv id].
          all: intros H; apply IH in H; exact H. }
      split; [exact Hsrc|]. intros H6. lia.
  - cbn [fst snd]. split; [reflexivity|]. fold (qlen (mSource s) e1). lia.
Qed.

(** *** [process] in terms of [refillQueue] *)

Lemma process_unfold st :
  SoundStream.process st
  = match SoundStream.refillQueue st with
    | (Throw _, st1) => alive (stop_feeding st1)
    | (Ok queued, st1) =>
        if 0 <? queued then
          if is_active (alGetSource_STATE (mSource (fst st1)) (snd st1)) then alive st1
          else match SoundStream.refillQueue st1 with
               | (Throw _, st2) => alive (stop_feeding st2)
               | (Ok _, st2) => alive (start_voice st2)
               end
        else alive st1
    end.
Proof.
  unfold SoundStream.process. unfold bind at 1. unfold try_catch. unfold bind at 1.
  destruct (SoundStream.refillQueue st) as [[queued|ex] st1].
  - unfold when at 1. destruct (0 <? queued); [|reflexivity].
    unfold SoundStream.this at 1. rewrite bind_gets. cbv beta.
    unfold al_get at 1. rewrite bind_gets. cbv beta.
    cbn [fst snd env_of env_set pair_HasEnv Env_HasEnv id].
    unfold when at 1.
    destruct (is_active (alGetSource_STATE (mSource (fst st1)) (snd st1))); [reflexivity|].
    cbn [negb]. unfold bind at 1.
    pose proof (proj1 (refillQueue_keeps st1)) as Hsrc.
    destruct (SoundStream.refillQueue st1) as [[q2|ex] st2]; [|reflexivity].
    cbn [snd] in Hsrc. rewrite <- Hsrc. reflexivity.
  - reflexivity.
Qed.

(** What [refillQueue], starting the voice and giving up all keep,
    [process] keeps. *)
Lemma process_preserves (P : SoundStream.St -> Prop) :
  (forall st, P st -> P (snd (SoundStream.refillQueue st))) ->
  (forall st, P st -> P (start_voice st)) ->
  (forall st, P st -> P (stop_feeding st)) ->
  forall st, P st -> P (snd (SoundStream.process st)).
Proof.
  intros Hrefill Hstart Hgive st HP. rewrite process_unfold. unfold alive.
  pose proof (Hrefill st HP) as H1.
  destruct (SoundStream.refillQueue st) as [[queued|ex] st1]; cbn [snd] in H1.
  - destruct (0 <? queued); [|exact H1].
    destruct (is_active _); [exact H1|].
    pose proof (Hrefill st1 H1) as H2.
    destruct (SoundStream.refillQueue st1) as [[q2|ex] st2]; cbn [snd] in *; auto.
  - cbn [snd]. auto.
Qed.

Lemma refillQueue_finished s e :
  mIsFinished s = true ->
  exists queued e', SoundStream.refillQueue (s, e) = (Ok queued, (s, e')).
Proof.
  intros Hf. destruct (refillQueue_unfold s e) as (e1 & _ & _ & ->).
  rewrite Hf. cbn [negb andb]. eauto.
Qed.

(** A finished feeder is frozen: no event changes the object again, so
    its decoder is never read. *)
Lemma feeder_event_frozen ev st :
  mIsFinished (fst st) = true -> fst (feeder_event ev st) = fst st.
Proof.
  intros Hf. destruct ev; cbn [feeder_event fst]; try reflexivity.
  - destruct st as [s e]. destruct (refillQueue_finished s e Hf) as (q & e' & ->). reflexivity.
  - apply (process_preserves (fun st' => fst st' = fst st)); try reflexivity.
    + intros [s e] Heq. cbn [fst] in Heq. subst s.
      destruct (refillQueue_finished (fst st) e Hf) as (q & e' & ->). reflexivity.
    + intros [s e] Heq. exact Heq.
    + intros [s e] Heq. cbn [fst stop_feeding] in *. subst s.
      destruct (fst st); cbn in *. subst. reflexivity.
Qed.

Lemma feeder_run_frozen evs : forall st,
  mIsFinished (fst st) = true -> fst (feeder_run evs st) = fst st.
Proof.
  induction evs as [|ev evs IH]; intros st Hf; [reflexivity|].
  cbn [feeder_run fold_left]. fold (feeder_run evs (feeder_event ev st)).
  pose proof (feeder_event_frozen ev st Hf) as Hev.
  rewrite IH; rewrite Hev; done.
Qed.

Lemma feeder_event_keeps ev st :
  mSource (fst (feeder_event ev st)) = mSource (fst st)
  /\ (queued_buffers st <= 6 -> queued_buffers (feeder_event ev st) <= 6).
Proof.
  destruct ev; cbn [feeder_event].
  - apply refillQueue_keeps.
  - apply (process_preserves
             (fun st' => mSource (fst st') = mSource (fst st)
                         /\ (queued_buffers st <= 6 -> queued_buffers st' <= 6))).
    + intros st1 [Hs Hq]. destruct (refillQueue_keeps st1) as [Hs' Hq'].
      split; [congruence | auto].
    + intros st1 [Hs Hq]. split; [exact Hs|]. intros H. specialize (Hq H).
      unfold queued_buffers, alGetSource_BUFFERS_QUEUED, start_voice in *. cbn [fst snd].
      fold (qlen (mSource (fst st1)) (alSourcePlay (mSource (fst st1)) (snd st1))).
      rewrite qlen_play. exact Hq.
    + intros st1 [Hs Hq]. split; [exact Hs|]. exact Hq.
    + split; [reflexivity | auto].
  - split; [reflexivity|]. unfold queued_buffers, alGetSource_BUFFERS_QUEUED. cbn [fst snd].
    fold (qlen (mSource (fst st)) (hw_finish_buffer (mSource (fst st)) (snd st))).
    rewrite qlen_hw. auto.
  - split; [reflexivity|]. unfold queued_buffers, alGetSource_BUFFERS_QUEUED. cbn [fst snd].
    fold (qlen (mSource (fst st)) (alSourcePause (mSource (fst st)) (snd st))).
    rewrite qlen_pause. auto.
  - split; [reflexivity|]. unfold queued_buffers, alGetSource_BUFFERS_QUEUED. cbn [fst snd].
    fold (qlen (mSource (fst st)) (alSourcePlay (mSource (fst st)) (snd st))).
    rewrite qlen_play. auto.
Qed.

Lemma feeder_run_keeps evs : forall st,
  queued_buffers st <= 6 -> queued_buffers (feeder_run evs st) <= 6.
Proof.
  induction evs as [|ev evs IH]; intros st H; [exact H|].
  cbn [feeder_run fold_left]. fold (feeder_run evs (feeder_event ev st)).
  apply IH. apply feeder_event_keeps, H.
Qed.

(** C4: from a voice with at most six buffers queued, after any history
    of [refillQueue] and [process] calls, hardware progress, pauses and
    resumes the voice holds between 0 and 6 buffers; once the finished
    flag is set it stays set and the decoder is not read again. *)
Theorem feeder_queue_and_finish_invariant (st : SoundStream.St) (evs1 evs2 : list FeederEvent) :
  queued_buffers st <= 6 ->
  let st1 := feeder_run evs1 st in
  let st2 := feeder_run evs2 st1 in
  0 <= queued_buffers st1 <= 6
  /\ (mIsFinished (fst st1) = true ->
      mIsFinished (fst st2) = true
      /\ mDecoder (fst st2) = mDecoder (fst st1)
      /\ dReads (mDecoder (fst st2)) = dReads (mDecoder (fst st1))).
Proof.
  intros H st1 st2. split.
  - split; [unfold queued_buffers, alGetSource_BUFFERS_QUEUED; lia|].
    apply feeder_run_keeps, H.
  - intros Hf. subst st2. rewrite (feeder_run_frozen evs2 st1 Hf). auto.
Qed.

(** *** Buffers and voices under the AL calls of the loop *)

Lemma alBuffers_record_error err e : alBuffers (al_record_error err e) = alBuffers e.
Proof. unfold al_record_error. destruct (alError e =? AL_NO_ERROR); reflexivity. Qed.

Lemma alSources_record_error err e : alSources (al_record_error err e) = alSources e.
Proof. unfold al_record_error. destruct (alError e =? AL_NO_ERROR); reflexivity. Qed.

Lemma alBuffers_update_source src f e : alBuffers (al_update_source src f e) = alBuffers e.
Proof.
  unfold al_update_source. destruct (alSources e !! src); [reflexivity|].
  apply alBuffers_record_error.
Qed.

Lemma update_source_exists src src' f e :
  is_Some (alSources e !! src') -> is_Some (alSources (al_update_source src f e) !! src').
Proof.
  unfold al_update_source. destruct (alSources e !! src) eqn:H.
  - cbn. intros Hs. destruct (decide (src = src')) as [->|Hne].
    + rewrite lookup_insert_eq. eauto.
    + rewrite lookup_insert_ne by done. exact Hs.
  - rewrite alSources_record_error. auto.
Qed.

Lemma unqueue_buffers src e : alBuffers (alSourceUnqueueBuffers1 src e) = alBuffers e.
Proof.
  unfold alSourceUnqueueBuffers1. destruct (0 <? _);
    [apply alBuffers_update_source | apply alBuffers_record_error].
Qed.

Lemma unqueue_exists src e :
  is_Some (alSources e !! src) -> is_Some (alSources (alSourceUnqueueBuffers1 src e) !! src).
Proof.
  unfold alSourceUnqueueBuffers1. destruct (0 <? _);
    [apply update_source_exists | by rewrite alSources_record_error].
Qed.

Lemma unqueueLoop_keeps n : forall s e e',
  SoundStream.unqueueLoop n (s, e) = (Ok tt, (s, e')) ->
  alBuffers e' = alBuffers e
  /\ (is_Some (alSources e !! mSource s) -> is_Some (alSources e' !! mSource s)).
Proof.
  induction n as [|n IH]; intros s e e'; cbn [SoundStream.unqueueLoop].
  - intros [= <-]. auto.
  - unfold SoundStream.this at 1. rewrite bind_gets. cbv beta. rewrite bind_al. cbv beta.
    cbn [fst snd env_of env_set pair_HasEnv Env_HasEnv id].
    intros H. apply IH in H as [Hb Hs]. rewrite unqueue_buffers in Hb.
    split; [exact Hb|]. intros Hex. apply Hs, unqueue_exists, Hex.
Qed.

Lemma alBufferData_lookup b data e b' :
  is_Some (alBuffers e !! b') ->
  alBuffers (alBufferData b data e) !! b'
  = if decide (b = b') then Some data else alBuffers e !! b'.
Proof.
  intros Hex. unfold alBufferData. destruct (alBuffers e !! b) eqn:Hb.
  - cbn. destruct (decide (b = b')) as [->|Hne];
      [apply lookup_insert_eq | by apply lookup_insert_ne].
  - rewrite alBuffers_record_error. destruct (decide (b = b')) as [->|]; [|reflexivity].
    rewrite Hb in Hex. by destruct Hex.
Qed.

Lemma alSources_alBufferData b data e : alSources (alBufferData b data e) = alSources e.
Proof.
  unfold alBufferData. destruct (alBuffers e !! b); [reflexivity|].
  apply alSources_record_error.
Qed.

Lemma queue_buffer_spec data s e :
  is_Some (alSources e !! mSource s) ->
  let st' := queue_buffer data (s, e) in
  is_Some (alSources (snd st') !! mSource s)
  /\ sQueue (al_source (mSource s) (snd st')) = sQueue (al_source (mSource s) e) ++ [ring_buffer s]
  /\ (forall b, is_Some (alBuffers e !! b) ->
        alBuffers (snd st') !! b
        = if decide (ring_buffer s = b) then Some data else alBuffers e !! b)
  /\ mDecoder (fst st') = mDecoder s /\ mIsFinished (fst st') = mIsFinished s
  /\ mSource (fst st') = mSource s /\ mSilence (fst st') = mSilence s.
Proof.
  intros Hex. cbn zeta. unfold queue_buffer. cbn [fst snd]. fold (ring_buffer s).
  unfold alSourceQueueBuffers1.
  split; [apply update_source_exists; by rewrite alSources_alBufferData|].
  split.
  { rewrite al_source_update. rewrite alSources_alBufferData.
    unfold al_source. destruct Hex as [v ->]. reflexivity. }
  split.
  { intros b Hb. rewrite alBuffers_update_source. by apply alBufferData_lookup. }
  repeat split.
Qed.

Lemma dReads_served_n n : forall d, dReads (served_n n d) = (dReads d + n)%nat.
Proof. induction n as [|n IH]; intros d; cbn; [lia|]. rewrite IH. cbn. lia. Qed.

Lemma dReadScript_served_n n : forall d, dReadScript (served_n n d) = drop n (dReadScript d).
Proof.
  induction n as [|n IH]; intros d; cbn [served_n]; [by rewrite drop_0|].
  rewrite IH. cbn. destruct (dReadScript d); [by destruct n | reflexivity].
Qed.

Lemma refillLoop_fulls_then_short (short : list byte) (rest : list ReadOutcome) (size : nat)
    (Hshort : (length short < size)%nat) (fulls : list (list byte)) :
  forall fuel data queued s e,
    mIsFinished s = false -> length data = size ->
    0 <= queued -> queued + Z.of_nat (length fulls) < 6 ->
    (length fulls < fuel)%nat ->
    dReadScript (mDecoder s) = map ReadBytes fulls ++ ReadBytes short :: rest ->
    Forall (fun b => (size <= length b)%nat) fulls ->
    is_Some (alSources e !! mSource s) ->
    exists st',
      SoundStream.refillLoop fuel data queued (s, e)
      = (Ok (queued + Z.of_nat (length fulls) + 1), st')
      /\ after_short_read short size (length fulls) s e st'.
Proof.
  induction fulls as [|full fulls IH]; intros fuel data queued s e Hf Hd Hq Hroom Hfuel Hscript
    Hfull Hex.
  - destruct fuel as [|fuel]; [cbn in Hfuel; lia|].
    cbn [map app length] in *.
    assert (Hread : fst (Decoder_read (Z.of_nat (length data)) (mDecoder s)) = Ok short).
    { unfold Decoder_read. rewrite Hscript. cbn [fst]. rewrite Nat2Z.id, Hd.
      rewrite firstn_all2 by lia. reflexivity. }
    rewrite (refillLoop_round fuel data queued s e short Hf ltac:(lia) Hread).
    cbn zeta.
    assert (Hlen1 : length (short ++ skipn (length short) data) = size).
    { rewrite length_app, length_skipn. lia. }
    rewrite Hlen1. replace (length short <? size)%nat with true
      by (symmetry; apply Nat.ltb_lt; exact Hshort).
    assert (Hpad : SoundStream.memset_tail (short ++ skipn (length short) data)
                     (length short) (mSilence s) = padded short size (mSilence s)).
    { unfold SoundStream.memset_tail, padded. rewrite Hlen1.
      rewrite firstn_app, Nat.sub_diag, firstn_all. cbn [firstn]. by rewrite app_nil_r. }
    rewrite Hpad.
    destruct (0 <? length short)%nat eqn:Hpos.
    + apply Nat.ltb_lt in Hpos.
      set (s2 := set_mIsFinished true (set_mDecoder (served (mDecoder s)) s)).
      destruct (queue_buffer_spec (padded short size (mSilence s)) s2 e Hex)
        as (Hex' & Hqueue & Hbuf & Hdec & Hfin & Hsrc & Hsil).
      destruct (queue_buffer (padded short size (mSilence s)) (s2, e)) as [s3 e3] eqn:Hqb.
      cbn [fst snd] in *.
      rewrite refillLoop_stop by (left; exact Hfin).
      eexists. split; [f_equal; f_equal; lia|].
      unfold after_short_read. cbn [fst snd served_n].
      split; [exact Hfin|]. split; [exact Hdec|]. split; [exact Hsrc|].
      change (mSource s2) with (mSource s) in *.
      split; [rewrite Hqueue, length_app; destruct (length short); cbn; lia|].
      split.
      { intros b Hb. rewrite Hbuf by done. case_decide; eauto. }
      intros _. exists (ring_buffer s2). split; [rewrite Hqueue; apply last_snoc|].
      intros Hb. rewrite Hbuf by done. rewrite decide_True by done. reflexivity.
    + apply Nat.ltb_ge in Hpos.
      rewrite refillLoop_stop by (left; reflexivity).
      eexists. split; [f_equal; f_equal; lia|].
      unfold after_short_read. cbn [fst snd served_n].
      repeat split; try done.
        * replace (0 <? length short)%nat with false by (symmetry; apply Nat.ltb_ge; lia). lia.
      * lia.
  - destruct fuel as [|fuel]; [cbn in Hfuel; lia|].
    cbn [map app length] in *.
    apply Forall_cons in Hfull as [Hfull1 Hfull].
    assert (Hread : fst (Decoder_read (Z.of_nat (length data)) (mDecoder s))
                    = Ok (firstn size full)).
    { unfold Decoder_read. rewrite Hscript. cbn [fst]. rewrite Nat2Z.id, Hd. reflexivity. }
    assert (Hlenf : length (firstn size full) = size) by (rewrite length_firstn; lia).
    rewrite (refillLoop_round fuel data queued s e _ Hf ltac:(lia) Hread).
    cbn zeta. rewrite Hlenf.
    assert (Hdata1 : firstn size full ++ skipn size data = firstn size full).
    { rewrite skipn_all2 by lia. apply app_nil_r. }
    rewrite Hdata1, Hlenf, Nat.ltb_irrefl.
    replace (0 <? size)%nat with true by (symmetry; apply Nat.ltb_lt; lia).
    set (s1 := set_mDecoder (served (mDecoder s)) s).
    destruct (queue_buffer_spec (firstn size full) s1 e Hex)
      as (Hex' & Hqueue & Hbuf & Hdec & Hfin & Hsrc & Hsil).
    destruct (queue_buffer (firstn size full) (s1, e)) as [s3 e3] eqn:Hqb.
    cbn [fst snd] in *. change (mSource s1) with (mSource s) in *.
    destruct (IH fuel (firstn size full) (queued + 1) s3 e3) as (st' & Hrun & Hafter);
      try done; try lia.
    { rewrite Hfin. exact Hf. }
    { rewrite Hdec. cbn. rewrite Hscript. reflexivity. }
    { rewrite Hsrc. exact Hex'. }
    exists st'. split; [rewrite Hrun; f_equal; f_equal; lia|].
    destruct Hafter as (A1 & A2 & A3 & A4 & A5 & A6).
    rewrite Hsrc, Hsil in *.
    unfold after_short_read. split; [exact A1|].
    split; [rewrite A2, Hdec; reflexivity|]. split; [exact A3|].
    split; [rewrite A4, Hqueue, length_app; cbn; lia|].
    assert (Hdom : forall b, is_Some (alBuffers e !! b) -> is_Some (alBuffers e3 !! b)).
    { intros b Hb. rewrite Hbuf by done. case_decide; eauto. }
    split; [intros b Hb; apply A5, Hdom, Hb|].
    intros Hpos. destruct (A6 Hpos) as (bufid & Hlast & Hcontent).
    exists bufid. split; [exact Hlast|]. intros Hb. apply Hcontent, Hdom, Hb.
Qed.

Section Ctor.
Variable framesToBytes : Z -> ChannelConfig -> SampleType -> Z.
Variable getChannelConfigName : ChannelConfig -> string.
Variable getSampleTypeName : SampleType -> string.

Local Abbreviation new :=
  (OpenAL_SoundStream_new framesToBytes getChannelConfigName getSampleTypeName).

Lemma new_inv src decoder e s e' :
  new src decoder e = (Ok s, e') ->
  exists srate chans type,
    dInfo decoder = Ok (srate, chans, type)
    /\ mSource s = src
    /\ mDecoder s = decoder
    /\ mIsFinished s = false
    /\ mCurrentBufIdx s = 0
    /\ mSampleRate s = srate
    /\ mSilence s = switch_fallthrough silence_cases false type 0
    /\ mFrameSize s = ALuint_wrap (framesToBytes 1 chans type)
    /\ mBufferSize s =
         ALuint_wrap (static_cast_ALuint (F32.mul sBufferLength (F32.of_int srate))
                      * ALuint_wrap (framesToBytes 1 chans type))
    /\ mBuffers s = fst (alGenBuffers (Z.to_nat sNumBuffers) e).
Proof.
  unfold OpenAL_SoundStream_new, bind, try_catch, Decoder_getInfo.
  destruct (alGenBuffers (Z.to_nat sNumBuffers) e) as [names e1] eqn:Hgen.
  destruct (throwALerror e1) as [[[]|ex] e2]; [|discriminate].
  destruct (dInfo decoder) as [[[srate chans] type]|ex] eqn:Hinfo.
  - destruct (getALFormat getChannelConfigName getSampleTypeName chans type e2)
      as [[format|ex] e3].
    + unfold ret. intros [= <- <-]. exists srate, chans, type. cbn. tauto.
    + unfold al, modify, throw. discriminate.
  - unfold al, modify, throw. discriminate.
Qed.

Lemma switch_silence_zero type : switch_fallthrough silence_cases false type 0 = 0.
Proof. destruct type; reflexivity. Qed.

(** C8: whatever sample type the decoder reports, a feeder that is
    constructed has the silence value 0, so the padding of a short
    read is made of zero bytes, for unsigned 8-bit samples too. *)
Theorem silence_value_is_zero src decoder e s e' :
  new src decoder e = (Ok s, e') ->
  (exists srate chans type, dInfo decoder = Ok (srate, chans, type))
  /\ mSilence s = 0
  /\ forall data got,
       SoundStream.memset_tail data got (mSilence s)
       = firstn got data ++ repeat x00 (length data - got).
Proof.
  intros H. destruct (new_inv _ _ _ _ _ H) as (srate & chans & type & Hi & _ & _ & _ & _ & _ & Hs & _).
  rewrite switch_silence_zero in Hs. split; [eauto|]. split; [done|].
  intros data got. unfold SoundStream.memset_tail. rewrite Hs. reflexivity.
Qed.

(** C2, as amended: for a sample rate in [0, 2^24) the buffer size is
    the integer part of 0.125 x sampleRate, that is sampleRate / 8
    rounded down, times the frame size (as an [ALuint]). *)
Theorem buffer_size_truncates src decoder e s e' srate chans type :
  dInfo decoder = Ok (srate, chans, type) ->
  0 <= srate < 2 ^ 24 ->
  new src decoder e = (Ok s, e') ->
  mFrameSize s = ALuint_wrap (framesToBytes 1 chans type)
  /\ mBufferSize s = ALuint_wrap (srate / 8 * mFrameSize s).
Proof.
  intros Hi Hr H.
  destruct (new_inv _ _ _ _ _ H) as (srate' & chans' & type' & Hi' & _ & _ & _ & _ & _ & _ & Hf & Hb & _).
  rewrite Hi in Hi'. injection Hi' as <- <- <-.
  split; [done|]. rewrite Hb, Hf, static_cast_eighth by done. reflexivity.
Qed.
End Ctor.



(** C3: a [refillQueue] call on an unfinished feeder whose reads return
    some full buffers and then [got < bufferSize] bytes returns the
    number of rounds made, pads the last buffer with the silence value
    from position [got] on, queues it exactly when [got > 0], sets the
    finished flag, and no later event reads the decoder again. *)
Theorem short_read_pads_enqueues_and_finishes (s : OpenAL_SoundStream) (e : Env)
    (fulls : list (list byte)) (short : list byte) (rest : list ReadOutcome) :
  let size := Z.to_nat (mBufferSize s) in
  let src := mSource s in
  let e1 := snd (snd (SoundStream.unqueueLoop
                        (Z.to_nat (alGetSource_BUFFERS_PROCESSED src e)) (s, e))) in
  let queued := length (sQueue (al_source src e1)) in
  mIsFinished s = false ->
  is_Some (alSources e !! src) ->
  dReadScript (mDecoder s) = map ReadBytes fulls ++ ReadBytes short :: rest ->
  Forall (fun b => (size <= length b)%nat) fulls ->
  (length short < size)%nat ->
  (queued + length fulls < 6)%nat ->
  exists st',
    SoundStream.refillQueue (s, e) = (Ok (Z.of_nat (queued + length fulls + 1)), st')
    /\ mIsFinished (fst st') = true
    /\ dReads (mDecoder (fst st')) = (dReads (mDecoder s) + length fulls + 1)%nat
    /\ dReadScript (mDecoder (fst st')) = rest
    /\ length (sQueue (al_source src (snd st')))
       = (queued + length fulls + (if (0 <? length short)%nat then 1 else 0))%nat
    /\ ((0 < length short)%nat ->
        exists bufid,
          last (sQueue (al_source src (snd st'))) = Some bufid
          /\ (is_Some (alBuffers e !! bufid) ->
              alBuffers (snd st') !! bufid
              = Some (short ++ repeat (byte_of_Z (mSilence s)) (size - length short))))
    /\ forall evs : list FeederEvent,
         mDecoder (fst (feeder_run evs st')) = mDecoder (fst st').
Proof.
  intros size src e1 queued Hf Hex Hscript Hfull Hshort Hroom.
  destruct (refillQueue_unfold s e) as (e1' & _ & Hun & Hrq).
  assert (He1 : e1 = e1') by (unfold e1, src; rewrite Hun; reflexivity).
  clearbody e1. subst e1'.
  destruct (unqueueLoop_keeps _ _ _ _ Hun) as [Hbufs Hsrc].
  fold src in Hrq. fold (qlen src e1) in queued.
  rewrite Hrq, Hf. cbn [negb andb].
  replace (ALuint_wrap (Z.of_nat (qlen src e1)) <? sNumBuffers) with true
    by (symmetry; apply Z.ltb_lt; unfold ALuint_wrap, sNumBuffers; rewrite Z.mod_small;
        subst queued; lia).
  assert (Hroom' : (qlen src e1 + length fulls < 6)%nat) by exact Hroom.
  destruct (refillLoop_fulls_then_short short rest size Hshort fulls (Z.to_nat sNumBuffers)
              (repeat x00 (Z.to_nat (mBufferSize s))) (Z.of_nat (qlen src e1)) s e1)
    as (st' & Hrun & Hfin & Hdec & Hsrc' & Hq & Hdom & Hcontent).
  { exact Hf. }
  { apply repeat_length. }
  { lia. }
  { lia. }
  { change (Z.to_nat sNumBuffers) with 6%nat. lia. }
  { exact Hscript. }
  { exact Hfull. }
  { apply Hsrc, Hex. }
  exists st'. split; [rewrite Hrun; f_equal; f_equal; subst queued; lia|].
  split; [exact Hfin|].
  split; [rewrite Hdec, dReads_served_n; lia|].
  split.
  { rewrite Hdec, dReadScript_served_n, Hscript.
    replace (map ReadBytes fulls ++ ReadBytes short :: rest)
      with ((map ReadBytes fulls ++ [ReadBytes short]) ++ rest)
      by (rewrite <- app_assoc; reflexivity).
    rewrite drop_app_length'; [reflexivity|]. rewrite length_app, length_map. cbn. lia. }
  split.
  { fold src in Hq. rewrite Hq. subst queued. unfold qlen.
    destruct (0 <? length short)%nat; reflexivity. }
  split.
  { intros Hpos. destruct (Hcontent Hpos) as (bufid & Hlast & Hc).
    exists bufid. split; [exact Hlast|]. intros Hb. apply Hc. rewrite Hbufs. exact Hb. }
  intros evs. rewrite (feeder_run_frozen evs st' Hfin). reflexivity.
Qed.

(** C3 on a decoder delivering one full buffer and two more bytes. *)
Lemma short_read_witness :
  exists st',
    SoundStream.refillQueue
      (Demo.feeder [ReadBytes [x01; x02; x03; x04; x05]; ReadBytes [x06; x07]], Demo.env)
    = (Ok 2, st')
    /\ mIsFinished (fst st') = true
    /\ dReads (mDecoder (fst st')) = 2%nat
    /\ length (sQueue (al_source 1 (snd st'))) = 2%nat.
Proof.
  destruct (short_read_pads_enqueues_and_finishes
              (Demo.feeder [ReadBytes [x01; x02; x03; x04; x05]; ReadBytes [x06; x07]])
              Demo.env [[x01; x02; x03; x04; x05]] [x06; x07] [])
    as (st' & Hrun & Hfin & Hreads & _ & Hlen & _).
  - reflexivity.
  - vm_compute. eauto.
  - reflexivity.
  - repeat constructor.
  - vm_compute. lia.
  - vm_compute. lia.
  - exists st'. split; [exact Hrun|]. split; [exact Hfin|]. split; [exact Hreads|].
    exact Hlen.
Defined.

(** C2, as stated, fails: at 44100 Hz the constructor computes 5512
    sample frames per buffer, not the 5513 that rounding to nearest
    gives. *)
Lemma buffer_size_is_not_rounded :
  Demo.built 44100 SampleType_UInt8
  = (Ok (Demo.built_stream 44100 SampleType_UInt8), snd (Demo.built 44100 SampleType_UInt8))
  /\ mSampleRate (Demo.built_stream 44100 SampleType_UInt8) = 44100
  /\ mBufferSize (Demo.built_stream 44100 SampleType_UInt8) = 5512
  /\ ~ buffer_size_is_rounded (Demo.built_stream 44100 SampleType_UInt8).
Proof.
  split; [vm_compute; reflexivity|]. split; [vm_compute; reflexivity|].
  split; [vm_compute; reflexivity|]. vm_compute. discriminate.
Qed.

(** The amended C2 at 44100 Hz, 8-bit mono. *)
Lemma buffer_size_truncates_witness :
  mFrameSize (Demo.built_stream 44100 SampleType_UInt8) = 1
  /\ mBufferSize (Demo.built_stream 44100 SampleType_UInt8) = 5512.
Proof.
  destruct (buffer_size_truncates Demo.framesToBytes Demo.channelName Demo.sampleName 1
              (Demo.decoder 44100 SampleType_UInt8 []) Demo.env
              (Demo.built_stream 44100 SampleType_UInt8)
              (snd (Demo.built 44100 SampleType_UInt8))
              44100 ChannelConfig_Mono SampleType_UInt8) as [Hf Hb].
  - reflexivity.
  - lia.
  - vm_compute. reflexivity.
  - split; [rewrite Hf; reflexivity | rewrite Hb, Hf; reflexivity].
Defined.

(** C8 on an unsigned 8-bit decoder. *)
Lemma silence_value_is_zero_witness :
  mSilence (Demo.built_stream 8000 SampleType_UInt8) = 0
  /\ SoundStream.memset_tail [x01; x02; x03; x04] 1
       (mSilence (Demo.built_stream 8000 SampleType_UInt8))
     = [x01; x00; x00; x00].
Proof.
  destruct (silence_value_is_zero Demo.framesToBytes Demo.channelName Demo.sampleName 1
              (Demo.decoder 8000 SampleType_UInt8 []) Demo.env
              (Demo.built_stream 8000 SampleType_UInt8)
              (snd (Demo.built 8000 SampleType_UInt8))) as (_ & Hs & Hpad).
  - vm_compute. reflexivity.
  - split; [exact Hs|]. rewrite Hpad. reflexivity.
Defined.

(** C4 on a short stream that is processed, played out and processed
    again. *)
Lemma feeder_invariant_witness :
  let st1 := feeder_run [CallProcess; HwFinishBuffer]
               (Demo.feeder [ReadBytes [x01; x02]], Demo.env) in
  let st2 := feeder_run [CallProcess; CallRefillQueue] st1 in
  0 <= queued_buffers st1 <= 6
  /\ (mIsFinished (fst st1) = true ->
      mIsFinished (fst st2) = true
      /\ mDecoder (fst st2) = mDecoder (fst st1)
      /\ dReads (mDecoder (fst st2)) = dReads (mDecoder (fst st1))).
Proof.
  apply (feeder_queue_and_finish_invariant
           (Demo.feeder [ReadBytes [x01; x02]], Demo.env)
           [CallProcess; HwFinishBuffer] [CallProcess; CallRefillQueue]).
  vm_compute. discriminate.
Defined.

(** C5 on three rounds over a queue of two jobs. *)
Lemma one_job_per_round_witness :
  exists w' calls,
    Thread.rounds 3 (Demo.world [(Demo.broken, 11); (Demo.broken, 12)]) = (Ok tt, w')
    /\ mDecoderLoudness (wThread w') = []
    /\ wLoudness w' = calls
    /\ map lcSink calls = [11; 12]
    /\ length calls = 2%nat.
Proof.
  destruct (one_job_per_round_fifo (Demo.world [(Demo.broken, 11); (Demo.broken, 12)]))
    as [_ H].
  destruct (H 3%nat eq_refl) as (w' & calls & H1 & H2 & H3 & H4 & H5).
  exists w', calls. repeat split; assumption.
Defined.

(** C6 on a job whose [getInfo] throws. *)
Lemma failed_job_witness :
  exists w',
    Thread.iteration (Demo.world [(Demo.broken, 11); (Demo.broken, 12)])
    = (Ok Thread.Continue, w')
    /\ mDecoderLoudness (wThread w') = [(Demo.broken, 12)]
    /\ wLoudness w'
       = [mkLoudnessCall 11 [] 48000 ChannelConfig_Mono SampleType_Int16 (F32.of_int 20)]
    /\ last (console (wEnv w')) = Some "Failed to decode audio: no such file"%string.
Proof.
  destruct (failed_loudness_job_is_completed
              (Demo.world [(Demo.broken, 11); (Demo.broken, 12)])
              Demo.broken 11 [(Demo.broken, 12)] (std_exception "no such file"))
    as (w' & H1 & H2 & H3 & H4 & _).
  - reflexivity.
  - left. reflexivity.
  - exists w'. repeat split; assumption.
Defined.

(** C7: the claim fails on [streamSound] and [streamSound3D].  With
    [Play_Loop] set in the flags and a decoder whose [getName()]
    throws, the request takes voice 1 from the free list and throws
    from the loop warning, before its [try]: the voice is not pushed
    back, and it is lent to no sound or stream either. *)
Theorem loop_warning_loses_the_voice :
  let w := Demo.world [] in
  let decoder := Demo.decoder 32 SampleType_UInt8 [] in
  let lost := with_output (Output.set_mFreeSources (drop 1)) w in
  Output.streamSound Demo.framesToBytes Demo.channelName Demo.sampleName 1 2 Demo.nameless
    decoder Output.f1 Output.f1 1 w = (Throw (runtime_error "getName"), lost)
  /\ Output.streamSound3D Demo.framesToBytes Demo.channelName Demo.sampleName 1 2
       Demo.nameless decoder Output.origin Output.f1 Output.f1 Output.f1 Output.f1
       Output.f1000 1 w = (Throw (runtime_error "getName"), lost)
  /\ mFreeSources (wOutput w) = [1]
  /\ mFreeSources (wOutput lost) = []
  /\ mActiveSounds (wOutput lost) = []
  /\ mActiveStreams (wOutput lost) = []
  /\ mStreams (wThread lost) = [].
Proof.
  intros w decoder lost.
  destruct (stream_requests_lose_the_voice Demo.framesToBytes Demo.channelName
              Demo.sampleName 1 2 Demo.nameless decoder 1 (runtime_error "getName") w 1 [])
    as [Hs Hs3]; try reflexivity.
  split; [apply Hs|]. split; [apply Hs3|]. repeat split.
Qed.

(** C10 on the stopped sound of the demo world. *)
Lemma stopped_handles_witness :
  Output.getStreamDelay 7 (Demo.world []) = (Ok F64.zero, Demo.world [])
  /\ Output.getStreamOffset 7 (Demo.world []) = (Ok F64.zero, Demo.world [])
  /\ Output.isSoundPlaying 7 (Demo.world []) = (Ok false, Demo.world [])
  /\ Output.isStreamPlaying 7 (Demo.world []) = (Ok false, Demo.world [])
  /\ Output.stopSound 7 (Demo.world []) = (Ok tt, Demo.world [])
  /\ Output.stopStream 7 (Demo.world []) = (Ok tt, Demo.world []).
Proof.
  apply (stopped_handles_are_inert (Demo.world []) 7). vm_compute. reflexivity.
Defined.

(* ===================================================================== *)
(** * Further properties *)

Lemma ledger_env_set e w : ledger (env_set e w) = ledger w.
Proof. reflexivity. Qed.
Lemma ledger_with_env f w : ledger (with_env f w) = ledger w.
Proof. reflexivity. Qed.

Ltac ledger_step :=
  rewrite bind_al; cbv beta;
  match goal with
  | |- context [@env_set World _ ?e ?s] =>
      let H := fresh "Hledger" in
      let s' := fresh "w" in
      pose proof (ledger_env_set e s) as H;
      remember (@env_set World _ e s) as s' eqn:E in *; clear E
  end.

Ltac run_ledger := repeat first [ledger_step | rewrite bind_gets; cbv beta].

Lemma ledger_inv w w' :
  ledger w' = ledger w ->
  wOutput w' = wOutput w /\ wThread w' = wThread w /\ wSounds w' = wSounds w
  /\ wStreams w' = wStreams w /\ wNextAddr w' = wNextAddr w /\ wLoudness w' = wLoudness w.
Proof. unfold ledger. intros [= -> -> -> -> -> ->]. repeat split. Qed.

Section PlaySpec.
Variable Play_Loop Play_NoEnv : Z.

Lemma playSound_started data vol basevol pitch flags offset w source rest sound w' :
  mFreeSources (wOutput w) = source :: rest ->
  Output.playSound Play_Loop Play_NoEnv data vol basevol pitch flags offset w = (Ok sound, w') ->
  sound_started w source sound w'.
Proof.
  intros H. unfold Output.playSound. unfold bind at 1.
  rewrite (takeFreeSource_cons _ _ _ H). unfold try_catch.
  run_ledger. destruct (Output.underwater _ _ _ _ _) as [gain pitch'].
  run_ledger. rewrite bind_throwALerror.
  match goal with |- context [if ?c then _ else _] => destruct c end.
  - match goal with |- context [@env_set World _ ?e ?s] =>
      pose proof (ledger_env_set e s) as Hlast;
      remember (@env_set World _ e s) as wl eqn:E in *; clear E end.
    assert (Hl : ledger wl = ledger (with_output (Output.set_mFreeSources (drop 1)) w))
      by congruence.
    apply ledger_inv in Hl. destruct Hl as (Ho & Ht & Hs & Hst & Hn & _).
    cbv beta iota delta [bind Output.new_sound new_addr modify ret].
    intros [= <- <-]. unfold sound_started, Output.handle_of.
    cbn [wOutput wThread wSounds wStreams wNextAddr with_output with_sounds with_next_addr
         mFreeSources mActiveSounds mActiveStreams Output.set_mActiveSounds
         Output.set_mFreeSources] in *.
    rewrite Ho, Ht, Hs, Hst, Hn. cbn.
    rewrite lookup_insert_eq. cbn.
    repeat split; try reflexivity.
    intros other Hne. rewrite lookup_insert_ne by done. reflexivity.
  - unfold Output.giveBack. rewrite bind_modify. cbv beta. unfold throw. discriminate.
Qed.

Lemma playSound3D_started data pos vol basevol pitch mindist maxdist flags offset
    w source rest sound w' :
  mFreeSources (wOutput w) = source :: rest ->
  Output.playSound3D Play_Loop Play_NoEnv data pos vol basevol pitch mindist maxdist flags
    offset w = (Ok sound, w') ->
  sound_started w source sound w'.
Proof.
  intros H. unfold Output.playSound3D. unfold bind at 1.
  rewrite (takeFreeSource_cons _ _ _ H). unfold try_catch.
  run_ledger. cbv zeta. destruct (Output.underwater _ _ _ _ _) as [gain pitch'].
  run_ledger. rewrite bind_throwALerror.
  match goal with |- context [if ?c then _ else _] => destruct c end.
  - match goal with |- context [@env_set World _ ?e ?s] =>
      pose proof (ledger_env_set e s) as Hlast;
      remember (@env_set World _ e s) as wl eqn:E in *; clear E end.
    assert (Hl : ledger wl = ledger (with_output (Output.set_mFreeSources (drop 1)) w))
      by congruence.
    apply ledger_inv in Hl. destruct Hl as (Ho & Ht & Hs & Hst & Hn & _).
    cbv beta iota delta [bind Output.new_sound new_addr modify ret].
    intros [= <- <-]. unfold sound_started, Output.handle_of.
    cbn [wOutput wThread wSounds wStreams wNextAddr with_output with_sounds with_next_addr
         mFreeSources mActiveSounds mActiveStreams Output.set_mActiveSounds
         Output.set_mFreeSources] in *.
    rewrite Ho, Ht, Hs, Hst, Hn. cbn.
    rewrite lookup_insert_eq. cbn.
    repeat split; try reflexivity.
    intros other Hne. rewrite lookup_insert_ne by done. reflexivity.
  - unfold Output.giveBack. rewrite bind_modify. cbv beta. unfold throw. discriminate.
Qed.
End PlaySpec.

Lemma ledger2_env_set e (s : Output.StreamLocals * World) : ledger2 (env_set e s) = ledger2 s.
Proof. reflexivity. Qed.

Ltac ledger_step2 :=
  rewrite bind_al; cbv beta;
  match goal with
  | |- context [@env_set (Output.StreamLocals * World) ?I ?e ?s] =>
      let H := fresh "Hledger" in
      let s' := fresh "st" in
      pose proof (ledger2_env_set e s) as H;
      remember (@env_set (Output.StreamLocals * World) I e s) as s' eqn:E in *; clear E
  end.

Ltac run_ledger2 := repeat first [ledger_step2 | rewrite bind_gets; cbv beta].

Section StreamSpec.
Variable framesToBytes : Z -> ChannelConfig -> SampleType -> Z.
Variable getChannelConfigName : ChannelConfig -> string.
Variable getSampleTypeName : SampleType -> string.
Variable Play_Loop Play_NoEnv : Z.
Variable getName : Decoder -> Result string.

Lemma registerStream_ok source decoder s0 l w l' w' :
  Output.registerStream framesToBytes getChannelConfigName getSampleTypeName
    source decoder s0 (l, w) = (Ok tt, (l', w')) ->
  let p := wNextAddr w in
  let q := wNextAddr w + 1 in
  exists feeder e',
    OpenAL_SoundStream_new framesToBytes getChannelConfigName getSampleTypeName
      source decoder (wEnv w) = (Ok feeder, e')
    /\ l' = Output.mkStreamLocals p q
    /\ wOutput w' = Output.set_mActiveStreams (fun l => l ++ [p]) (wOutput w)
    /\ wThread w' = Thread.add q (wThread w)
    /\ wStreams w' = <[q := feeder]> (wStreams w)
    /\ wSounds w' = alter (set_mHandle q) p (<[p := s0]> (wSounds w)).
Proof.
  unfold Output.registerStream.
  unfold bind at 1. unfold Output.world at 1.
  cbv beta iota delta [Output.new_sound bind new_addr modify ret fst snd].
  unfold Output.world at 1. unfold Output.new_stream.
  cbv beta iota delta [bind fst snd].
  cbn [wEnv with_sounds with_next_addr].
  destruct (OpenAL_SoundStream_new _ _ _ _ _ _) as [[s|ex'] e']; [|discriminate].
  cbv beta iota delta [new_addr modify ret Output.world bind fst snd].
  intros [= <- <-]. cbn zeta. exists s, e'. repeat split.
Qed.

Lemma with_stream_locals_ok body w sound w' :
  Output.with_stream_locals body w = (Ok sound, w') ->
  exists l, body (Output.mkStreamLocals 0 0, w) = (Ok tt, (l, w')) /\ sound = Output.sound l.
Proof.
  unfold Output.with_stream_locals.
  destruct (body _) as [[[]|ex] [l w1]]; [|discriminate].
  intros [= <- <-]. eauto.
Qed.

Lemma new_inv' src decoder e s e' :
  OpenAL_SoundStream_new framesToBytes getChannelConfigName getSampleTypeName src decoder e
  = (Ok s, e') -> mSource s = src /\ mIsFinished s = false.
Proof.
  intros H. destruct (new_inv _ _ _ _ _ _ _ _ H) as (? & ? & ? & _ & Hs & _ & Hf & _). auto.
Qed.

Lemma stream_started_intro w w1 stL source rest l' w' s0 :
  mFreeSources (wOutput w) = source :: rest ->
  ledger w1 = ledger (with_output (Output.set_mFreeSources (drop 1)) w) ->
  ledger2 stL = (Output.mkStreamLocals 0 0, ledger w1) ->
  Output.registerStream framesToBytes getChannelConfigName getSampleTypeName
    source (fst s0) (snd s0) stL = (Ok tt, (l', w')) ->
  stream_started w source (Output.sound l') w'.
Proof.
  intros H Hw1 HstL Hreg. destruct stL as [l wl].
  unfold ledger2 in HstL. cbn [fst snd] in HstL.
  assert (l = Output.mkStreamLocals 0 0 /\ ledger wl = ledger w1) as [-> Hl]
    by (split; congruence).
  rewrite Hw1 in Hl. apply ledger_inv in Hl. destruct Hl as (Ho & Ht & Hs & Hst & Hn & _).
  apply registerStream_ok in Hreg. cbn zeta in Hreg.
  destruct Hreg as (feeder & e' & Hnew & -> & Ho' & Ht' & Hst' & Hs').
  apply new_inv' in Hnew as [Hsrc Hfin].
  unfold stream_started, Output.handle_of. cbn zeta.
  cbn [wOutput wThread wSounds wStreams wNextAddr with_output] in *.
  rewrite Ho', Ht', Hst', Hs', Ho, Ht, Hst, Hn. cbn [Output.sound].
  split; [reflexivity|]. split; [reflexivity|]. split; [reflexivity|]. split; [reflexivity|].
  split.
  { rewrite lookup_alter_eq, lookup_insert_eq. reflexivity. }
  split; [reflexivity|]. split.
  { exists feeder. rewrite lookup_insert_eq. auto. }
  intros other Hne. rewrite lookup_insert_ne by done. reflexivity.
Qed.

(** The loop warning returns, changing the console at most, or throws
    and changes nothing. *)
Lemma warnLoop_ledger decoder flags w :
  (exists w', Output.warnLoop Play_Loop getName decoder flags w = (Ok tt, w')
              /\ ledger w' = ledger w)
  \/ (exists ex, Output.warnLoop Play_Loop getName decoder flags w = (Throw ex, w)).
Proof.
  unfold Output.warnLoop, when. destruct (Output.has_flag flags Play_Loop).
  - unfold bind at 1 2. destruct (getName decoder) as [name|ex].
    + left. eexists. split; reflexivity.
    + right. by exists ex.
  - left. exists w. split; reflexivity.
Qed.

Lemma unregisterStream_throws source ex st :
  exists st', Output.unregisterStream source ex st = (Throw ex, st').
Proof.
  destruct (unregisterStream_spec source ex st) as (w' & H & _). eauto.
Qed.

Lemma streamSound_started decoder basevol pitch flags w source rest sound w' :
  mFreeSources (wOutput w) = source :: rest ->
  Output.streamSound framesToBytes getChannelConfigName getSampleTypeName
    Play_Loop Play_NoEnv getName decoder basevol pitch flags w = (Ok sound, w') ->
  stream_started w source sound w'.
Proof.
  intros H. unfold Output.streamSound. unfold bind at 1.
  rewrite (takeFreeSource_cons _ _ _ H). unfold bind at 1.
  destruct (warnLoop_ledger decoder flags
              (with_output (Output.set_mFreeSources (drop 1)) w))
    as [(w1 & -> & Hw1) | (ex & ->)]; [|discriminate].
  intros Hrun. apply with_stream_locals_ok in Hrun as (l' & Hrun & ->).
  revert Hrun. unfold try_catch.
  set (st0 := (Output.mkStreamLocals 0 0, w1)).
  assert (Hst0 : ledger2 st0 = (Output.mkStreamLocals 0 0, ledger w1)) by reflexivity.
  clearbody st0.
  run_ledger2. destruct (Output.underwater _ _ _ _ _) as [gain pitch'].
  run_ledger2. rewrite bind_throwALerror.
  match goal with
  | |- context [@env_set (Output.StreamLocals * World) ?I ?e ?s] =>
      pose proof (ledger2_env_set e s) as Hlast;
      remember (@env_set (Output.StreamLocals * World) I e s) as stL eqn:E in *; clear E
  end.
  assert (HstL : ledger2 stL = (Output.mkStreamLocals 0 0, ledger w1)) by congruence.
  match goal with |- context [if ?c then _ else _] => destruct c end.
  - match goal with |- context [Output.registerStream ?a ?b ?c ?d ?e ?f ?st] =>
      destruct (Output.registerStream a b c d e f st) as [[[]|ex'] [lR wR]] eqn:Hreg end.
    + intros [= <- <-].
      eapply (stream_started_intro w w1 stL source rest _ _ (decoder, _)); eauto.
    + destruct (unregisterStream_throws source ex' (lR, wR)) as [st' ->]. discriminate.
  - match goal with |- context [Output.unregisterStream source ?e ?st] =>
      destruct (unregisterStream_throws source e st) as [st' ->] end.
    discriminate.
Qed.

Lemma streamSound3D_started decoder pos volume basevol pitch mindist maxdist flags
    w source rest sound w' :
  mFreeSources (wOutput w) = source :: rest ->
  Output.streamSound3D framesToBytes getChannelConfigName getSampleTypeName
    Play_Loop Play_NoEnv getName decoder pos volume basevol pitch mindist maxdist flags w
  = (Ok sound, w') ->
  stream_started w source sound w'.
Proof.
  intros H. unfold Output.streamSound3D. unfold bind at 1.
  rewrite (takeFreeSource_cons _ _ _ H). unfold bind at 1.
  destruct (warnLoop_ledger decoder flags
              (with_output (Output.set_mFreeSources (drop 1)) w))
    as [(w1 & -> & Hw1) | (ex & ->)]; [|discriminate].
  intros Hrun. apply with_stream_locals_ok in Hrun as (l' & Hrun & ->).
  revert Hrun. unfold try_catch.
  set (st0 := (Output.mkStreamLocals 0 0, w1)).
  assert (Hst0 : ledger2 st0 = (Output.mkStreamLocals 0 0, ledger w1)) by reflexivity.
  clearbody st0.
  run_ledger2. cbv zeta. destruct (Output.underwater _ _ _ _ _) as [gain pitch'].
  run_ledger2. rewrite bind_throwALerror.
  match goal with
  | |- context [@env_set (Output.StreamLocals * World) ?I ?e ?s] =>
      pose proof (ledger2_env_set e s) as Hlast;
      remember (@env_set (Output.StreamLocals * World) I e s) as stL eqn:E in *; clear E
  end.
  assert (HstL : ledger2 stL = (Output.mkStreamLocals 0 0, ledger w1)) by congruence.
  match goal with |- context [if ?c then _ else _] => destruct c end.
  - match goal with |- context [Output.registerStream ?a ?b ?c ?d ?e ?f ?st] =>
      destruct (Output.registerStream a b c d e f st) as [[[]|ex'] [lR wR]] eqn:Hreg end.
    + intros [= <- <-].
      eapply (stream_started_intro w w1 stL source rest _ _ (decoder, _)); eauto.
    + destruct (unregisterStream_throws source ex' (lR, wR)) as [st' ->]. discriminate.
  - match goal with |- context [Output.unregisterStream source ?e ?st] =>
      destruct (unregisterStream_throws source e st) as [st' ->] end.
    discriminate.
Qed.
End StreamSpec.

Lemma stop_and_detach_idle src e :
  voice_idle src (alSource_BUFFER src 0 (alSourceStop src e)).
Proof.
  unfold voice_idle, alGetSource_STATE, alGetSource_BUFFERS_QUEUED.
  assert (Hstop : is_active (sState (al_source src (alSourceStop src e))) = false
                  /\ (alSources e !! src = None -> alSources (alSourceStop src e) !! src = None)
                  /\ (is_Some (alSources e !! src)
                      -> is_Some (alSources (alSourceStop src e) !! src))).
  { unfold alSourceStop. rewrite al_source_update.
    split; [destruct (alSources e !! src) as [v|];
            [destruct (sState v) eqn:Hs; cbn; rewrite ?Hs; reflexivity | reflexivity]|].
    split.
    - intros Hn. unfold al_update_source. rewrite Hn, alSources_record_error. exact Hn.
    - apply update_source_exists. }
  destruct Hstop as (Hinactive & Hnone & Hsome).
  unfold alSource_BUFFER, alGetSource_STATE. rewrite Hinactive. cbn [orb Z.eqb].
  rewrite al_source_update.
  destruct (alSources (alSourceStop src e) !! src) as [v|] eqn:Hv.
  - cbn. unfold al_source in Hinactive. rewrite Hv in Hinactive. cbn in Hinactive.
    split; [exact Hinactive | reflexivity].
  - cbn. split; reflexivity.
Qed.

Lemma stopSound_live sound w :
  Output.handle_of sound w <> 0 ->
  let source := Output.GET_PTRID (Output.handle_of sound w) in
  exists w',
    Output.stopSound sound w = (Ok tt, w')
    /\ mFreeSources (wOutput w') = mFreeSources (wOutput w) ++ [source]
    /\ mActiveSounds (wOutput w') = erase_first sound (mActiveSounds (wOutput w))
    /\ mActiveStreams (wOutput w') = mActiveStreams (wOutput w)
    /\ Output.handle_of sound w' = 0
    /\ wThread w' = wThread w /\ wStreams w' = wStreams w
    /\ voice_idle source (wEnv w').
Proof.
  intros Hh. cbn zeta. unfold Output.stopSound. rewrite bind_gets. cbv beta.
  destruct (Output.handle_of sound w =? 0) eqn:E; [apply Z.eqb_eq in E; done|].
  rewrite bind_modify. cbv beta. rewrite !bind_al. cbv beta.
  rewrite bind_modify. cbv beta. unfold modify.
  eexists. split; [reflexivity|].
  cbn [wOutput wThread wStreams wSounds wEnv with_output with_sounds with_env env_set env_of
       World_HasEnv mFreeSources mActiveSounds mActiveStreams Output.set_mFreeSources
       Output.set_mActiveSounds].
  repeat split; try reflexivity.
  - unfold Output.handle_of in *. cbn [wSounds with_output with_env with_sounds].
    rewrite lookup_alter_eq. destruct (wSounds w !! sound); reflexivity.
  - apply stop_and_detach_idle.
  - apply stop_and_detach_idle.
Qed.

Lemma erase_first_snoc_fresh x l : x ∉ l -> erase_first x (l ++ [x]) = l.
Proof.
  induction l as [|y l IH]; intros Hx; cbn.
  - rewrite bool_decide_eq_true_2 by done. reflexivity.
  - rewrite bool_decide_eq_false_2 by (intros ->; apply Hx; left).
    rewrite IH; [reflexivity|]. intros Hin. apply Hx. by right.
Qed.

Lemma erase_first_length x l : x ∈ l -> length (erase_first x l) = pred (length l).
Proof.
  induction l as [|y l IH]; intros Hx; [by apply elem_of_nil in Hx|]. cbn.
  case_bool_decide as Hy; [reflexivity|].
  apply elem_of_cons in Hx as [->|Hx]; [done|].
  cbn. rewrite IH by done. destruct l; [by apply elem_of_nil in Hx | reflexivity].
Qed.

Lemma GET_PTRID_name source : 0 <= source < 2 ^ 32 -> Output.GET_PTRID source = source.
Proof. intros H. unfold Output.GET_PTRID, ALuint_wrap. apply Z.mod_small, H. Qed.

Section RoundTrips.
Variable framesToBytes : Z -> ChannelConfig -> SampleType -> Z.
Variable getChannelConfigName : ChannelConfig -> string.
Variable getSampleTypeName : SampleType -> string.
Variable Play_Loop Play_NoEnv : Z.

(** X2: [stopSound] after a successful [playSound] gives the voice back:
    it is at the back of the free list, the sound has left
    [mActiveSounds], its handle is null and the voice is stopped with
    nothing queued. *)
Theorem play_then_stop_returns_voice data vol basevol pitch flags offset w source rest sound w1 :
  mFreeSources (wOutput w) = source :: rest ->
  0 < source < 2 ^ 32 ->
  wNextAddr w ∉ mActiveSounds (wOutput w) ->
  Output.playSound Play_Loop Play_NoEnv data vol basevol pitch flags offset w = (Ok sound, w1) ->
  exists w2,
    Output.stopSound sound w1 = (Ok tt, w2)
    /\ mFreeSources (wOutput w2) = rest ++ [source]
    /\ mActiveSounds (wOutput w2) = mActiveSounds (wOutput w)
    /\ mActiveStreams (wOutput w2) = mActiveStreams (wOutput w)
    /\ Output.handle_of sound w2 = 0
    /\ voice_idle source (wEnv w2).
Proof.
  intros H Hsrc Hfresh Hplay.
  apply (playSound_started _ _ _ _ _ _ _ _ _ _ _ _ _ H) in Hplay.
  destruct Hplay as (-> & Hfree & Hact & Hstr & Hh & _).
  destruct (stopSound_live (wNextAddr w) w1) as (w2 & Hstop & F & A & S & Hn & _ & _ & Hidle).
  { rewrite Hh. lia. }
  rewrite Hh, GET_PTRID_name in * by lia.
  exists w2. split; [exact Hstop|].
  rewrite F, A, S, Hfree, Hact, Hstr, H. cbn. rewrite drop_0.
  rewrite erase_first_snoc_fresh by done. auto.
Qed.
End RoundTrips.

Lemma on_stream_this {A} p (d : A) (f : OpenAL_SoundStream -> A) w feeder :
  wStreams w !! p = Some feeder ->
  on_stream p d (SoundStream.this f) w
  = (Ok (f feeder), with_streams (insert p feeder) (with_env (fun _ => wEnv w) w)).
Proof. intros H. unfold on_stream. rewrite H. reflexivity. Qed.

Lemma alDeleteBuffers_sources names e : alSources (alDeleteBuffers names e) = alSources e.
Proof. reflexivity. Qed.

Lemma stopStream_live sound w feeder :
  Output.handle_of sound w <> 0 ->
  wStreams w !! Output.handle_of sound w = Some feeder ->
  let stream := Output.handle_of sound w in
  exists w',
    Output.stopStream sound w = (Ok tt, w')
    /\ mFreeSources (wOutput w') = mFreeSources (wOutput w) ++ [mSource feeder]
    /\ mActiveStreams (wOutput w') = erase_first sound (mActiveStreams (wOutput w))
    /\ mActiveSounds (wOutput w') = mActiveSounds (wOutput w)
    /\ Output.handle_of sound w' = 0
    /\ wThread w' = Thread.remove stream (wThread w)
    /\ wStreams w' = delete stream (wStreams w)
    /\ voice_idle (mSource feeder) (wEnv w')
    /\ (forall b, b ∈ mBuffers feeder -> alBuffers (wEnv w') !! b = None).
Proof.
  intros Hh Hf. cbn zeta. unfold Output.stopStream. rewrite bind_gets. cbv beta.
  destruct (Output.handle_of sound w =? 0) eqn:E; [apply Z.eqb_eq in E; done|].
  unfold bind at 1. rewrite (on_stream_this _ _ _ _ _ Hf).
  rewrite bind_modify. cbv beta. rewrite bind_modify. cbv beta. rewrite !bind_al. cbv beta.
  rewrite !bind_modify. cbv beta.
  unfold bind at 1.
  match goal with |- context [on_stream ?p tt ?m ?w0] =>
    assert (Hon : exists e', on_stream p tt m w0
                   = (Ok tt, with_streams (insert p feeder) (with_env (fun _ => e') w0))
                   /\ e' = snd (alGetError (alDeleteBuffers (mBuffers feeder) (wEnv w0))))
  end.
  { unfold on_stream.
    cbn [wStreams with_output with_env with_streams with_thread with_sounds env_set
         World_HasEnv].
    rewrite lookup_insert_eq.
    unfold bind, SoundStream.this, gets, al, modify.
    cbn [fst snd env_of env_set pair_HasEnv Env_HasEnv id].
    eexists. split; reflexivity. }
  destruct Hon as (e' & -> & He'). unfold modify.
  eexists. split; [reflexivity|].
  cbn [wOutput wThread wStreams wSounds wEnv with_output with_sounds with_env with_streams
       with_thread env_set env_of World_HasEnv mFreeSources mActiveSounds mActiveStreams
       Output.set_mFreeSources Output.set_mActiveStreams] in *.
  split; [reflexivity|]. split; [reflexivity|]. split; [reflexivity|].
  split.
  { unfold Output.handle_of in *.
    cbn [wSounds with_output with_env with_sounds with_streams with_thread].
    rewrite lookup_alter_eq. destruct (wSounds w !! sound); reflexivity. }
  split; [reflexivity|]. split.
  { rewrite delete_insert_eq, delete_insert_eq. reflexivity. }
  subst e'. split.
  { pose proof (stop_and_detach_idle (mSource feeder) (wEnv w)) as Hidle.
    unfold voice_idle, alGetSource_STATE, alGetSource_BUFFERS_QUEUED, al_source in *.
    cbn [alGetError snd with_error alSources alDeleteBuffers with_buffers]. exact Hidle. }
  intros b Hb. cbn [alGetError snd with_error alBuffers alDeleteBuffers with_buffers].
  clear -Hb. induction (mBuffers feeder) as [|b' l IH]; [by apply elem_of_nil in Hb|].
  cbn [fold_right]. destruct (decide (b' = b)) as [->|Hne].
  - apply lookup_delete_eq.
  - rewrite lookup_delete_ne by done. apply IH.
    apply elem_of_cons in Hb as [->|Hb]; [done | exact Hb].
Qed.

Lemma erase_first_absent x l : x ∉ l -> erase_first x l = l.
Proof.
  induction l as [|y l IH]; intros Hx; [reflexivity|]. cbn.
  rewrite bool_decide_eq_false_2 by (intros ->; apply Hx; left).
  rewrite IH; [reflexivity|]. intros Hin. apply Hx. by right.
Qed.

Lemma erase_first_NoDup x l : NoDup l -> x ∉ erase_first x l.
Proof.
  induction 1 as [|y l Hy Hnd IH]; cbn; [apply not_elem_of_nil|].
  case_bool_decide as E; [by subst|].
  intros [->|Hin]%elem_of_cons; [done | by apply IH].
Qed.

Lemma remove_add_fresh stream t :
  stream ∉ mStreams t -> Thread.remove stream (Thread.add stream t) = t.
Proof.
  intros H. unfold Thread.add. rewrite bool_decide_eq_false_2 by done.
  unfold Thread.remove, Thread.set_mStreams. cbn.
  rewrite erase_first_snoc_fresh by done. destruct t; reflexivity.
Qed.

Lemma stopSound_null sound w :
  Output.handle_of sound w = 0 -> Output.stopSound sound w = (Ok tt, w).
Proof. intros H. unfold Output.stopSound. rewrite bind_gets, H. reflexivity. Qed.

(** X7: [StreamThread::remove] undoes [add] of a feeder that was not
    registered, removes nothing when the feeder is not registered, and
    leaves no occurrence of the feeder in a list without duplicates. *)
Theorem remove_undoes_add (stream : Z) (t : StreamThread) :
  (stream ∉ mStreams t -> Thread.remove stream (Thread.add stream t) = t)
  /\ (stream ∉ mStreams t -> Thread.remove stream t = t)
  /\ (NoDup (mStreams t) -> stream ∉ mStreams (Thread.remove stream t)).
Proof.
  split; [|split].
  - apply remove_add_fresh.
  - intros H. unfold Thread.remove, Thread.set_mStreams.
    rewrite erase_first_absent by done. destruct t; reflexivity.
  - intros H. cbn. by apply erase_first_NoDup.
Qed.

(** X6: [stopSound] always returns, and a second [stopSound] of the same
    sound changes nothing: the voice is given back once. *)
Theorem stopSound_twice (sound : Z) (w : World) :
  exists w1,
    Output.stopSound sound w = (Ok tt, w1)
    /\ Output.stopSound sound w1 = (Ok tt, w1).
Proof.
  destruct (Z.eq_dec (Output.handle_of sound w) 0) as [H0|Hlive].
  - exists w. split; apply stopSound_null, H0.
  - destruct (stopSound_live sound w Hlive) as (w1 & H1 & _ & _ & _ & Hn & _).
    exists w1. split; [exact H1|].
    apply stopSound_null, Hn.
Qed.

Section Conservation.
Variable framesToBytes : Z -> ChannelConfig -> SampleType -> Z.
Variable getChannelConfigName : ChannelConfig -> string.
Variable getSampleTypeName : SampleType -> string.
Variable Play_Loop Play_NoEnv : Z.
Variable getName : Decoder -> Result string.

Lemma request_conserves (request : M World Z) :
  play_request_contract request ->
  (forall w source rest sound w',
      mFreeSources (wOutput w) = source :: rest ->
      request w = (Ok sound, w') ->
      voices w' = voices w) ->
  forall w, voices (snd (request w)) = voices w.
Proof.
  intros Hc Hok w. destruct (Hc w) as [Hempty Hthrow].
  destruct (mFreeSources (wOutput w)) as [|source rest] eqn:Hfree.
  - rewrite Hempty by reflexivity. reflexivity.
  - destruct (request w) as [[sound|ex] w'] eqn:Hreq; cbn [snd].
    + eapply Hok; eauto.
    + destruct (Hthrow source rest ex w' eq_refl eq_refl) as (F & A & S & _).
      unfold voices. rewrite F, A, S, Hfree, length_app. cbn. lia.
Qed.

Lemma sound_started_voices w source rest sound w' :
  mFreeSources (wOutput w) = source :: rest ->
  sound_started w source sound w' -> voices w' = voices w.
Proof.
  intros H (_ & F & A & S & _). unfold voices. rewrite F, A, S, H, length_app.
  cbn. rewrite drop_0. lia.
Qed.

Lemma stream_started_voices w source rest sound w' :
  mFreeSources (wOutput w) = source :: rest ->
  stream_started w source sound w' -> voices w' = voices w.
Proof.
  intros H (_ & F & S & A & _). unfold voices. rewrite F, A, S, H, length_app.
  cbn. rewrite drop_0. lia.
Qed.

(** X4: Every play request throws [No free sources] on an empty free list
    and changes nothing; and when it throws after taking a voice ---
    for the two stream requests: provided the loop warning returned,
    so that the [try] block was entered --- the voice is at the back
    of the free list again and no sound, stream or feeder has been
    added. *)
Theorem play_requests_give_the_voice_back :
  (forall data vol basevol pitch flags offset,
      play_request_contract
        (Output.playSound Play_Loop Play_NoEnv data vol basevol pitch flags offset))
  /\ (forall data pos vol basevol pitch mindist maxdist flags offset,
      play_request_contract
        (Output.playSound3D Play_Loop Play_NoEnv data pos vol basevol pitch mindist maxdist
           flags offset))
  /\ (forall decoder basevol pitch flags,
      warning_returns getName Play_Loop decoder flags ->
      play_request_contract
        (Output.streamSound framesToBytes getChannelConfigName getSampleTypeName
           Play_Loop Play_NoEnv getName decoder basevol pitch flags))
  /\ (forall decoder pos volume basevol pitch mindist maxdist flags,
      warning_returns getName Play_Loop decoder flags ->
      play_request_contract
        (Output.streamSound3D framesToBytes getChannelConfigName getSampleTypeName
           Play_Loop Play_NoEnv getName decoder pos volume basevol pitch mindist maxdist
           flags)).
Proof.
  split; [intros; apply playSound_contract|].
  split; [intros; apply playSound3D_contract|].
  split; [intros; by apply streamSound_contract | intros; by apply streamSound3D_contract].
Qed.

(** X5: Whether it returns or throws, a play request leaves the number of
    voices the output knows of (free, lent to a sound, lent to a
    stream) as it was --- for the two stream requests provided the
    loop warning returned: no voice is lost or counted twice. *)
Theorem requests_conserve_voices (w : World) :
  (forall data vol basevol pitch flags offset,
      voices (snd (Output.playSound Play_Loop Play_NoEnv data vol basevol pitch flags offset w))
      = voices w)
  /\ (forall data pos vol basevol pitch mindist maxdist flags offset,
      voices (snd (Output.playSound3D Play_Loop Play_NoEnv data pos vol basevol pitch mindist
                     maxdist flags offset w)) = voices w)
  /\ (forall decoder basevol pitch flags,
      warning_returns getName Play_Loop decoder flags ->
      voices (snd (Output.streamSound framesToBytes getChannelConfigName getSampleTypeName
                     Play_Loop Play_NoEnv getName decoder basevol pitch flags w)) = voices w)
  /\ (forall decoder pos volume basevol pitch mindist maxdist flags,
      warning_returns getName Play_Loop decoder flags ->
      voices (snd (Output.streamSound3D framesToBytes getChannelConfigName getSampleTypeName
                     Play_Loop Play_NoEnv getName decoder pos volume basevol pitch mindist
                     maxdist flags w)) = voices w).
Proof.
  split; [|split; [|split]]; intros.
  - apply request_conserves; [apply playSound_contract|].
    intros w0 source rest sound w' Hf Hr. eapply sound_started_voices; [exact Hf|].
    eapply playSound_started; eauto.
  - apply request_conserves; [apply playSound3D_contract|].
    intros w0 source rest sound w' Hf Hr. eapply sound_started_voices; [exact Hf|].
    eapply playSound3D_started; eauto.
  - apply request_conserves; [by apply streamSound_contract|].
    intros w0 source rest sound w' Hf Hr. eapply stream_started_voices; [exact Hf|].
    eapply streamSound_started; eauto.
  - apply request_conserves; [by apply streamSound3D_contract|].
    intros w0 source rest sound w' Hf Hr. eapply stream_started_voices; [exact Hf|].
    eapply streamSound3D_started; eauto.
Qed.

(** X3: [stopStream] after a successful [streamSound] undoes it: the voice
    is at the back of the free list, the stream thread has its feeders
    of before, the feeder object is deleted, the handle is null and
    the voice is idle. *)
Theorem stream_then_stop_returns_voice decoder basevol pitch flags w source rest sound w1 :
  mFreeSources (wOutput w) = source :: rest ->
  wNextAddr w + 1 <> 0 ->
  wNextAddr w ∉ mActiveStreams (wOutput w) ->
  wNextAddr w + 1 ∉ mStreams (wThread w) ->
  Output.streamSound framesToBytes getChannelConfigName getSampleTypeName
    Play_Loop Play_NoEnv getName decoder basevol pitch flags w = (Ok sound, w1) ->
  exists w2,
    Output.stopStream sound w1 = (Ok tt, w2)
    /\ mFreeSources (wOutput w2) = rest ++ [source]
    /\ mActiveStreams (wOutput w2) = mActiveStreams (wOutput w)
    /\ mActiveSounds (wOutput w2) = mActiveSounds (wOutput w)
    /\ wThread w2 = wThread w
    /\ wStreams w2 !! (wNextAddr w + 1) = None
    /\ Output.handle_of sound w2 = 0
    /\ voice_idle source (wEnv w2).
Proof.
  intros H Hq Hfresh Hfresh' Hplay.
  apply (streamSound_started _ _ _ _ _ _ _ _ _ _ _ _ _ _ _ H) in Hplay.
  destruct Hplay as (-> & Hfree & Hstr & Hact & Hh & Ht & (feeder & Hfeeder & Hsrc & _) & _).
  destruct (stopStream_live (wNextAddr w) w1 feeder)
    as (w2 & Hstop & F & S & A & Hn & Ht2 & Hs2 & Hidle & _).
  { rewrite Hh. exact Hq. }
  { rewrite Hh. exact Hfeeder. }
  exists w2. split; [exact Hstop|].
  rewrite F, S, A, Ht2, Hs2, Hfree, Hstr, Hact, Hh, Ht, Hsrc, H in *. cbn. rewrite drop_0.
  rewrite erase_first_snoc_fresh by done.
  split; [reflexivity|]. split; [reflexivity|]. split; [reflexivity|].
  split; [apply remove_add_fresh; exact Hfresh'|].
  split; [apply lookup_delete_eq|]. auto.
Qed.
End Conservation.



Lemma on_stream_process_heap p w alive w' :
  on_stream p true SoundStream.process w = (Ok alive, w') ->
  (forall q, q <> p -> wStreams w' !! q = wStreams w !! q)
  /\ (wStreams w !! p = None -> wStreams w' !! p = None /\ alive = true)
  /\ (is_Some (wStreams w !! p) ->
      exists s', wStreams w' !! p = Some s' /\ alive = negb (mIsFinished s')).
Proof.
  unfold on_stream. destruct (wStreams w !! p) as [s|] eqn:Hs.
  - destruct (process_returns (s, wEnv w)) as [[s' e'] ->]. cbn [fst].
    intros [= <- <-]. cbn [wStreams with_streams with_env]. split; [|split].
    + intros q Hq. by rewrite lookup_insert_ne.
    + discriminate.
    + intros _. exists s'. rewrite lookup_insert_eq. done.
  - intros [= <- <-]. split; [done|]. split; [done|]. intros [? [=]].
Qed.

Lemma processStreams_heap streams : forall w kept w',
  Thread.processStreams streams w = (Ok kept, w') ->
  NoDup streams ->
  (forall q, q ∉ streams -> wStreams w' !! q = wStreams w !! q)
  /\ (forall p, p ∈ streams ->
        match wStreams w' !! p with
        | Some s => p ∈ kept <-> mIsFinished s = false
        | None => p ∈ kept
        end).
Proof.
  induction streams as [|p rest IH]; intros w kept w' Hrun Hnd.
  - injection Hrun as <- <-. split; [done|]. intros p Hp. by apply elem_of_nil in Hp.
  - apply NoDup_cons in Hnd as [Hp Hnd].
    cbn [Thread.processStreams] in Hrun. unfold bind at 1 in Hrun.
    destruct (on_stream_process_ok p w) as (alive & w1 & H1). rewrite H1 in Hrun.
    unfold bind at 1 in Hrun.
    destruct (processStreams_spec rest w1) as (kept' & w2 & H2 & Hsub & _).
    rewrite H2 in Hrun. injection Hrun as <- <-.
    destruct (IH w1 kept' w2 H2 Hnd) as [Hother Hin].
    destruct (on_stream_process_heap p w alive w1 H1) as (Ho1 & Hnone & Hsome).
    split.
    + intros q Hq. rewrite Hother by (intros Hq'; apply Hq; by right).
      apply Ho1. intros ->. apply Hq. by left.
    + intros q [->|Hq]%elem_of_cons.
      * rewrite (Hother p Hp).
        assert (Hkept : p ∉ kept') by (intros Hk; apply Hp; eapply elem_of_sublist; eauto).
        destruct (wStreams w !! p) as [s|] eqn:Hs.
        -- destruct (Hsome ltac:(eauto)) as (s' & -> & ->).
           destruct (mIsFinished s'); cbn.
           ++ split; [intros Hk; by apply Hkept in Hk | discriminate].
           ++ split; [reflexivity | intros _; by left].
        -- destruct (Hnone eq_refl) as [-> ->]. by left.
      * specialize (Hin q Hq). assert (q <> p) by (intros ->; done).
        destruct (wStreams w2 !! q) as [s|].
        -- rewrite <- Hin. destruct alive; [|reflexivity].
           split; [intros [->|Hk]%elem_of_cons; done | intros Hk; by right].
        -- destruct alive; [by right | exact Hin].
Qed.

(** X9: One round of the stream thread's loop, on a list of feeders
    without duplicates, keeps exactly the feeders whose [process()]
    left them unfinished. *)
Theorem round_keeps_exactly_the_unfinished (w : World) :
  NoDup (mStreams (wThread w)) ->
  let w' := snd (Thread.iteration w) in
  forall p s,
    p ∈ mStreams (wThread w) ->
    wStreams w' !! p = Some s ->
    (p ∈ mStreams (wThread w') <-> mIsFinished s = false).
Proof.
  intros Hnd. cbn zeta. intros p s Hp Hs.
  destruct (processStreams_spec (mStreams (wThread w)) w) as (kept & w1 & H1 & Hsub & Hfr).
  destruct (processStreams_heap _ _ _ _ H1 Hnd) as [_ Hin].
  assert (Hshape : exists r w', Thread.iteration w = (r, w')
                   /\ mStreams (wThread w') = kept /\ wStreams w' = wStreams w1).
  { unfold Thread.iteration. unfold bind at 1. unfold gets at 1. unfold bind at 1. rewrite H1.
    destruct Hfr as (Ht & Hl & Ho & _).
    unfold bind at 1, modify at 1. unfold bind at 1, gets at 1.
    cbn [wThread with_thread Thread.set_mStreams mDecoderLoudness].
    rewrite Ht.
    destruct (mDecoderLoudness (wThread w)) as [|[decoder loudness] rest].
    - unfold ret. eexists _, _. split; [reflexivity|]. split; reflexivity.
    - unfold bind at 1, modify at 1. unfold bind at 1.
      match goal with |- context [Thread.decodeJob decoder (_, ?w0)] =>
        destruct (decodeJob_locals decoder w0) as (w2 & -> & Ht2 & _ & _ & Hs2) end.
      unfold ret. eexists _, _. split; [reflexivity|]. cbn. rewrite Ht2, Hs2.
      split; reflexivity. }
  destruct Hshape as (r & w' & Hit & Hk & Hheap). rewrite Hit in *. cbn [snd] in *.
 rewrite Hk. rewrite Hheap in Hs.
  specialize (Hin p Hp). rewrite Hs in Hin. exact Hin.
Qed.

Lemma refillLoop_reads fuel : forall data queued st r st',
  SoundStream.refillLoop fuel data queued st = (r, st') ->
  0 <= queued <= 6 ->
  Z.of_nat (dReads (mDecoder (fst st')))
  <= Z.of_nat (dReads (mDecoder (fst st))) + (6 - queued).
Proof.
  induction fuel as [|fuel IH]; intros data queued [s e] r st' Hrun Hq.
  - injection Hrun as <- <-. cbn [fst]. lia.
  - cbn [fst].
    destruct (mIsFinished s) eqn:Hf.
    { rewrite refillLoop_stop in Hrun by auto. injection Hrun as <- <-. cbn [fst]. lia. }
    destruct (Z.eq_dec queued 6) as [-> | Hne].
    { rewrite refillLoop_stop in Hrun by (right; lia). injection Hrun as <- <-.
      cbn [fst]. lia. }
    destruct (fst (Decoder_read (Z.of_nat (length data)) (mDecoder s))) as [bytes|ex] eqn:Hread.
    + rewrite (refillLoop_round fuel data queued s e bytes Hf ltac:(lia) Hread) in Hrun.
      cbn zeta in Hrun.
      destruct (length bytes <? _)%nat; destruct (0 <? length bytes)%nat.
      all: apply IH in Hrun; [ | lia ].
      all: cbn [fst snd queue_buffer mDecoder set_mIsFinished set_mDecoder set_mCurrentBufIdx
                served dReads] in Hrun.
      all: lia.
    + rewrite (refillLoop_throw fuel data queued s e ex Hf ltac:(lia) Hread) in Hrun.
      injection Hrun as <- <-. cbn [fst mDecoder set_mDecoder served dReads]. lia.
Qed.

(** X10: One [refillQueue] reads the decoder at most once per free slot of
    the queue (six minus the buffers still queued after unqueueing),
    and not at all when the queue is full. *)
Theorem refillQueue_reads_at_most_the_free_slots (s : OpenAL_SoundStream) (e : Env) :
  let e1 := snd (snd (SoundStream.unqueueLoop
                        (Z.to_nat (alGetSource_BUFFERS_PROCESSED (mSource s) e)) (s, e))) in
  let queued := alGetSource_BUFFERS_QUEUED (mSource s) e1 in
  let st' := snd (SoundStream.refillQueue (s, e)) in
  queued <= 6 ->
  Z.of_nat (dReads (mDecoder (fst st'))) <= Z.of_nat (dReads (mDecoder s)) + (6 - queued)
  /\ (queued = 6 -> mDecoder (fst st') = mDecoder s).
Proof.
  cbn zeta. intros Hq.
  destruct (refillQueue_unfold s e) as (e1 & _ & Hun & Hrq).
  rewrite Hun in *. cbn [snd] in *. rewrite Hrq.
  unfold alGetSource_BUFFERS_QUEUED in *. fold (qlen (mSource s) e1) in *.
  destruct (negb (mIsFinished s) && _) eqn:Hc.
  - destruct (SoundStream.refillLoop _ _ _ _) as [r st'] eqn:Hrun. cbn [snd].
    split.
    + apply refillLoop_reads in Hrun; [exact Hrun | lia].
    + intros H6. rewrite H6 in Hc. rewrite andb_false_r in Hc. discriminate.
  - cbn [snd fst]. split; [lia | reflexivity].
Qed.


Lemma ring_next_in_range cur :
  0 <= ALint_wrap (ALuint_wrap (cur + 1) mod sNumBuffers) < 6.
Proof.
  unfold ALint_wrap, sNumBuffers.
  pose proof (Z.mod_pos_bound (ALuint_wrap (cur + 1)) 6 ltac:(lia)) as H.
  rewrite (Z.mod_small (_ + 2 ^ 31)) by lia. lia.
Qed.

Lemma refillLoop_ring s0 fuel : forall data queued st,
  ring_ok s0 (fst st) ->
  ring_ok s0 (fst (snd (SoundStream.refillLoop fuel data queued st))).
Proof.
  induction fuel as [|fuel IH]; intros data queued [s e] Hok; [exact Hok|].
  cbn [SoundStream.refillLoop]. unfold SoundStream.this at 1.
  rewrite bind_gets. cbv beta. cbn [fst].
  destruct (negb (mIsFinished s) && _); [|exact Hok].
  unfold bind at 1, SoundStream.read at 1. cbn [fst snd].
  destruct (Decoder_read _ _) as [[bytes|ex] d']; [|exact Hok].
  unfold bind at 1.
  match goal with |- context [if ?c then _ else _] => destruct c end.
  all: unfold bind at 1, SoundStream.this_set at 1, modify at 1; cbn [fst snd].
  all: try (unfold bind at 1, SoundStream.this at 1, gets at 1; cbn [fst snd];
            unfold ret at 1).
  all: try unfold ret at 1.
  all: unfold bind at 1, when at 1.
  all: match goal with |- context [if ?c then _ else _] => destruct c end.
  all: unfold bind, SoundStream.this, SoundStream.this_set, gets, modify, al, ret;
    cbn [fst snd env_of env_set pair_HasEnv Env_HasEnv id].
  all: apply IH; cbn [fst]; destruct Hok as [Hb Hc]; split; try exact Hb; try exact Hc.
  all: apply ring_next_in_range.
Qed.

Lemma refillQueue_ring s0 st :
  ring_ok s0 (fst st) -> ring_ok s0 (fst (snd (SoundStream.refillQueue st))).
Proof.
  destruct st as [s e]. intros Hok.
  destruct (refillQueue_unfold s e) as (e1 & _ & _ & ->).
  destruct (negb (mIsFinished s) && _); [|exact Hok].
  apply refillLoop_ring. exact Hok.
Qed.

Lemma feeder_run_ring s0 evs : forall st,
  ring_ok s0 (fst st) -> ring_ok s0 (fst (feeder_run evs st)).
Proof.
  induction evs as [|ev evs IH]; intros st H0; [exact H0|].
  cbn [feeder_run fold_left]. fold (feeder_run evs (feeder_event ev st)).
  apply IH. destruct ev; cbn [feeder_event fst]; try exact H0.
  - by apply refillQueue_ring.
  - apply (process_preserves (fun st' => ring_ok s0 (fst st'))); try done.
    intros st1. apply refillQueue_ring.
Qed.

(** X12: Through any history of [refillQueue], [process] and hardware
    events, the six buffer names of a feeder stay the same, the ring
    cursor stays in [0, 6), and the buffer under the cursor is one of
    the feeder's six. *)
Theorem ring_cursor_stays_in_the_ring (st : SoundStream.St) (evs : list FeederEvent) :
  length (mBuffers (fst st)) = 6%nat ->
  0 <= mCurrentBufIdx (fst st) < 6 ->
  let s' := fst (feeder_run evs st) in
  mBuffers s' = mBuffers (fst st)
  /\ 0 <= mCurrentBufIdx s' < 6
  /\ ring_buffer s' ∈ mBuffers (fst st).
Proof.
  intros Hlen Hcur. cbn zeta.
  assert (Hok : ring_ok (fst st) (fst (feeder_run evs st))).
  { apply feeder_run_ring. split; [reflexivity | exact Hcur]. }
  destruct Hok as [Hb Hc]. split; [exact Hb|]. split; [exact Hc|].
  unfold ring_buffer. rewrite Hb. apply list_elem_of_In, nth_In. lia.
Qed.

Lemma lookup_fmtlist_nonzero chans type format :
  lookup_fmtlist fmtlist chans type = Some format -> format <> 0 /\ format <> -1.
Proof.
  unfold fmtlist. cbn [lookup_fmtlist].
  repeat (destruct (same_format _ _ _ _); [intros [= <-]; split; discriminate|]).
  discriminate.
Qed.

Lemma lookup_named_nonzero l chans type e format :
  lookup_named l chans type e = Some format -> format <> 0 /\ format <> -1.
Proof.
  induction l as [|[[name chans'] type'] rest IH]; [discriminate|].
  cbn [lookup_named]. destruct (same_format _ _ _ _); [|exact IH].
  destruct (negb (_ =? 0) && negb (_ =? -1)) eqn:Hc; [|exact IH].
  intros [= <-]. apply andb_prop in Hc as [H0 H1].
  apply negb_true_iff in H0, H1. apply Z.eqb_neq in H0, H1. done.
Qed.

Lemma lookup_named_float l chans e :
  Forall (fun p => snd p <> SampleType_Float32) l ->
  lookup_named l chans SampleType_Float32 e = None.
Proof.
  induction 1 as [|[[name chans'] type'] rest Hne _ IH]; [reflexivity|].
  cbn [lookup_named]. unfold same_format. cbn [snd] in Hne.
  rewrite (bool_decide_eq_false_2 (type' = SampleType_Float32)) by exact Hne.
  rewrite andb_false_r. exact IH.
Qed.

Section Formats.
Variable getChannelConfigName : ChannelConfig -> string.
Variable getSampleTypeName : SampleType -> string.

Local Abbreviation format_of := (getALFormat (S:=Env) getChannelConfigName getSampleTypeName).


(** X14: [getALFormat] changes nothing; what it returns is never 0 or -1,
    and what it throws is the runtime error naming the channel layout
    and the sample type. *)
Theorem getALFormat_returns_a_format_or_throws (chans : ChannelConfig) (type : SampleType)
    (e : Env) :
  snd (format_of chans type e) = e
  /\ match fst (format_of chans type e) with
     | Ok format => format <> 0 /\ format <> -1
     | Throw ex =>
         ex = unsupported_format (getChannelConfigName chans) (getSampleTypeName type)
     end.
Proof.
  unfold getALFormat. rewrite bind_gets. cbv beta.
  cbn [env_of Env_HasEnv id]. unfold id.
  match goal with |- context [match ?f with Some _ => _ | None => _ end] =>
    destruct f as [format|] eqn:Hfound end.
  - split; [reflexivity|]. cbn [fst ret].
    unfold or_else in Hfound.
    destruct (lookup_fmtlist fmtlist chans type) as [f0|] eqn:H0.
    { injection Hfound as <-. by apply lookup_fmtlist_nonzero in H0. }
    destruct (alIsExtensionPresent "AL_EXT_MCFORMATS" e).
    + destruct (lookup_named mcfmtlist chans type e) as [f1|] eqn:H1.
      { injection Hfound as <-. by apply lookup_named_nonzero in H1. }
      destruct (alIsExtensionPresent "AL_EXT_FLOAT32" e); [|discriminate].
      destruct (lookup_named fltfmtlist chans type e) as [f2|] eqn:H2.
      { injection Hfound as <-. by apply lookup_named_nonzero in H2. }
      by apply lookup_named_nonzero in Hfound.
    + destruct (alIsExtensionPresent "AL_EXT_FLOAT32" e); [|discriminate].
      destruct (lookup_named fltfmtlist chans type e) as [f2|] eqn:H2.
      { injection Hfound as <-. by apply lookup_named_nonzero in H2. }
      discriminate.
  - split; reflexivity.
Qed.

(** X15: Mono and stereo in 8 or 16 bits map to the four core formats
    whatever the device supports; no extension is asked for. *)
Theorem base_formats_need_no_extension (chans : ChannelConfig) (type : SampleType) (e : Env) :
  (chans = ChannelConfig_Mono \/ chans = ChannelConfig_Stereo) ->
  (type = SampleType_UInt8 \/ type = SampleType_Int16) ->
  format_of chans type e
  = (Ok (match chans, type with
         | ChannelConfig_Mono, SampleType_UInt8 => AL_FORMAT_MONO8
         | ChannelConfig_Mono, _ => AL_FORMAT_MONO16
         | _, SampleType_UInt8 => AL_FORMAT_STEREO8
         | _, _ => AL_FORMAT_STEREO16
         end), e).
Proof.
  intros [-> | ->] [-> | ->]; reflexivity.
Qed.

(** X16: Without [AL_EXT_FLOAT32] every request for 32-bit float samples
    fails, for surround layouts too, whether or not
    [AL_EXT_MCFORMATS] is present. *)
Theorem float_formats_need_the_float_extension (chans : ChannelConfig) (e : Env) :
  alIsExtensionPresent "AL_EXT_FLOAT32" e = false ->
  format_of chans SampleType_Float32 e
  = (Throw (unsupported_format (getChannelConfigName chans)
                               (getSampleTypeName SampleType_Float32)), e).
Proof.
  intros Hext. unfold getALFormat. rewrite bind_gets. cbv beta.
  cbn [env_of Env_HasEnv id]. unfold id. rewrite Hext.
  replace (lookup_fmtlist fmtlist chans SampleType_Float32) with (@None Z)
    by (destruct chans; reflexivity).
  rewrite (lookup_named_float mcfmtlist)
    by (unfold mcfmtlist; repeat constructor; discriminate).
  cbn [or_else]. destruct (alIsExtensionPresent "AL_EXT_MCFORMATS" e); reflexivity.
Qed.

(** X17: Without [AL_EXT_MCFORMATS] every request for a layout other than
    mono and stereo fails, whatever the sample type. *)
Theorem surround_formats_need_the_multichannel_extension (chans : ChannelConfig)
    (type : SampleType) (e : Env) :
  alIsExtensionPresent "AL_EXT_MCFORMATS" e = false ->
  chans <> ChannelConfig_Mono -> chans <> ChannelConfig_Stereo ->
  format_of chans type e
  = (Throw (unsupported_format (getChannelConfigName chans) (getSampleTypeName type)), e).
Proof.
  intros Hext Hm Hs. unfold getALFormat. rewrite bind_gets. cbv beta.
  cbn [env_of Env_HasEnv id]. unfold id. rewrite Hext.
  destruct (alIsExtensionPresent "AL_EXT_FLOAT32" e);
    destruct chans; try done; destruct type; reflexivity.
Qed.
Lemma getALFormat_world (chans : ChannelConfig) (type : SampleType) (w : World) :
  snd (getALFormat (S:=World) getChannelConfigName getSampleTypeName chans type w) = w.
Proof.
  unfold getALFormat. rewrite bind_gets. cbv beta.
  match goal with |- context [match ?f with Some _ => _ | None => _ end] => destruct f end;
    reflexivity.
Qed.
End Formats.

Lemma lookup_insert_all (names : list Z) (m : gmap Z (list byte)) k :
  fold_right (fun b m => <[b := []]> m) m names !! k
  = if bool_decide (k ∈ names) then Some [] else m !! k.
Proof.
  induction names as [|n names IH]; cbn [fold_right].
  - rewrite bool_decide_eq_false_2; [done | apply not_elem_of_nil].
  - destruct (decide (k = n)) as [-> | Hne].
    + rewrite lookup_insert_eq, bool_decide_eq_true_2; [done | by left].
    + rewrite lookup_insert_ne by done. rewrite IH.
      destruct (decide (k ∈ names)) as [Hin | Hnin].
      * rewrite !bool_decide_eq_true_2; [done | by right | done].
      * rewrite !bool_decide_eq_false_2; [done | | done].
        intros [->|?]%elem_of_cons; done.
Qed.



Lemma alGenBuffers_spec (n : nat) (e : Env) :
  (forall b, b ∈ fst (alGenBuffers n e) -> alBuffers (snd (alGenBuffers n e)) !! b = Some [])
  /\ alError (snd (alGenBuffers n e)) = alError e
  /\ alStrings (snd (alGenBuffers n e)) = alStrings e.
Proof.
  unfold alGenBuffers. cbn [fst snd]. split; [|split; reflexivity].
  intros b Hb. cbn [with_next with_buffers alBuffers]. rewrite lookup_insert_all.
  by rewrite bool_decide_eq_true_2.
Qed.

Section CtorFails.
Variable framesToBytes : Z -> ChannelConfig -> SampleType -> Z.
Variable getChannelConfigName : ChannelConfig -> string.
Variable getSampleTypeName : SampleType -> string.

Local Abbreviation new :=
  (OpenAL_SoundStream_new framesToBytes getChannelConfigName getSampleTypeName).


(** X19: When an AL error is pending as the constructor is entered, its
    [throwALerror] throws with that error's text; this is before the
    [try] block, so the six buffers just generated stay allocated. *)
Theorem construction_with_pending_error_throws (src : Z) (decoder : Decoder) (e : Env) :
  alError e <> AL_NO_ERROR ->
  exists e',
    new src decoder e
    = (Throw (runtime_error ("OpenAL exception: " ++ alGetString (alError e) e)), e')
    /\ alError e' = AL_NO_ERROR
    /\ forall b, b ∈ fst (alGenBuffers (Z.to_nat sNumBuffers) e) -> alBuffers e' !! b = Some [].
Proof.
  intros Herr.
  pose proof (alGenBuffers_spec (Z.to_nat sNumBuffers) e) as (Hbuf & Herr1 & Hstr).
  unfold OpenAL_SoundStream_new, bind at 1.
  destruct (alGenBuffers (Z.to_nat sNumBuffers) e) as [names e1].
  cbn [fst snd] in *.
  unfold bind at 1. unfold throwALerror at 1. unfold alGetError.
  cbn [env_of env_set Env_HasEnv id fst]. unfold id.
  rewrite Herr1. apply Z.eqb_neq in Herr. rewrite Herr. unfold fail, throw.
  eexists. split.
  { unfold alGetString. cbn [with_error alStrings]. rewrite Hstr. reflexivity. }
  split; [reflexivity | exact Hbuf].
Qed.
End CtorFails.

Lemma al_update_source_lookup src f e k :
  alSources (al_update_source src f e) !! k
  = if bool_decide (k = src) then f <$> alSources e !! k else alSources e !! k.
Proof.
  unfold al_update_source. destruct (alSources e !! src) as [v|] eqn:Hv.
  - cbn [with_sources alSources]. case_bool_decide as Hk.
    + subst k. rewrite lookup_insert_eq, Hv. reflexivity.
    + by rewrite lookup_insert_ne.
  - rewrite alSources_record_error. case_bool_decide as Hk; [|reflexivity].
    subst k. by rewrite Hv.
Qed.

Lemma al_update_source_rest src f e :
  alBuffers (al_update_source src f e) = alBuffers e
  /\ console (al_update_source src f e) = console e
  /\ (is_Some (alSources e !! src) -> alError (al_update_source src f e) = alError e).
Proof.
  unfold al_update_source. destruct (alSources e !! src) as [v|].
  - repeat split.
  - unfold al_record_error. destruct (alError e =? AL_NO_ERROR).
    + split; [reflexivity|]. split; [reflexivity|]. intros [? [=]].
    + split; [reflexivity|]. split; [reflexivity|]. intros [? [=]].
Qed.

Lemma forallb_sources sources e :
  forallb (fun src => bool_decide (is_Some (alSources e !! src))) sources = true ->
  Forall (fun src => is_Some (alSources e !! src)) sources.
Proof.
  intros H. apply Forall_forall. intros k Hk. apply list_elem_of_In in Hk.
  eapply forallb_forall in H; [|exact Hk]. by apply bool_decide_eq_true_1 in H.
Qed.

Section Each.
Variable g : Source -> Source.
Variable f : Z -> Env -> Env.
Hypothesis f_def : forall src e, f src e = al_update_source src (fun s => g s) e.

Lemma once_tail src rest : once g (src :: rest) -> once g rest.
Proof. intros [H | H]; [by left | right; by apply NoDup_cons in H as [_ H]]. Qed.

Lemma fold_each sources : forall e,
  once g sources ->
  Forall (fun src => is_Some (alSources e !! src)) sources ->
  let e' := fold_left (fun e src => f src e) sources e in
  alBuffers e' = alBuffers e /\ console e' = console e /\ alError e' = alError e
  /\ forall k, alSources e' !! k
               = if bool_decide (k ∈ sources) then g <$> alSources e !! k
                 else alSources e !! k.
Proof.
  induction sources as [|src rest IH]; intros e Honce Hall; cbn zeta.
  - cbn [fold_left]. do 3 (split; [reflexivity|]). intros k.
    rewrite bool_decide_eq_false_2; [done | apply not_elem_of_nil].
  - apply Forall_cons in Hall as [Hsrc Hrest]. cbn [fold_left].
    destruct (al_update_source_rest src (fun s => g s) e) as (Hb & Hc & He).
    specialize (He Hsrc). rewrite <- f_def in Hb, Hc, He.
    destruct (IH (f src e)) as (Hb' & Hc' & He' & Hk').
    { by eapply once_tail. }
    { eapply Forall_impl; [exact Hrest|]. intros k Hk. cbn beta in *.
      rewrite f_def, al_update_source_lookup. case_bool_decide; [|done].
      destruct Hk as [v ->]. by eexists. }
    rewrite Hb', Hc', He'. repeat split; try done.
    intros k. rewrite Hk', f_def, al_update_source_lookup.
    destruct (decide (k = src)) as [-> | Hne].
    + rewrite (bool_decide_eq_true_2 (src = src)) by done.
      rewrite (bool_decide_eq_true_2 (src ∈ src :: rest)) by (by left).
      case_bool_decide as Hin; [|done].
      destruct Honce as [g_idem | Hnd].
      * destruct (alSources e !! src) as [v|]; cbn; [by rewrite g_idem | done].
      * by apply NoDup_cons in Hnd as [Hnd _].
    + rewrite (bool_decide_eq_false_2 (k = src)) by done.
      destruct (decide (k ∈ rest)) as [Hin | Hnin].
      * rewrite !bool_decide_eq_true_2; [done | by right | done].
      * rewrite !bool_decide_eq_false_2; [done | | done].
        intros [->|?]%elem_of_cons; done.
Qed.

Lemma al_each_ok sources e :
  once g sources ->
  alError e = AL_NO_ERROR ->
  alError (al_each f sources e) = AL_NO_ERROR ->
  alBuffers (al_each f sources e) = alBuffers e
  /\ console (al_each f sources e) = console e
  /\ forall k, alSources (al_each f sources e) !! k
               = if bool_decide (k ∈ sources) then g <$> alSources e !! k
                 else alSources e !! k.
Proof.
  intros Honce He. unfold al_each.
  destruct (forallb _ sources) eqn:Hall.
  - intros _. pose proof (forallb_sources _ _ Hall) as Hall'.
    destruct (fold_each sources e Honce Hall') as (Hb & Hc & _ & Hk). done.
  - unfold al_record_error. rewrite He. cbn. discriminate.
Qed.
End Each.

Lemma paused_idem s : paused (paused s) = paused s.
Proof. unfold paused. destruct s as [[] q p o]; reflexivity. Qed.

Section PauseResume.
Variable getPlayType : Sound -> Z.

Lemma collect_ledger types w w' :
  ledger w' = ledger w ->
  Voices.collect getPlayType types w' = Voices.collect getPlayType types w.
Proof.
  intros H. apply ledger_inv in H as (Ho & _ & Hs & Hst & _).
  unfold Voices.collect, Voices.sound_sources, Voices.stream_sources, Voices.selected.
  rewrite Ho, Hs, Hst. reflexivity.
Qed.

(** Either call, on the AL call [f] it makes on the voices selected. *)
Lemma each_call (f : Z -> Env -> Env) (g : Source -> Source) types w r w' :
  (forall src e, f src e = al_update_source src (fun s => g s) e) ->
  once g (Voices.collect getPlayType types w) ->
  (sources <- gets (Voices.collect getPlayType types) ;;
   when (negb (Voices.is_nil sources)) (al (al_each f sources) ;;; throwALerror)) w = (r, w') ->
  let sources := Voices.collect getPlayType types w in
  match sources with
  | [] => r = Ok tt /\ w' = w
  | _ :: _ =>
      alError (wEnv w') = AL_NO_ERROR
      /\ (alError (wEnv w) = AL_NO_ERROR -> r = Ok tt -> voices_changed g sources w w')
      /\ (alError (wEnv w) <> AL_NO_ERROR -> exists ex, r = Throw ex)
  end.
Proof.
  intros Hf Hg. rewrite bind_gets. cbv beta. cbn zeta.
  destruct (Voices.collect getPlayType types w) as [|src rest] eqn:Hsrcs.
  - cbn. intros [= <- <-]. done.
  - cbn [Voices.is_nil negb when]. rewrite bind_al. cbv beta.
    set (e1 := al_each f (src :: rest) (env_of w)).
    unfold throwALerror, alGetError. cbn [env_of env_set World_HasEnv wEnv with_env].
    destruct (alError e1 =? AL_NO_ERROR) eqn:He1.
    + intros [= <- <-]. cbn [wEnv with_env with_error alError].
      split; [reflexivity|]. split.
      * intros He _. apply Z.eqb_eq in He1.
        destruct (al_each_ok g f Hf (src :: rest) (wEnv w) Hg He He1) as (Hb & Hc & Hk).
        unfold voices_changed. cbn [wEnv with_env with_error alBuffers console alSources].
        split; [reflexivity|]. fold e1 in Hb, Hc, Hk. done.
      * intros He. exfalso. apply Z.eqb_eq in He1. apply He.
        subst e1. unfold al_each in He1. cbn [env_of World_HasEnv] in He1.
        destruct (forallb _ _) eqn:Hall.
        -- pose proof (forallb_sources _ _ Hall) as Hall'.
           destruct (fold_each g f Hf (src :: rest) (wEnv w) Hg Hall') as (_ & _ & Herr & _).
           rewrite <- Herr. exact He1.
        -- unfold al_record_error in He1.
           destruct (alError (wEnv w) =? AL_NO_ERROR) eqn:H0; [discriminate|].
           exact He1.
    + unfold fail, throw. intros [= <- <-]. cbn [wEnv with_env with_error alError].
      split; [reflexivity|]. split; [discriminate | eauto].
Qed.
End PauseResume.

Lemma alSourcePause_def src e : alSourcePause src e = al_update_source src (fun s => paused s) e.
Proof. reflexivity. Qed.
Lemma alSourcePlay_def src e : alSourcePlay src e = al_update_source src (fun s => played s) e.
Proof. reflexivity. Qed.

Lemma voices_changed_refl g w : voices_changed g [] w w.
Proof.
  unfold voices_changed. do 3 (split; [reflexivity|]). intros src.
  rewrite bool_decide_eq_false_2; [done | apply not_elem_of_nil].
Qed.

Lemma al_each_exist f sources e :
  alError e = AL_NO_ERROR ->
  alError (al_each f sources e) = AL_NO_ERROR ->
  Forall (fun src => is_Some (alSources e !! src)) sources.
Proof.
  intros He. unfold al_each. destruct (forallb _ sources) eqn:Hall.
  - intros _. by apply forallb_sources.
  - unfold al_record_error. rewrite He. cbn. discriminate.
Qed.

Section PauseResumeTheorems.
Variable getPlayType : Sound -> Z.

Local Abbreviation collect := (Voices.collect getPlayType).

(** Either call succeeds on voices that exist when no error is pending. *)
Lemma each_call_ok (f : Z -> Env -> Env) (g : Source -> Source) types w :
  (forall src e, f src e = al_update_source src (fun s => g s) e) ->
  once g (collect types w) ->
  alError (wEnv w) = AL_NO_ERROR ->
  Forall (fun src => is_Some (alSources (wEnv w) !! src)) (collect types w) ->
  exists w',
    (sources <- gets (collect types) ;;
     when (negb (Voices.is_nil sources)) (al (al_each f sources) ;;; throwALerror)) w
    = (Ok tt, w')
    /\ voices_changed g (collect types w) w w'
    /\ alError (wEnv w') = AL_NO_ERROR.
Proof.
  intros Hf Honce He Hall.
  match goal with |- exists w', ?m w = _ /\ _ => destruct (m w) as [r w'] eqn:Hrun end.
  pose proof (each_call getPlayType f g types w r w' Hf Honce Hrun) as Hspec.
  cbn zeta in Hspec.
  destruct (collect types w) as [|src rest] eqn:Hsrcs.
  - destruct Hspec as [-> ->]. exists w. split; [done|]. split; [apply voices_changed_refl|done].
  - destruct Hspec as (Herr & Hok & _).
    assert (Hr : r = Ok tt).
    { revert Hrun. rewrite bind_gets. cbv beta. rewrite Hsrcs.
      cbn [Voices.is_nil negb when]. rewrite bind_al. cbv beta.
      unfold throwALerror, alGetError. cbn [env_of env_set World_HasEnv wEnv with_env].
      replace (alError (al_each f (src :: rest) (wEnv w))) with AL_NO_ERROR.
      - rewrite Z.eqb_refl. by intros [= <- _].
      - unfold al_each.
        replace (forallb _ (src :: rest)) with true.
        + destruct (fold_each g f Hf (src :: rest) (wEnv w) Honce Hall) as (_ & _ & -> & _).
          done.
        + symmetry. apply forallb_forall. intros k Hk. apply bool_decide_eq_true_2.
          rewrite Forall_forall in Hall. apply Hall. by apply list_elem_of_In. }
    subst r. exists w'. split; [done|]. split; [by apply Hok | done].
Qed.

(** X24: A [pauseSounds(types)] that returns, with no AL error pending at
    entry, pauses the playing voices of the active sounds and streams
    with a handle and a play type in [types], and touches nothing
    else; none of the voices selected is left playing. *)
Theorem pauseSounds_pauses_the_selected (types : Z) (w w' : World) :
  alError (wEnv w) = AL_NO_ERROR ->
  Voices.pauseSounds getPlayType types w = (Ok tt, w') ->
  voices_changed paused (collect types w) w w'
  /\ Forall (fun src => is_active (alGetSource_STATE src (wEnv w')) = true
                        -> alGetSource_STATE src (wEnv w') = AL_PAUSED)
            (collect types w).
Proof.
  intros He Hrun.
  pose proof (each_call getPlayType alSourcePause paused types w (Ok tt) w'
                alSourcePause_def (or_introl paused_idem) Hrun) as Hspec.
  cbn zeta in Hspec.
  assert (Hch : voices_changed paused (collect types w) w w').
  { destruct (collect types w) as [|src rest].
    - destruct Hspec as [_ ->]. apply voices_changed_refl.
    - destruct Hspec as (_ & Hok & _). by apply Hok. }
  split; [exact Hch|].
  apply Forall_forall. intros src Hsrc.
  destruct Hch as (_ & _ & _ & Hk). specialize (Hk src).
  rewrite bool_decide_eq_true_2 in Hk by done.
  unfold alGetSource_STATE, al_source. rewrite Hk.
  destruct (alSources (wEnv w) !! src) as [[[] q p o]|]; cbn; done.
Qed.

(** X25: A [resumeSounds(types)] that returns leaves every voice selected
    playing: a paused one continues where it was, any other --- also
    one that had stopped or was never paused --- starts again from the
    head of its queue. *)
Theorem resumeSounds_plays_the_selected (types : Z) (w w' : World) :
  alError (wEnv w) = AL_NO_ERROR ->
  NoDup (collect types w) ->
  Voices.resumeSounds getPlayType types w = (Ok tt, w') ->
  voices_changed played (collect types w) w w'
  /\ Forall (fun src =>
       let s := al_source src (wEnv w) in
       let s' := al_source src (wEnv w') in
       sState s' = AL_PLAYING /\ sQueue s' = sQueue s
       /\ (sState s <> AL_PAUSED -> sProcessed s' = 0 /\ sSampleOffset s' = 0))
     (collect types w).
Proof.
  intros He Hnd Hrun.
  pose proof (each_call getPlayType alSourcePlay played types w (Ok tt) w'
                alSourcePlay_def (or_intror Hnd) Hrun) as Hspec.
  cbn zeta in Hspec.
  assert (Hex : Forall (fun src => is_Some (alSources (wEnv w) !! src)) (collect types w)).
  { revert Hrun. unfold Voices.resumeSounds. rewrite bind_gets. cbv beta.
    destruct (collect types w) as [|src rest]; [constructor|].
    cbn [Voices.is_nil negb when]. rewrite bind_al. cbv beta.
    unfold throwALerror, alGetError. cbn [env_of env_set World_HasEnv wEnv with_env].
    destruct (alError _ =? AL_NO_ERROR) eqn:H1; [|discriminate].
    intros _. apply Z.eqb_eq in H1. by eapply al_each_exist. }
  assert (Hch : voices_changed played (collect types w) w w').
  { destruct (collect types w) as [|src rest].
    - destruct Hspec as [_ ->]. apply voices_changed_refl.
    - destruct Hspec as (_ & Hok & _). by apply Hok. }
  split; [exact Hch|].
  apply Forall_forall. intros src Hsrc. cbn zeta.
  destruct Hch as (_ & _ & _ & Hk). specialize (Hk src).
  rewrite bool_decide_eq_true_2 in Hk by done.
  rewrite Forall_forall in Hex. destruct (Hex src Hsrc) as [v Hv].
  unfold al_source. rewrite Hk, Hv. cbn.
  destruct v as [[] q p o]; cbn; repeat split; done.
Qed.

(** X26: After a [pauseSounds(types)] that returned, [resumeSounds(types)]
    returns too; together they leave a voice that was playing exactly
    as it was, resume one that was already paused, and start one that
    was idle. *)
Theorem pause_then_resume (types : Z) (w w1 : World) :
  alError (wEnv w) = AL_NO_ERROR ->
  NoDup (collect types w) ->
  Voices.pauseSounds getPlayType types w = (Ok tt, w1) ->
  exists w2,
    Voices.resumeSounds getPlayType types w1 = (Ok tt, w2)
    /\ ledger w2 = ledger w
    /\ alBuffers (wEnv w2) = alBuffers (wEnv w)
    /\ forall src s,
         alSources (wEnv w) !! src = Some s ->
         alSources (wEnv w2) !! src
         = Some (if bool_decide (src ∈ collect types w)
                 then match sState s with
                      | AL_PLAYING => s
                      | AL_PAUSED =>
                          mkSource AL_PLAYING (sQueue s) (sProcessed s) (sSampleOffset s)
                      | _ => mkSource AL_PLAYING (sQueue s) 0 0
                      end
                 else s).
Proof.
  intros He Hnd Hpause.
  assert (Hex : Forall (fun src => is_Some (alSources (wEnv w) !! src)) (collect types w)).
  { revert Hpause. unfold Voices.pauseSounds. rewrite bind_gets. cbv beta.
    destruct (collect types w) as [|src rest]; [constructor|].
    cbn [Voices.is_nil negb when]. rewrite bind_al. cbv beta.
    unfold throwALerror, alGetError. cbn [env_of env_set World_HasEnv wEnv with_env].
    destruct (alError _ =? AL_NO_ERROR) eqn:H1; [|discriminate].
    intros _. apply Z.eqb_eq in H1. by eapply al_each_exist. }
  pose proof (each_call getPlayType alSourcePause paused types w (Ok tt) w1
                alSourcePause_def (or_introl paused_idem) Hpause) as Hspec.
  cbn zeta in Hspec.
  assert (H1 : voices_changed paused (collect types w) w w1
               /\ alError (wEnv w1) = AL_NO_ERROR).
  { destruct (collect types w) as [|src rest].
    - destruct Hspec as [_ ->]. split; [apply voices_changed_refl | exact He].
    - destruct Hspec as (Herr & Hok & _). split; [by apply Hok | exact Herr]. }
  destruct H1 as [(Hl1 & Hb1 & Hc1 & Hk1) He1].
  pose proof (collect_ledger getPlayType types w w1 Hl1) as Hsame.
  destruct (each_call_ok alSourcePlay played types w1 alSourcePlay_def) as (w2 & Hrun & Hch2 & _).
  { right. by rewrite Hsame. }
  { exact He1. }
  { rewrite Hsame. eapply Forall_impl; [exact Hex|]. intros k [v Hv]. cbn beta.
    rewrite Hk1, Hv. case_bool_decide; by eexists. }
  exists w2. split; [exact Hrun|].
  destruct Hch2 as (Hl2 & Hb2 & _ & Hk2). rewrite Hsame in Hk2.
  split; [by rewrite Hl2|]. split; [by rewrite Hb2|].
  intros src s Hs. rewrite Hk2, Hk1, Hs.
  case_bool_decide; [|reflexivity].
  cbn. destruct s as [[] q p o]; reflexivity.
Qed.
End PauseResumeTheorems.





Lemma append_nil (s : string) : ("" ++ s)%string = s.
Proof. reflexivity. Qed.
Lemma append_cons a (s t : string) : (String a s ++ t)%string = String a (s ++ t).
Proof. reflexivity. Qed.

Lemma rfind_app c s1 s2 :
  free_of c s2 -> rfind c (s1 ++ String c s2) = Some (String.length s1).
Proof.
  unfold free_of. intros H. induction s1 as [|a s1 IH].
  - rewrite append_nil. cbn [rfind String.length]. rewrite H, Ascii.eqb_refl. reflexivity.
  - rewrite append_cons. cbn [rfind String.length]. rewrite IH. reflexivity.
Qed.

Lemma substring_prefix s1 s2 : substring 0 (String.length s1) (s1 ++ s2) = s1.
Proof.
  induction s1 as [|a s1 IH].
  - rewrite append_nil. destruct s2; reflexivity.
  - rewrite append_cons. cbn [String.length substring]. by rewrite IH.
Qed.

Lemma rfind_split c s pos :
  rfind c s = Some pos ->
  exists s1 s2, s = (s1 ++ String c s2)%string /\ String.length s1 = pos /\ free_of c s2.
Proof.
  revert pos. induction s as [|a s IH]; intros pos; cbn [rfind]; [discriminate|].
  destruct (rfind c s) as [p|] eqn:Hr.
  - intros [= <-]. destruct (IH p eq_refl) as (s1 & s2 & -> & <- & Hfree).
    exists (String a s1), s2. done.
  - destruct (Ascii.eqb a c) eqn:Ha; [|discriminate]. intros [= <-].
    apply Ascii.eqb_eq in Ha as ->. exists EmptyString, s. done.
Qed.

Lemma mp3_name_of_split stem ext :
  free_of dot ext -> mp3_name (stem ++ String dot ext) = (stem ++ ".mp3")%string.
Proof.
  intros H. unfold mp3_name. rewrite rfind_app by exact H.
  by rewrite substring_prefix.
Qed.

(** X20: The name [loadSound] falls back to: a name without a dot is kept;
    otherwise what follows the last dot is replaced by [mp3]. Falling
    back twice is falling back once. *)
Theorem mp3_name_replaces_the_last_extension (fname : string) :
  match rfind dot fname with
  | None => mp3_name fname = fname
  | Some pos =>
      exists stem ext,
        fname = (stem ++ "." ++ ext)%string /\ String.length stem = pos
        /\ free_of dot ext
        /\ mp3_name fname = (stem ++ ".mp3")%string
  end
  /\ mp3_name (mp3_name fname) = mp3_name fname.
Proof.
  destruct (rfind dot fname) as [pos|] eqn:Hr.
  - destruct (rfind_split _ _ _ Hr) as (stem & ext & -> & Hlen & Hfree).
    split.
    + exists stem, ext. split; [reflexivity|]. split; [exact Hlen|]. split; [exact Hfree|].
      by apply mp3_name_of_split.
    + rewrite mp3_name_of_split by exact Hfree.
      apply (mp3_name_of_split stem "mp3"). reflexivity.
  - assert (H : mp3_name fname = fname) by (unfold mp3_name; by rewrite Hr).
    split; [exact H|]. by rewrite !H.
Qed.

Section LoadSound.
Variable getChannelConfigName : ChannelConfig -> string.
Variable getSampleTypeName : SampleType -> string.
Variable resource_exists : string -> Result bool.
Variable open : string -> Result Decoder.

Local Abbreviation loadSound :=
  (Loading.loadSound getChannelConfigName getSampleTypeName resource_exists open).

Lemma upload_spec data w :
  alError (wEnv w) = AL_NO_ERROR ->
  alBuffers (wEnv w) !! alNextName (wEnv w) = None ->
  exists w',
    Loading.upload data w = (Ok (alNextName (wEnv w)), w')
    /\ ledger w' = ledger w
    /\ alBuffers (wEnv w') = <[alNextName (wEnv w) := data]> (alBuffers (wEnv w))
    /\ alSources (wEnv w') = alSources (wEnv w)
    /\ alError (wEnv w') = AL_NO_ERROR.
Proof.
  intros He Hfresh. unfold Loading.upload, Loading.alGenBuffers1, alGenBuffers.
  cbn [map seq fold_right hd].
  rewrite bind_al. cbv beta.
  cbn [env_of env_set World_HasEnv wEnv with_env].
  unfold alBufferData. cbn [alBuffers with_next with_buffers].
  rewrite Z.add_0_r, lookup_insert_eq.
  unfold throwALerror, alGetError. cbn [env_of env_set World_HasEnv wEnv with_env].
  cbn [with_buffers with_next alError]. rewrite He. cbn [Z.eqb AL_NO_ERROR].
  eexists. split; [reflexivity|].
  cbn [wEnv with_env with_error with_buffers with_next alBuffers alSources alError].
  rewrite insert_insert_eq. done.
Qed.

(** X21: A [loadSound] that returns had no AL error pending, opened the
    file itself when it exists and its [.mp3] name otherwise, and
    returns a new buffer holding all the bytes [readAll] delivered;
    voices, sounds and the stream thread are untouched. *)
Theorem loadSound_uploads_what_the_decoder_reads (fname : string) (w w' : World) (h : Z) :
  alBuffers (wEnv w) !! alNextName (wEnv w) = None ->
  loadSound fname w = (Ok h, w') ->
  exists found decoder data,
    resource_exists fname = Ok found
    /\ open (if found : bool then fname else mp3_name fname) = Ok decoder
    /\ dReadAll decoder = (data, None)
    /\ alError (wEnv w) = AL_NO_ERROR
    /\ h = alNextName (wEnv w)
    /\ alBuffers (wEnv w') = <[h := data]> (alBuffers (wEnv w))
    /\ alSources (wEnv w') = alSources (wEnv w)
    /\ ledger w' = ledger w.
Proof.
  intros Hfresh. unfold Loading.loadSound. rewrite bind_throwALerror.
  cbn [env_of env_set World_HasEnv].
  destruct (alError (wEnv w) =? AL_NO_ERROR) eqn:He; [|discriminate].
  apply Z.eqb_eq in He.
  assert (Hsame : with_env (fun _ => with_error AL_NO_ERROR (wEnv w)) w = w).
  { destruct w as [[] ? ? ? ? ? ?]. cbn in He. unfold with_env, with_error. cbn.
    by rewrite He. }
  rewrite Hsame. unfold bind at 1.
  destruct (resource_exists fname) as [found|ex] eqn:Hfound; [|discriminate].
  unfold bind at 1, Loading.Decoder_open at 1.
  destruct (open _) as [decoder|ex] eqn:Hopen; [|discriminate].
  unfold bind at 1, Decoder_getInfo at 1.
  destruct (dInfo decoder) as [[[srate chans] type]|ex]; [|discriminate].
  unfold bind at 1.
  pose proof (getALFormat_world getChannelConfigName getSampleTypeName chans type w) as Hfmt.
  destruct (getALFormat _ _ chans type w) as [[format|ex] w1]; cbn [snd] in Hfmt; subst w1;
    [|discriminate].
  unfold bind at 1, Loading.Decoder_readAll at 1.
  destruct (dReadAll decoder) as [data [ex|]] eqn:Hall; cbn [fst snd]; [discriminate|].
  unfold bind at 1.
  destruct (upload_spec data w He Hfresh) as (w2 & -> & Hl & Hb & Hs & _).
  unfold ret, Output.MAKE_PTRID. intros [= <- <-].
  exists found, decoder, data. done.
Qed.

(** X22: A [loadSound] that throws leaves the buffers and voices of the
    device as they were and no AL error pending. *)
Theorem failed_loadSound_leaves_no_buffer (fname : string) (w w' : World) (ex : exn) :
  alBuffers (wEnv w) !! alNextName (wEnv w) = None ->
  loadSound fname w = (Throw ex, w') ->
  alBuffers (wEnv w') = alBuffers (wEnv w)
  /\ alSources (wEnv w') = alSources (wEnv w)
  /\ ledger w' = ledger w
  /\ alError (wEnv w') = AL_NO_ERROR.
Proof.
  intros Hfresh. unfold Loading.loadSound. rewrite bind_throwALerror.
  cbn [env_of env_set World_HasEnv].
  destruct (alError (wEnv w) =? AL_NO_ERROR) eqn:He.
  2:{ intros [= _ <-]. done. }
  apply Z.eqb_eq in He.
  assert (Hsame : with_env (fun _ => with_error AL_NO_ERROR (wEnv w)) w = w).
  { destruct w as [[] ? ? ? ? ? ?]. cbn in He. unfold with_env, with_error. cbn.
    by rewrite He. }
  rewrite Hsame. unfold bind at 1.
  destruct (resource_exists fname) as [found|ex0] eqn:Hfound; [|by intros [= _ <-]].
  unfold bind at 1, Loading.Decoder_open at 1.
  destruct (open _) as [decoder|ex0] eqn:Hopen; [|by intros [= _ <-]].
  unfold bind at 1, Decoder_getInfo at 1.
  destruct (dInfo decoder) as [[[srate chans] type]|ex0]; [|by intros [= _ <-]].
  unfold bind at 1.
  pose proof (getALFormat_world getChannelConfigName getSampleTypeName chans type w) as Hfmt.
  destruct (getALFormat _ _ chans type w) as [[format|ex0] w1]; cbn [snd] in Hfmt; subst w1;
    [|by intros [= _ <-]].
  unfold bind at 1, Loading.Decoder_readAll at 1.
  destruct (dReadAll decoder) as [data [ex0|]] eqn:Hall; cbn [fst snd]; [by intros [= _ <-]|].
  unfold bind at 1.
  destruct (upload_spec data w He Hfresh) as (w2 & -> & _). discriminate.
Qed.
End LoadSound.

Lemma maxtotal_bound (maxmono maxstereo : Z) : 1 <= Init.maxtotal maxmono maxstereo <= 256.
Proof.
  unfold Init.maxtotal, ALuint_wrap.
  pose proof (Z.mod_pos_bound (maxmono + maxstereo) (2 ^ 32) ltac:(lia)) as Hm.
  destruct (Z.min _ 256 =? 0) eqn:H0; [lia|]. apply Z.eqb_neq in H0. lia.
Qed.

(** X27: The number of voices [init] asks for is between 1 and 256: the sum
    of the mono and stereo sources the device reports when that is in
    1..256, and 256 when the sum is zero, negative or larger. *)
Theorem init_asks_for_1_to_256_voices (maxmono maxstereo : Z) :
  - 2 ^ 31 <= maxmono + maxstereo < 2 ^ 31 ->
  1 <= Init.maxtotal maxmono maxstereo <= 256
  /\ Init.maxtotal maxmono maxstereo
     = if (0 <? maxmono + maxstereo) && (maxmono + maxstereo <=? 256)
       then maxmono + maxstereo else 256.
Proof.
  intros H. split; [apply maxtotal_bound|].
  unfold Init.maxtotal, ALuint_wrap.
  generalize dependent (maxmono + maxstereo). intros total H.
  destruct (Z_lt_dec total 0) as [Hneg | Hpos].
  - replace (total mod 2 ^ 32) with (total + 2 ^ 32)
      by (apply Z.mod_unique with (-1); lia).
    rewrite Z.min_r by lia. cbn [Z.eqb].
    replace (0 <? total) with false by (symmetry; apply Z.ltb_ge; lia). reflexivity.
  - rewrite Z.mod_small by lia.
    destruct (Z.min total 256 =? 0) eqn:H0.
    + apply Z.eqb_eq in H0.
      replace (0 <? total) with false by (symmetry; apply Z.ltb_ge; lia). reflexivity.
    + apply Z.eqb_neq in H0.
      destruct (Z_le_dec total 256).
      * replace (0 <? total) with true by (symmetry; apply Z.ltb_lt; lia).
        replace (total <=? 256) with true by (symmetry; apply Z.leb_le; lia).
        cbn [andb]. lia.
      * replace (total <=? 256) with false by (symmetry; apply Z.leb_gt; lia).
        rewrite andb_false_r. lia.
Qed.

Section Allocation.
Variable capacity : nat.

Lemma names_from_S first n : names_from first (S n) = first :: names_from (first + 1) n.
Proof.
  unfold names_from. cbn [seq map]. f_equal; [lia|].
  rewrite <- seq_shift, map_map. apply map_ext. intros i. lia.
Qed.

(** The loop takes what the device has and throws when it has no more. *)
Lemma genLoop_spec n : forall w,
  alError (wEnv w) = AL_NO_ERROR ->
  names_are_new (wEnv w) ->
  let avail := (capacity - size (alSources (wEnv w)))%nat in
  let got := Nat.min n avail in
  exists w',
    Init.genLoop capacity n w
    = (if (n <=? avail)%nat then Ok tt
       else Throw (runtime_error
                     ("OpenAL exception: " ++ alGetString AL_OUT_OF_MEMORY (wEnv w))), w')
    /\ mFreeSources (wOutput w')
       = mFreeSources (wOutput w) ++ names_from (alNextName (wEnv w)) got
    /\ (forall src, src ∈ names_from (alNextName (wEnv w)) got ->
                    alSources (wEnv w') !! src = Some newSource)
    /\ (forall src, src < alNextName (wEnv w) ->
                    alSources (wEnv w') !! src = alSources (wEnv w) !! src)
    /\ alError (wEnv w') = AL_NO_ERROR
    /\ console (wEnv w') = console (wEnv w)
    /\ alBuffers (wEnv w') = alBuffers (wEnv w)
    /\ alStrings (wEnv w') = alStrings (wEnv w)
    /\ wThread w' = wThread w /\ wSounds w' = wSounds w /\ wStreams w' = wStreams w
    /\ mActiveSounds (wOutput w') = mActiveSounds (wOutput w)
    /\ mActiveStreams (wOutput w') = mActiveStreams (wOutput w).
Proof.
  induction n as [|n IH]; intros w He Hnew; cbn zeta.
  - exists w. cbn [Init.genLoop Nat.min Nat.leb names_from seq map].
    split; [reflexivity|]. rewrite app_nil_r. repeat split; try done.
    intros src Hsrc. by apply elem_of_nil in Hsrc.
  - cbn [Init.genLoop]. unfold bind at 1, Init.alGenSources1 at 1.
    destruct (size (alSources (wEnv w)) <? capacity)%nat eqn:Hcap.
    + apply Nat.ltb_lt in Hcap.
      set (e1 := with_next (alNextName (wEnv w) + 1)
                   (with_sources (insert (alNextName (wEnv w)) newSource) (wEnv w))).
      rewrite bind_throwALerror. cbn [env_of env_set World_HasEnv wEnv with_env].
      replace (alError e1) with AL_NO_ERROR by (symmetry; exact He).
      rewrite Z.eqb_refl. rewrite bind_modify.
      assert (He1 : with_error AL_NO_ERROR e1 = e1).
      { subst e1. unfold with_error, with_next, with_sources. cbn. by rewrite He. }
      set (w1 := with_output _ _).
      assert (Hw1 : wEnv w1 = e1) by (subst w1; cbn; exact He1).
      destruct (IH w1) as (w' & Hrun & Hfree & Hnames & Hold & Herr & Hcon & Hbuf & Hstr
                           & Ht & Hsn & Hst & Has & Hastr).
      { rewrite Hw1. exact He. }
      { rewrite Hw1. intros k Hk. subst e1. cbn in Hk |- *.
        rewrite lookup_insert_ne by lia. apply Hnew. lia. }
      rewrite Hw1 in *.
      assert (Hsize : size (alSources e1) = S (size (alSources (wEnv w)))).
      { subst e1. cbn. rewrite map_size_insert_None; [done|]. apply Hnew. lia. }
      rewrite Hsize in *.
      exists w'. split.
      { rewrite Hrun.
        replace (S n <=? capacity - size (alSources (wEnv w)))%nat
          with (n <=? capacity - S (size (alSources (wEnv w))))%nat.
        - destruct (n <=? _)%nat; reflexivity.
        - destruct (Nat.leb_spec n (capacity - S (size (alSources (wEnv w)))));
            symmetry; [apply Nat.leb_le | apply Nat.leb_gt]; lia. }
      replace (Nat.min (S n) (capacity - size (alSources (wEnv w))))
        with (S (Nat.min n (capacity - S (size (alSources (wEnv w)))))) by lia.
      rewrite names_from_S.
      assert (Hnext : alNextName e1 = alNextName (wEnv w) + 1) by (subst e1; reflexivity).
      rewrite Hnext in *.
      split.
      { rewrite Hfree. subst w1. cbn. by rewrite <- app_assoc. }
      split.
      { intros src [-> | Hsrc]%elem_of_cons; [|by apply Hnames].
        rewrite Hold by lia. subst e1. cbn. by rewrite lookup_insert_eq. }
      split.
      { intros src Hsrc. rewrite Hold by lia. subst e1. cbn.
        rewrite lookup_insert_ne by lia. reflexivity. }
      subst w1 e1. cbn in *. repeat split; try done.
    + apply Nat.ltb_ge in Hcap.
      rewrite bind_throwALerror. cbn [env_of env_set World_HasEnv wEnv with_env].
      unfold al_record_error. rewrite He. cbn [Z.eqb AL_NO_ERROR with_error alError].
      change (0xA005 =? 0) with false. cbv iota.
      replace (capacity - size (alSources (wEnv w)))%nat with 0%nat by lia.
      rewrite Nat.min_0_r. cbn [Nat.leb names_from seq map].
      eexists. split; [reflexivity|]. cbn. rewrite app_nil_r.
      repeat split; try done.
      intros src Hsrc. by apply elem_of_nil in Hsrc.
Qed.

(** X28: The allocation loop of [init] takes as many voices as it asked for
    or as the device still has, whichever is less; it fails, with
    [Could not allocate any sources], only when it got none, and
    otherwise prints one line when it got fewer than it asked for. *)
Theorem init_keeps_the_voices_it_could_get (maxmono maxstereo : Z) (w : World) :
  alError (wEnv w) = AL_NO_ERROR ->
  names_are_new (wEnv w) ->
  mFreeSources (wOutput w) = [] ->
  let want := Z.to_nat (Init.maxtotal maxmono maxstereo) in
  let avail := (capacity - size (alSources (wEnv w)))%nat in
  exists w',
    Init.allocate capacity maxmono maxstereo w
    = (if (avail =? 0)%nat
       then Throw (runtime_error "OpenAL exception: Could not allocate any sources")
       else Ok tt, w')
    /\ mFreeSources (wOutput w') = names_from (alNextName (wEnv w)) (Nat.min want avail)
    /\ NoDup (mFreeSources (wOutput w'))
    /\ (forall src, src ∈ mFreeSources (wOutput w') ->
                    alSources (wEnv w') !! src = Some newSource
                    /\ alSources (wEnv w) !! src = None)
    /\ console (wEnv w')
       = console (wEnv w)
         ++ (if (want <=? avail)%nat then []
             else [("Error: " ++ ("OpenAL exception: "
                                  ++ alGetString AL_OUT_OF_MEMORY (wEnv w))
                    ++ ", trying to continue")%string]).
Proof.
  intros He Hnew Hfree0. cbn zeta.
  pose proof (maxtotal_bound maxmono maxstereo) as Hwant.
  destruct (genLoop_spec (Z.to_nat (Init.maxtotal maxmono maxstereo)) w He Hnew)
    as (w1 & Hrun & Hfree & Hnames & Hold & Herr & Hcon & _).
  cbn zeta in Hrun, Hfree, Hnames.
  rewrite Hfree0, app_nil_l in Hfree.
  unfold Init.allocate. unfold bind at 1, try_catch.
  set (want := Z.to_nat (Init.maxtotal maxmono maxstereo)) in *.
  set (avail := (capacity - size (alSources (wEnv w)))%nat) in *.
  assert (Hwant' : (1 <= want)%nat) by (subst want; lia).
  rewrite Hrun.
  assert (Hin : forall src, src ∈ names_from (alNextName (wEnv w)) (Nat.min want avail) ->
                            alNextName (wEnv w) <= src).
  { intros src Hsrc. unfold names_from in Hsrc.
    apply list_elem_of_fmap in Hsrc as (i & -> & _). lia. }
  assert (Hnd : NoDup (names_from (alNextName (wEnv w)) (Nat.min want avail))).
  { unfold names_from. apply NoDup_fmap_2; [intros i j; lia | apply NoDup_seq]. }
  destruct (want <=? avail)%nat eqn:Hle.
  - apply Nat.leb_le in Hle. rewrite bind_gets. cbv beta. rewrite Hfree.
    replace (avail =? 0)%nat with false by (symmetry; apply Nat.eqb_neq; lia).
    replace (Nat.min want avail) with (S (Nat.min (want - 1) (avail - 1))) in * by lia.
    rewrite names_from_S in *. cbn [Init.is_nil when]. unfold ret.
    exists w1. split; [reflexivity|]. split; [exact Hfree|]. rewrite Hfree.
    split; [exact Hnd|]. split.
    + intros src Hsrc. split; [by apply Hnames | apply Hnew; by apply Hin].
    + by rewrite Hcon, app_nil_r.
  - apply Nat.leb_gt in Hle. unfold al, modify. rewrite bind_gets. cbv beta.
    cbn [env_of env_set World_HasEnv wEnv with_env wOutput]. rewrite Hfree.
    replace (Nat.min want avail) with avail in * by lia.
    destruct avail as [|avail'] eqn:Hav.
    + cbn [names_from seq map Init.is_nil when Nat.eqb]. unfold fail, throw.
      eexists. split; [reflexivity|]. cbn [wOutput with_env wEnv print console].
      rewrite Hfree, Hcon. cbn [names_from seq map]. split; [done|].
      split; [constructor|]. split; [|done].
      intros src Hsrc. by apply elem_of_nil in Hsrc.
    + rewrite names_from_S in *. cbn [Init.is_nil when Nat.eqb]. unfold ret.
      eexists. split; [reflexivity|]. cbn [wOutput with_env wEnv print console alSources].
      rewrite Hfree, Hcon. split; [done|]. split; [exact Hnd|]. split; [|done].
      intros src Hsrc. split; [by apply Hnames | apply Hnew; by apply Hin].
Qed.
End Allocation.





Section PlaySuccess.
Variable Play_Loop Play_NoEnv : Z.

End PlaySuccess.

Lemma unqueue_stopped src e n :
  voice_is AL_STOPPED (S n) src e -> voice_is AL_STOPPED n src (alSourceUnqueueBuffers1 src e).
Proof.
  intros ([v Hv] & Hst & Hq). unfold alSourceUnqueueBuffers1, alGetSource_BUFFERS_PROCESSED.
  rewrite Hst, Hq.
  replace (0 <? Z.of_nat (S n)) with true by (symmetry; apply Z.ltb_lt; lia).
  unfold voice_is. rewrite al_source_update.
  split; [apply update_source_exists; by eexists|].
  unfold al_source in Hst, Hq. rewrite Hv in *. cbn in Hst, Hq |- *.
  split; [exact Hst|]. destruct (sQueue v); cbn in *; lia.
Qed.

Lemma unqueueLoop_stopped n : forall s e,
  voice_is AL_STOPPED n (mSource s) e ->
  exists e', SoundStream.unqueueLoop n (s, e) = (Ok tt, (s, e'))
             /\ voice_is AL_STOPPED 0 (mSource s) e'.
Proof.
  induction n as [|n IH]; intros s e Hv; cbn [SoundStream.unqueueLoop].
  - exists e. done.
  - unfold SoundStream.this at 1. rewrite bind_gets. cbv beta. rewrite bind_al. cbv beta.
    cbn [fst snd env_of env_set pair_HasEnv Env_HasEnv id].
    apply IH. by apply unqueue_stopped.
Qed.

Lemma queue_buffer_voice data s e state n :
  voice_is state n (mSource s) e ->
  voice_is state (S n) (mSource s) (snd (queue_buffer data (s, e))).
Proof.
  intros (Hex & Hst & Hq).
  destruct (queue_buffer_spec data s e Hex) as (Hex' & Hqueue & _).
  cbn zeta in *. split; [exact Hex'|]. split.
  - unfold queue_buffer, alSourceQueueBuffers1. cbn [fst snd].
    rewrite al_source_update, alSources_alBufferData.
    unfold al_source in Hst. destruct Hex as [v Hv]. rewrite Hv in *. exact Hst.
  - rewrite Hqueue, length_app, Hq. cbn. lia.
Qed.

(** Reads that fill the buffer, as many as the voice has room for. *)
Lemma refillLoop_fulls (rest : list ReadOutcome) (size : nat) (Hsize : (0 < size)%nat)
    (state : SourceState) (fulls : list (list byte)) :
  forall fuel data s e,
    let queued := (6 - length fulls)%nat in
    mIsFinished s = false -> length data = size ->
    (length fulls <= 6)%nat -> (length fulls <= fuel)%nat ->
    dReadScript (mDecoder s) = map ReadBytes fulls ++ rest ->
    Forall (fun b => (size <= length b)%nat) fulls ->
    voice_is state queued (mSource s) e ->
    exists s' e',
      SoundStream.refillLoop fuel data (Z.of_nat queued) (s, e) = (Ok 6, (s', e'))
      /\ voice_is state 6 (mSource s) e'
      /\ mDecoder s' = served_n (length fulls) (mDecoder s)
      /\ mIsFinished s' = false /\ mSource s' = mSource s
      /\ mBufferSize s' = mBufferSize s.
Proof.
  induction fulls as [|full fulls IH]; intros fuel data s e queued Hf Hd Hlen Hfuel Hscript
    Hfull Hv; subst queued.
  - cbn [length] in *. rewrite refillLoop_stop by (right; lia).
    exists s, e. rewrite Nat.sub_0_r in Hv. done.
  - destruct fuel as [|fuel]; [cbn in Hfuel; lia|].
    cbn [map app length] in *. apply Forall_cons in Hfull as [Hfull1 Hfull].
    assert (Hread : fst (Decoder_read (Z.of_nat (length data)) (mDecoder s))
                    = Ok (firstn size full)).
    { unfold Decoder_read. rewrite Hscript. cbn [fst]. by rewrite Nat2Z.id, Hd. }
    rewrite (refillLoop_round fuel data (Z.of_nat (6 - S (length fulls))) s e _ Hf
               ltac:(lia) Hread). cbn zeta.
    assert (Hgot : length (firstn size full) = size) by (rewrite length_firstn; lia).
    rewrite Hgot.
    assert (Hdata1 : firstn size full ++ skipn size data = firstn size full).
    { rewrite skipn_all2 by lia. apply app_nil_r. }
    rewrite Hdata1, Hgot, Nat.ltb_irrefl.
    replace (0 <? size)%nat with true by (symmetry; by apply Nat.ltb_lt).
    set (s1 := set_mDecoder (served (mDecoder s)) s).
    pose proof (queue_buffer_voice (firstn size full) s1 e state _ Hv) as Hv1.
    destruct (queue_buffer_spec (firstn size full) s1 e (proj1 Hv))
      as (_ & _ & _ & Hdec & Hfin & Hsrc & _).
    assert (Hsize1 : mBufferSize (fst (queue_buffer (firstn size full) (s1, e)))
                     = mBufferSize s) by reflexivity.
    destruct (queue_buffer (firstn size full) (s1, e)) as [s2 e2]. cbn [fst snd] in *.
    replace (Z.of_nat (6 - S (length fulls)) + 1) with (Z.of_nat (6 - length fulls)) by lia.
    replace (S (6 - S (length fulls))) with (6 - length fulls)%nat in Hv1 by lia.
    destruct (IH fuel (firstn size full) s2 e2) as (s' & e' & Hrun & Hv' & Hdec' & Hfin' & Hsrc'
                                                    & Hsz').
    + by rewrite Hfin.
    + exact Hgot.
    + lia.
    + lia.
    + rewrite Hdec. subst s1. cbn. rewrite Hscript. reflexivity.
    + exact Hfull.
    + by rewrite Hsrc.
    + exists s', e'. split; [exact Hrun|]. rewrite Hsrc in Hv'. split; [exact Hv'|].
      split. { rewrite Hdec', Hdec. reflexivity. }
      split; [exact Hfin'|]. split; [by rewrite Hsrc', Hsrc | by rewrite Hsz', Hsize1].
Qed.

(** [refillQueue] on a stopped voice: whatever is queued is taken off,
    and six new buffers are queued. *)
Lemma refillQueue_stopped (rest : list ReadOutcome) (fulls : list (list byte)) s e n :
  mIsFinished s = false ->
  0 < mBufferSize s ->
  length fulls = 6%nat ->
  dReadScript (mDecoder s) = map ReadBytes fulls ++ rest ->
  Forall (fun b => (Z.to_nat (mBufferSize s) <= length b)%nat) fulls ->
  voice_is AL_STOPPED n (mSource s) e ->
  exists s' e',
    SoundStream.refillQueue (s, e) = (Ok 6, (s', e'))
    /\ voice_is AL_STOPPED 6 (mSource s) e'
    /\ mDecoder s' = served_n 6 (mDecoder s)
    /\ mIsFinished s' = false /\ mSource s' = mSource s
    /\ mBufferSize s' = mBufferSize s.
Proof.
  intros Hf Hsize Hlen Hscript Hfull Hv.
  destruct (refillQueue_unfold s e) as (e1 & _ & Hun & ->).
  destruct (unqueueLoop_stopped n s e Hv) as (e1' & Hun' & Hv1).
  assert (Hn : Z.to_nat (alGetSource_BUFFERS_PROCESSED (mSource s) e) = n).
  { unfold alGetSource_BUFFERS_PROCESSED. destruct Hv as (_ & -> & ->). lia. }
  rewrite Hn, Hun' in Hun. injection Hun as <-.
  unfold qlen. rewrite (proj2 (proj2 Hv1)), Hf. cbn [negb andb Z.of_nat].
  change (ALuint_wrap 0 <? sNumBuffers) with true. cbv iota.
  change (Z.to_nat sNumBuffers) with 6%nat.
  destruct (refillLoop_fulls rest (Z.to_nat (mBufferSize s)) ltac:(lia) AL_STOPPED fulls 6
              (repeat x00 (Z.to_nat (mBufferSize s))) s e1')
    as (s' & e' & Hrun & Hrest).
  - exact Hf.
  - apply repeat_length.
  - lia.
  - lia.
  - exact Hscript.
  - exact Hfull.
  - by rewrite Hlen.
  - rewrite Hlen in Hrun. cbn in Hrun. rewrite Hlen in Hrest. eauto.
Qed.

(** X13: On a device that counts every buffer queued on a stopped voice as
    processed (as the OpenAL specification describes a stopped
    source), a [process()] that finds the voice stopped reads twelve
    buffers but plays six: its first [refillQueue] queues six reads,
    its second one takes them off again unplayed and queues the next
    six, which [alSourcePlay] then starts. *)
Theorem underrun_restart_skips_six_buffers (s : OpenAL_SoundStream) (e : Env)
    (batch1 batch2 : list (list byte)) (rest : list ReadOutcome) (n : nat) :
  mIsFinished s = false ->
  0 < mBufferSize s ->
  voice_is AL_STOPPED n (mSource s) e ->
  length batch1 = 6%nat -> length batch2 = 6%nat ->
  Forall (fun b => (Z.to_nat (mBufferSize s) <= length b)%nat) (batch1 ++ batch2) ->
  dReadScript (mDecoder s) = map ReadBytes (batch1 ++ batch2) ++ rest ->
  exists s1 e1 s' e',
    SoundStream.refillQueue (s, e) = (Ok 6, (s1, e1))
    /\ voice_is AL_STOPPED 6 (mSource s) e1
    /\ dReadScript (mDecoder s1) = map ReadBytes batch2 ++ rest
    /\ SoundStream.process (s, e) = (Ok true, (s', e'))
    /\ voice_is AL_PLAYING 6 (mSource s) e'
    /\ dReadScript (mDecoder s') = rest
    /\ dReads (mDecoder s') = (dReads (mDecoder s) + 12)%nat.
Proof.
  intros Hf Hsize Hv H1 H2 Hfull Hscript.
  apply Forall_app in Hfull as [Hfull1 Hfull2].
  rewrite map_app, <- app_assoc in Hscript.
  destruct (refillQueue_stopped _ batch1 s e n Hf Hsize H1 Hscript Hfull1 Hv)
    as (s1 & e1 & Hrun1 & Hv1 & Hdec1 & Hf1 & Hsrc1 & Hsz1).
  assert (Hscript1 : dReadScript (mDecoder s1) = map ReadBytes batch2 ++ rest).
  { rewrite Hdec1, dReadScript_served_n, Hscript.
    rewrite <- (length_map ReadBytes batch1) in H1. rewrite <- H1.
    by rewrite drop_app_length. }
  rewrite <- Hsrc1, <- Hsz1 in *.
  destruct (refillQueue_stopped _ batch2 s1 e1 6 Hf1 Hsize H2 Hscript1 Hfull2 Hv1)
    as (s2 & e2 & Hrun2 & Hv2 & Hdec2 & Hf2 & Hsrc2 & Hsz2).
  exists s1, e1. eexists _, _. split; [exact Hrun1|]. split; [exact Hv1|].
  split; [exact Hscript1|].
  rewrite process_unfold, Hrun1. cbn [Z.ltb Z.compare fst snd].
  unfold alGetSource_STATE. rewrite (proj1 (proj2 Hv1)). cbn [is_active].
  rewrite Hrun2. unfold alive, start_voice. cbn [fst snd]. rewrite Hf2. cbn [negb].
  split; [reflexivity|]. split.
  - destruct Hv2 as ([v Hvv] & Hst & Hq). rewrite Hsrc2. unfold voice_is, alSourcePlay.
    rewrite al_source_update. split; [apply update_source_exists; by eexists|].
    unfold al_source in Hst, Hq. rewrite Hvv in *. cbn in Hst, Hq |- *. rewrite Hst.
    cbn. done.
  - rewrite Hdec2, Hdec1. rewrite !dReadScript_served_n, !dReads_served_n, Hscript.
    split; [|lia].
    rewrite drop_drop. cbn [Nat.add].
    replace 12%nat with (length (map ReadBytes batch1 ++ map ReadBytes batch2))
      by (rewrite length_app, !length_map; lia).
    by rewrite app_assoc, drop_app_length.
Qed.

(** X2 on the concrete configuration. *)
Lemma play_then_stop_witness :
  exists w2,
    Output.stopSound 1000 Scene.playing = (Ok tt, w2)
    /\ mFreeSources (wOutput w2) = [1]
    /\ mActiveSounds (wOutput w2) = [].
Proof.
  destruct (play_then_stop_returns_voice 1 2 100 Output.f1 Output.f1 Output.f1 16 F32.zero
              (Demo.world []) 1 [] 1000 Scene.playing) as (w2 & H1 & H2 & H3 & _).
  - reflexivity.
  - lia.
  - vm_compute. intros H. inversion H.
  - vm_compute. reflexivity.
  - exists w2. auto.
Defined.

(** X3 on the concrete configuration. *)
Lemma stream_then_stop_witness :
  exists w2,
    Output.stopStream 1000 (Scene.streaming []) = (Ok tt, w2)
    /\ mFreeSources (wOutput w2) = [1]
    /\ wThread w2 = wThread (Demo.world []).
Proof.
  destruct (stream_then_stop_returns_voice Demo.framesToBytes Demo.channelName Demo.sampleName
              1 2 Demo.getName (Demo.decoder 32 SampleType_UInt8 []) Output.f1 Output.f1 16
              (Demo.world []) 1 [] 1000 (Scene.streaming []))
    as (w2 & H1 & H2 & _ & _ & H3 & _).
  - reflexivity.
  - vm_compute. discriminate.
  - vm_compute. intros H. inversion H.
  - vm_compute. intros H. inversion H.
  - vm_compute. reflexivity.
  - exists w2. auto.
Defined.

(** X4 on the concrete configuration. *)
Lemma play_requests_give_back_witness :
  let request := Output.streamSound Demo.framesToBytes Demo.channelName Demo.sampleName 1 2
                   Demo.nameless Demo.broken Output.f1 Output.f1 0 in
  let w := Demo.world [] in
  mFreeSources (wOutput (snd (request w))) = [1]
  /\ mActiveSounds (wOutput (snd (request w))) = []
  /\ mActiveStreams (wOutput (snd (request w))) = []
  /\ mStreams (wThread (snd (request w))) `sublist_of` [].
Proof.
  intros request w.
  destruct (play_requests_give_the_voice_back Demo.framesToBytes Demo.channelName
              Demo.sampleName 1 2 Demo.nameless) as (_ & _ & H & _).
  destruct (H Demo.broken Output.f1 Output.f1 0 (or_introl eq_refl) w) as [_ H2].
  apply (H2 1 [] (std_exception "no such file") (snd (request w))).
  - reflexivity.
  - vm_compute. reflexivity.
Defined.

(** X9 on the concrete configuration. *)
Lemma round_keeps_witness :
  let w' := snd (Thread.iteration (Scene.streaming [])) in
  1001 ∈ mStreams (wThread w')
  <-> mIsFinished (default (Demo.feeder []) (wStreams w' !! 1001)) = false.
Proof.
  apply (round_keeps_exactly_the_unfinished (Scene.streaming [])).
  - vm_compute. apply NoDup_singleton.
  - vm_compute. apply list_elem_of_singleton. reflexivity.
  - vm_compute. reflexivity.
Defined.

(** X10 on the concrete configuration. *)
Lemma refillQueue_reads_witness :
  let st' := snd (SoundStream.refillQueue (Demo.feeder [], Demo.env)) in
  Z.of_nat (dReads (mDecoder (fst st'))) <= 6.
Proof.
  destruct (refillQueue_reads_at_most_the_free_slots (Demo.feeder []) Demo.env) as [H _].
  - vm_compute. discriminate.
  - exact H.
Defined.


(** X12 on the concrete configuration. *)
Lemma ring_cursor_witness :
  0 <= mCurrentBufIdx (fst (feeder_run [CallProcess; HwFinishBuffer; CallProcess]
                              (Demo.feeder [ReadBytes Scene.chunk], Demo.env))) < 6.
Proof.
  destruct (ring_cursor_stays_in_the_ring
              (Demo.feeder [ReadBytes Scene.chunk], Demo.env)
              [CallProcess; HwFinishBuffer; CallProcess]) as (_ & H & _).
  - reflexivity.
  - cbn. lia.
  - exact H.
Defined.

(** X15 on the concrete configuration. *)
Lemma base_formats_witness :
  getALFormat Demo.channelName Demo.sampleName ChannelConfig_Stereo SampleType_Int16 Demo.env
  = (Ok AL_FORMAT_STEREO16, Demo.env).
Proof.
  apply (base_formats_need_no_extension Demo.channelName Demo.sampleName
           ChannelConfig_Stereo SampleType_Int16 Demo.env).
  - right. reflexivity.
  - right. reflexivity.
Defined.

(** X16 on the concrete configuration. *)
Lemma float_formats_witness :
  getALFormat Demo.channelName Demo.sampleName ChannelConfig_Mono SampleType_Float32 Demo.env
  = (Throw (unsupported_format "Mono" "Float32"), Demo.env).
Proof.
  apply (float_formats_need_the_float_extension Demo.channelName Demo.sampleName
           ChannelConfig_Mono Demo.env).
  vm_compute. reflexivity.
Defined.

(** X17 on the concrete configuration. *)
Lemma surround_formats_witness :
  getALFormat Demo.channelName Demo.sampleName ChannelConfig_Quad SampleType_Int16 Demo.env
  = (Throw (unsupported_format "Quad" "S16"), Demo.env).
Proof.
  apply (surround_formats_need_the_multichannel_extension Demo.channelName Demo.sampleName
           ChannelConfig_Quad SampleType_Int16 Demo.env).
  - vm_compute. reflexivity.
  - discriminate.
  - discriminate.
Defined.


(** X19 on the concrete configuration. *)
Lemma pending_error_witness :
  exists e',
    OpenAL_SoundStream_new Demo.framesToBytes Demo.channelName Demo.sampleName 1
      (Demo.decoder 32 SampleType_UInt8 []) (with_error AL_INVALID_VALUE Demo.env)
    = (Throw (runtime_error "OpenAL exception: "), e')
    /\ alBuffers e' !! 106 = Some [].
Proof.
  destruct (construction_with_pending_error_throws Demo.framesToBytes Demo.channelName
              Demo.sampleName 1 (Demo.decoder 32 SampleType_UInt8 [])
              (with_error AL_INVALID_VALUE Demo.env)) as (e' & H1 & _ & H2).
  - vm_compute. discriminate.
  - exists e'. split; [exact H1|]. apply H2. vm_compute. left.
Defined.

(** X24 on the concrete configuration. *)
Lemma pauseSounds_witness :
  let w' := snd (Voices.pauseSounds Scene.playType 16 Scene.playing) in
  voices_changed paused [1] Scene.playing w'.
Proof.
  intros w'.
  destruct (pauseSounds_pauses_the_selected Scene.playType 16 Scene.playing w') as [H _].
  - vm_compute. reflexivity.
  - vm_compute. reflexivity.
  - exact H.
Defined.

(** X25 on the concrete configuration. *)
Lemma resumeSounds_witness :
  let w := snd (Voices.pauseSounds Scene.playType 16 Scene.playing) in
  let w' := snd (Voices.resumeSounds Scene.playType 16 w) in
  voices_changed played [1] w w'.
Proof.
  intros w w'.
  destruct (resumeSounds_plays_the_selected Scene.playType 16 w w') as [H _].
  - vm_compute. reflexivity.
  - vm_compute. apply NoDup_singleton.
  - vm_compute. reflexivity.
  - exact H.
Defined.

(** X26 on the concrete configuration. *)
Lemma pause_then_resume_witness :
  exists w2,
    Voices.resumeSounds Scene.playType 16
      (snd (Voices.pauseSounds Scene.playType 16 Scene.playing)) = (Ok tt, w2)
    /\ alSources (wEnv w2) !! 1 = alSources (wEnv Scene.playing) !! 1.
Proof.
  destruct (pause_then_resume Scene.playType 16 Scene.playing
              (snd (Voices.pauseSounds Scene.playType 16 Scene.playing)))
    as (w2 & H1 & _ & _ & H2).
  - vm_compute. reflexivity.
  - vm_compute. apply NoDup_singleton.
  - vm_compute. reflexivity.
  - exists w2. split; [exact H1|].
    rewrite (H2 1 (mkSource AL_PLAYING [100] 0 0)); vm_compute; reflexivity.
Defined.


(** X21 on the concrete configuration. *)
Lemma loadSound_witness :
  let w' := snd (Loading.loadSound Demo.channelName Demo.sampleName Scene.no_file
                   Scene.open_mp3 "door.wav" (Demo.world [])) in
  alBuffers (wEnv w') !! 106 = Some Scene.chunk.
Proof.
  intros w'.
  destruct (loadSound_uploads_what_the_decoder_reads Demo.channelName Demo.sampleName
              Scene.no_file Scene.open_mp3 "door.wav" (Demo.world []) w' 106)
    as (found & decoder & data & _ & _ & _ & _ & _ & H & _).
  - vm_compute. reflexivity.
  - vm_compute. reflexivity.
  - vm_compute. reflexivity.
Defined.

(** X22 on the concrete configuration. *)
Lemma failed_loadSound_witness :
  let w' := snd (Loading.loadSound Demo.channelName Demo.sampleName Scene.no_file
                   Scene.open_mp3 "door" (Demo.world [])) in
  alBuffers (wEnv w') = alBuffers (wEnv (Demo.world [])).
Proof.
  intros w'.
  destruct (failed_loadSound_leaves_no_buffer Demo.channelName Demo.sampleName
              Scene.no_file Scene.open_mp3 "door" (Demo.world []) w'
              (std_exception "no such file")) as (H & _).
  - vm_compute. reflexivity.
  - vm_compute. reflexivity.
  - exact H.
Defined.

(** X27 on the concrete configuration. *)
Lemma init_asks_witness : Init.maxtotal (-1) 0 = 256.
Proof.
  destruct (init_asks_for_1_to_256_voices (-1) 0) as [_ H].
  - lia.
  - exact H.
Defined.

(** X28 on the concrete configuration. *)
Lemma init_keeps_witness :
  exists w',
    Init.allocate 3 0 0 Scene.bare = (Ok tt, w')
    /\ mFreeSources (wOutput w') = [106; 107].
Proof.
  destruct (init_keeps_the_voices_it_could_get 3 0 0 Scene.bare) as (w' & H1 & H2 & _).
  - reflexivity.
  - intros k Hk. cbn in Hk |- *. apply lookup_singleton_ne. lia.
  - reflexivity.
  - exists w'. split; [exact H1 | exact H2].
Defined.


(** X13 on the concrete configuration. *)
Lemma underrun_witness :
  exists s' e',
    SoundStream.process
      (Demo.feeder (map ReadBytes (Scene.batch ++ Scene.batch)), Scene.dry)
    = (Ok true, (s', e'))
    /\ dReads (mDecoder s') = 12%nat
    /\ voice_is AL_PLAYING 6 1 e'.
Proof.
  destruct (underrun_restart_skips_six_buffers
              (Demo.feeder (map ReadBytes (Scene.batch ++ Scene.batch))) Scene.dry
              Scene.batch Scene.batch [] 0)
    as (_ & _ & s' & e' & _ & _ & _ & H1 & H2 & _ & H3).
  - reflexivity.
  - reflexivity.
  - split; [vm_compute; eauto | split; vm_compute; reflexivity].
  - reflexivity.
  - reflexivity.
  - vm_compute. repeat constructor.
  - vm_compute. reflexivity.
  - exists s', e'. split; [exact H1|]. split; [exact H3 | exact H2].
Defined.
